(** * sitemapper: a shallow embedding of the crawler and its properties

    The development follows the Go package [sitemapper]:
    - [quote]: the quoting [fmt] applies for the verb [%q];
    - [url]: the part of Go's [net/url] the crawler relies on
      ([Parse], [ResolveReference], [String]);
    - [Config], [NewConfig], [Validate] (configuration);
    - [SiteMap], [ValidateHosts], [appendURL], [WriteMap] (the frontier);
    - [LinkReader], [Read], [Close] (the link extractor);
    - [DomainCrawler], [NewDomainCrawler], [Crawl], [drainURLS],
      [realAllLinks] (the crawl itself), as an interleaving semantics over
      the goroutines of one crawl, one step per access to shared state.

    Go's [int], [time.Duration] (an int64 of nanoseconds) and HTTP status
    codes are integers that are only compared, so they are [Z]; the
    [atomic.Uint64] counter wraps modulo 2^64; [map[string]bool] is a
    [gmap string bool]; the buffered channel is a FIFO list with its
    capacity and a closed flag; the [sync.WaitGroup] is its counter. *)

From Stdlib Require Import ZArith Lia Ascii String Sorted.
From stdpp Require Import base tactics option list gmap strings sorting.

Local Open Scope Z_scope.

(** ** Errors *)

(** The [error] values the package produces or passes on. [Errorf] is
    [fmt.Errorf] with the formatted message; the others are errors of the
    libraries ([io.EOF], [http.ErrNoLocation], a transport failure, a
    failing [Body.Close], a tokenizer read error, a [url.Parse] error). *)
Inductive error : Type :=
  | EOF
  | Errorf (msg : string)
  | ErrNoLocation
  | ErrTransport (msg : string)
  | ErrBodyClose (msg : string)
  | ErrTokenizer (msg : string)
  | ErrURLParse (msg : string).

#[global] Instance error_eq_dec : EqDecision error.
Proof. solve_decision. Defined.

(** ** Strings *)

Module strings.

(** [strings.Cut s sep] for a one-byte separator: the text before the
    first [sep], the text after it, and whether [sep] occurs. *)
Fixpoint Cut (s : string) (sep : ascii) : string * string * bool :=
  match s with
  | EmptyString => (EmptyString, EmptyString, false)
  | String c r =>
      if Ascii.eqb c sep then (EmptyString, r, true)
      else let '(b, a, f) := Cut r sep in (String c b, a, f)
  end.

Definition HasPrefix (s p : string) : bool := String.prefix p s.

Fixpoint ContainsByte (s : string) (c : ascii) : bool :=
  match s with
  | EmptyString => false
  | String d r => Ascii.eqb d c || ContainsByte r c
  end.

(** [strings.Split s "/"]: the segments between separators (at least one). *)
Fixpoint Split (s : string) (sep : ascii) : list string :=
  match s with
  | EmptyString => [EmptyString]
  | String c r =>
      if Ascii.eqb c sep then EmptyString :: Split r sep
      else match Split r sep with
           | [] => [String c EmptyString]
           | h :: t => String c h :: t
           end
  end.

(** [s[:strings.LastIndex(s, sep)+1]]: [s] up to and including its last
    [sep], empty when there is none. *)
Fixpoint UpToLast (s : string) (sep : ascii) : string :=
  match s with
  | EmptyString => EmptyString
  | String c r =>
      if ContainsByte r sep then String c (UpToLast r sep)
      else if Ascii.eqb c sep then String c EmptyString
      else EmptyString
  end.

(** [s[:strings.LastIndexByte(s, sep)]]: [s] before its last [sep], [None]
    when there is none (index -1). *)
Fixpoint BeforeLast (s : string) (sep : ascii) : option string :=
  match s with
  | EmptyString => None
  | String c r =>
      match BeforeLast r sep with
      | Some p => Some (String c p)
      | None => if Ascii.eqb c sep then Some EmptyString else None
      end
  end.

Definition lower (c : ascii) : ascii :=
  let n := nat_of_ascii c in
  if ((65 <=? n)%nat && (n <=? 90)%nat)%bool then ascii_of_nat (n + 32) else c.

Fixpoint ToLower (s : string) : string :=
  match s with
  | EmptyString => EmptyString
  | String c r => String (lower c) (ToLower r)
  end.

Definition Join (l : list string) (sep : string) : string :=
  match l with
  | [] => EmptyString
  | h :: t => fold_left (fun acc x => acc +:+ sep +:+ x) t h
  end.

(** [s[:i]] and [s[i+1:]] for [i = strings.LastIndex(s, sep)], [None] when
    there is no [sep] (index -1). *)
Fixpoint CutLast (s : string) (sep : ascii) : option (string * string) :=
  match s with
  | EmptyString => None
  | String c r =>
      match CutLast r sep with
      | Some (b, a) => Some (String c b, a)
      | None => if Ascii.eqb c sep then Some (EmptyString, r) else None
      end
  end.

End strings.

(** ** Quoting *)

Definition lowerhex (n : nat) : ascii :=
  nth n (list_ascii_of_string "0123456789abcdef") "0"%char.

Definition upperhex (n : nat) : ascii :=
  nth n (list_ascii_of_string "0123456789ABCDEF") "0"%char.

(** One byte of the text as [strconv.Quote] writes it: a backslash before a
    double quote and before a backslash, the printable ASCII bytes as they
    are, the escapes [\a], [\b], [\f], [\n], [\r], [\t], [\v], and [\x]
    with two lower-case hexadecimal digits for the other control bytes and
    for DEL. *)
Definition quote_byte (c : ascii) : string :=
  let n := nat_of_ascii c in
  if ((n =? 34) || (n =? 92))%nat%bool then String "\" (String c EmptyString)
  else if ((32 <=? n) && (n <=? 126))%nat%bool then String c EmptyString
  else if (n =? 7)%nat then "\a"
  else if (n =? 8)%nat then "\b"
  else if (n =? 12)%nat then "\f"
  else if (n =? 10)%nat then "\n"
  else if (n =? 13)%nat then "\r"
  else if (n =? 9)%nat then "\t"
  else if (n =? 11)%nat then "\v"
  else if (n <? 128)%nat then
    String "\" (String "x" (String (lowerhex (n / 16)) (String (lowerhex (n mod 16)) EmptyString)))
  else String c EmptyString.

Fixpoint quote_bytes (s : string) : string :=
  match s with
  | EmptyString => EmptyString
  | String c r => quote_byte c +:+ quote_bytes r
  end.

(** [strconv.Quote], which the verb [%q] of [fmt] applies to a string and to
    the text of an error. Bytes from 0x80 on are copied: Go decodes them as
    UTF-8 and escapes the runes its Unicode tables do not list as printable
    and the bytes that are not valid UTF-8, which is not modelled, so
    [quote] is [strconv.Quote] on the texts that are [isASCII]. *)
Definition quote (s : string) : string :=
  String (ascii_of_nat 34) (quote_bytes s +:+ String (ascii_of_nat 34) EmptyString).

Fixpoint isASCII (s : string) : bool :=
  match s with
  | EmptyString => true
  | String c r => (nat_of_ascii c <? 128)%nat && isASCII r
  end.

(** ** URLs *)

(** The part of Go's [net/url] the crawler calls: [Parse], the methods
    [String] and [ResolveReference], and what they are built from, function
    by function as in the library (Go 1.22): the percent-encoding of each
    part ([shouldEscape], [unescape], [escape]), the authority with its user
    information, port and bracketed address ([parseAuthority],
    [parseHost]), the raw encodings kept beside the decoded path and
    fragment ([setPath], [EscapedPath], [setFragment], [EscapedFragment]),
    and the removal of dot segments ([resolvePath]). An error of [Parse] is
    the library's [url.Error], whose text names the operation and the
    quoted URL before the reason. *)
Module url.

(** [url.Userinfo]: the user name and, when set, the password. *)
Record Userinfo : Type := mkUserinfo {
  username : string;
  password : string;
  passwordSet : bool
}.

#[global] Instance Userinfo_eq_dec : EqDecision Userinfo.
Proof. solve_decision. Defined.

(** [url.URL], with the fields in the order of the library; [User] is
    [None] for a nil pointer. *)
Record URL : Type := makeURL {
  Scheme : string;
  Opaque : string;
  User : option Userinfo;
  Host : string;
  Path : string;
  RawPath : string;
  OmitHost : bool;
  ForceQuery : bool;
  RawQuery : string;
  Fragment : string;
  RawFragment : string
}.

#[global] Instance URL_eq_dec : EqDecision URL.
Proof. solve_decision. Defined.

(** A URL without user information whose path and fragment have the default
    encoding (no [RawPath], no [RawFragment]). *)
Definition mkURL (scheme opaque host path : string) (omitHost forceQuery : bool)
    (rawQuery fragment : string) : URL :=
  makeURL scheme opaque None host path "" omitHost forceQuery rawQuery fragment "".

Inductive encoding : Type :=
  | encodePath | encodePathSegment | encodeHost | encodeZone
  | encodeUserPassword | encodeQueryComponent | encodeFragment.

#[global] Instance encoding_eq_dec : EqDecision encoding.
Proof. solve_decision. Defined.

Definition is_alpha (c : ascii) : bool :=
  let n := nat_of_ascii c in
  (((97 <=? n) && (n <=? 122)) || ((65 <=? n) && (n <=? 90)))%nat%bool.

Definition is_digit (c : ascii) : bool :=
  let n := nat_of_ascii c in ((48 <=? n) && (n <=? 57))%nat%bool.

Definition is_scheme_extra (c : ascii) : bool :=
  let n := nat_of_ascii c in
  (is_digit c || (n =? 43) || (n =? 45) || (n =? 46))%nat%bool.

Definition ishex (c : ascii) : bool :=
  let n := nat_of_ascii c in
  (is_digit c || ((97 <=? n) && (n <=? 102)) || ((65 <=? n) && (n <=? 70)))%nat%bool.

Definition unhex (c : ascii) : nat :=
  let n := nat_of_ascii c in
  if is_digit c then n - 48
  else if ((97 <=? n) && (n <=? 102))%nat%bool then n - 97 + 10
  else if ((65 <=? n) && (n <=? 70))%nat%bool then n - 65 + 10
  else 0.

(** The byte [c] is one of the bytes of [set]. *)
Definition oneof (c : ascii) (set : string) : bool := strings.ContainsByte set c.

Definition doublequote : ascii := ascii_of_nat 34.

(** [shouldEscape]: whether the byte must be written as a percent escape in
    the part of the URL that [mode] names. *)
Definition shouldEscape (c : ascii) (mode : encoding) : bool :=
  if (is_alpha c || is_digit c)%bool then false
  else if (bool_decide (mode = encodeHost \/ mode = encodeZone)
           && (oneof c "!$&'()*+,;=:[]<>" || Ascii.eqb c doublequote))%bool then false
  else if oneof c "-_.~" then false
  else if oneof c "$&+,/:;=?@" then
    match mode with
    | encodePath => Ascii.eqb c "?"
    | encodePathSegment => oneof c "/;,?"
    | encodeUserPassword => oneof c "@/?:"
    | encodeQueryComponent => true
    | encodeFragment => false
    | encodeHost | encodeZone => true
    end
  else if (bool_decide (mode = encodeFragment) && oneof c "!()*")%bool then false
  else true.

(** [EscapeError] and [InvalidHostError], as their texts. *)
Definition EscapeError (s : string) : string := "invalid URL escape " +:+ quote s.

Definition InvalidHostError (s : string) : string :=
  "invalid character " +:+ quote s +:+ " in host name".

(** The first loop of [unescape]: the error of the first escape that is not
    well formed or not allowed in [mode], or of the first byte a host may
    not hold. *)
Fixpoint unescape_check (s : string) (mode : encoding) : option string :=
  match s with
  | EmptyString => None
  | String c r =>
      if Ascii.eqb c "%" then
        match r with
        | String a (String b r') =>
            let esc := String c (String a (String b EmptyString)) in
            if negb (ishex a && ishex b) then Some (EscapeError esc)
            else if (bool_decide (mode = encodeHost) && (unhex a <? 8)%nat
                     && negb (String.eqb esc "%25"))%bool then
              Some (EscapeError esc)
            else if (bool_decide (mode = encodeZone)
                     && negb (String.eqb esc "%25")
                     && negb (unhex a * 16 + unhex b =? 32)%nat
                     && shouldEscape (ascii_of_nat (unhex a * 16 + unhex b)) encodeHost)%bool
            then Some (EscapeError esc)
            else unescape_check r' mode
        | _ => Some (EscapeError s)
        end
      else if (bool_decide (mode = encodeHost \/ mode = encodeZone)
               && (nat_of_ascii c <? 128)%nat && shouldEscape c encodeHost)%bool then
        Some (InvalidHostError (String c EmptyString))
      else unescape_check r mode
  end.

(** The second loop of [unescape], on a text that passed the first. *)
Fixpoint unescape_bytes (s : string) (mode : encoding) : string :=
  match s with
  | EmptyString => EmptyString
  | String c r =>
      if Ascii.eqb c "%" then
        match r with
        | String a (String b r') =>
            String (ascii_of_nat (unhex a * 16 + unhex b)) (unescape_bytes r' mode)
        | _ => String c (unescape_bytes r mode)
        end
      else if (Ascii.eqb c "+" && bool_decide (mode = encodeQueryComponent))%bool then
        String " " (unescape_bytes r mode)
      else String c (unescape_bytes r mode)
  end.

Definition unescape (s : string) (mode : encoding) : string + string :=
  match unescape_check s mode with
  | Some err => inr err
  | None => inl (unescape_bytes s mode)
  end.

Fixpoint escape (s : string) (mode : encoding) : string :=
  match s with
  | EmptyString => EmptyString
  | String c r =>
      if shouldEscape c mode then
        if (Ascii.eqb c " " && bool_decide (mode = encodeQueryComponent))%bool then
          String "+" (escape r mode)
        else
          String "%" (String (upperhex (nat_of_ascii c / 16))
                        (String (upperhex (nat_of_ascii c mod 16)) (escape r mode)))
      else String c (escape r mode)
  end.

Fixpoint validEncoded (s : string) (mode : encoding) : bool :=
  match s with
  | EmptyString => true
  | String c r =>
      (oneof c "!$&'()*+,;=:@[]%" || negb (shouldEscape c mode)) && validEncoded r mode
  end.

(** [getScheme]: [Some (scheme, rest)], or [None] for the error of a
    missing protocol scheme (a [:] at index 0). [i] is the index of the
    byte looked at and [acc] the bytes before it, reversed. *)
Fixpoint getScheme_from (rawURL : string) (i : nat) (acc : list ascii) (s : string)
  : option (string * string) :=
  match s with
  | EmptyString => Some (EmptyString, rawURL)
  | String c r =>
      if is_alpha c then getScheme_from rawURL (S i) (c :: acc) r
      else if is_scheme_extra c then
        match i with
        | O => Some (EmptyString, rawURL)
        | _ => getScheme_from rawURL (S i) (c :: acc) r
        end
      else if Ascii.eqb c ":" then
        match i with
        | O => None
        | _ => Some (string_of_list_ascii (rev acc), r)
        end
      else Some (EmptyString, rawURL)
  end.

Definition getScheme (rawURL : string) : option (string * string) :=
  getScheme_from rawURL O [] rawURL.

Fixpoint stringContainsCTLByte (s : string) : bool :=
  match s with
  | EmptyString => false
  | String c r =>
      let n := nat_of_ascii c in
      ((n <? 32) || (n =? 127))%nat%bool || stringContainsCTLByte r
  end.

Fixpoint all_digits (s : string) : bool :=
  match s with
  | EmptyString => true
  | String c r => is_digit c && all_digits r
  end.

(** [validOptionalPort]: empty, or a colon and decimal digits. *)
Definition validOptionalPort (port : string) : bool :=
  match port with
  | EmptyString => true
  | String c r => Ascii.eqb c ":" && all_digits r
  end.

(** [validUserinfo]: only the bytes the user information may hold. *)
Fixpoint validUserinfo (s : string) : bool :=
  match s with
  | EmptyString => true
  | String c r =>
      (is_alpha c || is_digit c || oneof c "-._:~!$&'()*+,;=%@") && validUserinfo r
  end.

Definition invalidPort (colonPort : string) : string :=
  "invalid port " +:+ quote colonPort +:+ " after host".

(** [parseHost]: the host with its port, checked and decoded. A host that
    opens with a bracket is an IP literal, whose zone (after [%25]) has its
    own encoding. *)
Definition parseHost (host : string) : string + string :=
  if strings.HasPrefix host "[" then
    match strings.CutLast host "]" with
    | None => inr "missing ']' in host"
    | Some (literal, colonPort) =>
        if negb (validOptionalPort colonPort) then inr (invalidPort colonPort)
        else
          match String.index 0 "%25" literal with
          | Some zone =>
              match unescape (String.substring 0 zone literal) encodeHost with
              | inr err => inr err
              | inl host1 =>
                  match unescape (String.substring zone (String.length literal - zone)
                                                   literal) encodeZone with
                  | inr err => inr err
                  | inl host2 =>
                      match unescape (String "]" colonPort) encodeHost with
                      | inr err => inr err
                      | inl host3 => inl (host1 +:+ host2 +:+ host3)
                      end
                  end
              end
          | None => unescape host encodeHost
          end
    end
  else
    match strings.CutLast host ":" with
    | Some (_, port) =>
        if negb (validOptionalPort (String ":" port)) then
          inr (invalidPort (String ":" port))
        else unescape host encodeHost
    | None => unescape host encodeHost
    end.

(** [parseAuthority]: the user information before the last [@], if there
    is one, and the host after it. *)
Definition parseAuthority (authority : string) : (option Userinfo * string) + string :=
  match strings.CutLast authority "@" with
  | None =>
      match parseHost authority with
      | inr err => inr err
      | inl host => inl (None, host)
      end
  | Some (userinfo, hostport) =>
      match parseHost hostport with
      | inr err => inr err
      | inl host =>
          if negb (validUserinfo userinfo) then inr "net/url: invalid userinfo"
          else if negb (strings.ContainsByte userinfo ":") then
            match unescape userinfo encodeUserPassword with
            | inr err => inr err
            | inl name => inl (Some (mkUserinfo name "" false), host)
            end
          else
            let '(name, pass, _) := strings.Cut userinfo ":" in
            match unescape name encodeUserPassword with
            | inr err => inr err
            | inl name =>
                match unescape pass encodeUserPassword with
                | inr err => inr err
                | inl pass => inl (Some (mkUserinfo name pass true), host)
                end
            end
      end
  end.

(** The method [setPath]: [Path] is the decoded path, and [RawPath] the
    path as written when that is not the default encoding of [Path]. *)
Definition setPath (u : URL) (p : string) : URL + string :=
  match unescape p encodePath with
  | inr err => inr err
  | inl path =>
      inl (makeURL (Scheme u) (Opaque u) (User u) (Host u) path
                   (if String.eqb p (escape path encodePath) then "" else p)
                   (OmitHost u) (ForceQuery u) (RawQuery u) (Fragment u)
                   (RawFragment u))
  end.

(** The method [setFragment], likewise. *)
Definition setFragment (u : URL) (f : string) : URL + string :=
  match unescape f encodeFragment with
  | inr err => inr err
  | inl frag =>
      inl (makeURL (Scheme u) (Opaque u) (User u) (Host u) (Path u) (RawPath u)
                   (OmitHost u) (ForceQuery u) (RawQuery u) frag
                   (if String.eqb f (escape frag encodeFragment) then "" else f))
  end.

(** The method [EscapedPath]: [RawPath] when it is a valid encoding of
    [Path], the default encoding of [Path] otherwise. *)
Definition EscapedPath (u : URL) : string :=
  if (negb (String.eqb (RawPath u) "") && validEncoded (RawPath u) encodePath
      && bool_decide (unescape (RawPath u) encodePath = inl (Path u)))%bool
  then RawPath u
  else if String.eqb (Path u) "*" then "*"
  else escape (Path u) encodePath.

Definition EscapedFragment (u : URL) : string :=
  if (negb (String.eqb (RawFragment u) "")
      && validEncoded (RawFragment u) encodeFragment
      && bool_decide (unescape (RawFragment u) encodeFragment = inl (Fragment u)))%bool
  then RawFragment u
  else escape (Fragment u) encodeFragment.

(** The method [String] of [Userinfo]. *)
Definition Userinfo_String (ui : Userinfo) : string :=
  escape (username ui) encodeUserPassword
  +:+ (if passwordSet ui then ":" +:+ escape (password ui) encodeUserPassword else "").

(** The unexported [parse(rawURL, viaRequest=false)], on the text before
    the fragment; [inr] is the text of the error. *)
Definition parse (rawURL : string) : URL + string :=
  if stringContainsCTLByte rawURL then
    inr "net/url: invalid control character in URL"
  else if String.eqb rawURL "*" then
    inl (mkURL "" "" "" "*" false false "" "")
  else
    match getScheme rawURL with
    | None => inr "missing protocol scheme"
    | Some (scheme, rest) =>
        let scheme := strings.ToLower scheme in
        let '(rest, query, found) := strings.Cut rest "?" in
        let force := (found && String.eqb query "")%bool in
        if (negb (strings.HasPrefix rest "/") && negb (String.eqb scheme ""))%bool then
          inl (mkURL scheme rest "" "" false force query "")
        else if (negb (strings.HasPrefix rest "/")
                 && strings.ContainsByte (strings.Cut rest "/").1.1 ":")%bool then
          inr "first path segment in URL cannot contain colon"
        else if ((negb (String.eqb scheme "") || negb (strings.HasPrefix rest "///"))
                 && strings.HasPrefix rest "//")%bool then
          let authority := String.substring 2 (String.length rest - 2) rest in
          let '(authority, after, slash) := strings.Cut authority "/" in
          let rest := if slash then String "/" after else EmptyString in
          match parseAuthority authority with
          | inr err => inr err
          | inl (user, host) =>
              setPath (makeURL scheme "" user host "" "" false force query "" "") rest
          end
        else
          setPath (mkURL scheme "" "" ""
                         (negb (String.eqb scheme "") && strings.HasPrefix rest "/")
                         force query "") rest
    end.

(** The text of a [url.Error]: the operation, the quoted URL, the reason. *)
Definition Error (op URL err : string) : error :=
  ErrURLParse (op +:+ " " +:+ quote URL +:+ ": " +:+ err).

(** [url.Parse]: the fragment is cut off first and set afterwards. *)
Definition Parse (rawURL : string) : URL + error :=
  let '(u, frag, _) := strings.Cut rawURL "#" in
  match parse u with
  | inr err => inr (Error "parse" u err)
  | inl x =>
      if String.eqb frag "" then inl x
      else
        match setFragment x frag with
        | inr err => inr (Error "parse" rawURL err)
        | inl x => inl x
        end
  end.

(** The method [URL.String]. *)
Definition String (u : URL) : string :=
  let scheme := if String.eqb (Scheme u) "" then "" else Scheme u +:+ ":" in
  let body :=
    if negb (String.eqb (Opaque u) "") then Opaque u
    else
      let auth :=
        if (negb (String.eqb (Scheme u) "") || negb (String.eqb (Host u) "")
            || bool_decide (User u <> None))%bool then
          if (OmitHost u && String.eqb (Host u) "" && bool_decide (User u = None))%bool
          then ""
          else
            (if (negb (String.eqb (Host u) "") || negb (String.eqb (Path u) "")
                 || bool_decide (User u <> None))%bool
             then "//" else "")
            +:+ match User u with
                | Some ui => Userinfo_String ui +:+ "@"
                | None => ""
                end
            +:+ escape (Host u) encodeHost
        else "" in
      let path := EscapedPath u in
      let sep :=
        if (negb (String.eqb path "") && negb (strings.HasPrefix path "/")
            && negb (String.eqb (Host u) ""))%bool then "/" else "" in
      let dot :=
        if (String.eqb (scheme +:+ auth +:+ sep) ""
            && strings.ContainsByte (strings.Cut path "/").1.1 ":")%bool
        then "./" else "" in
      auth +:+ sep +:+ dot +:+ path in
  let query :=
    if (ForceQuery u || negb (String.eqb (RawQuery u) ""))%bool
    then "?" +:+ RawQuery u else "" in
  let frag :=
    if String.eqb (Fragment u) "" then "" else "#" +:+ EscapedFragment u in
  scheme +:+ body +:+ query +:+ frag.

(** The dot-segment loop of [resolvePath]: [str] is what was written to
    [dst] after its leading slash, [first] the loop's flag. *)
Fixpoint removeDots (segs : list string) (str : string) (first : bool) : string :=
  match segs with
  | [] => str
  | elem :: rest =>
      if String.eqb elem "." then removeDots rest str false
      else if String.eqb elem ".." then
        match strings.BeforeLast str "/" with
        | None => removeDots rest "" true
        | Some p => removeDots rest p first
        end
      else removeDots rest ((if first then str else str +:+ "/") +:+ elem) false
  end.

Definition resolvePath (base ref : string) : string :=
  let full :=
    if String.eqb ref "" then base
    else if negb (strings.HasPrefix ref "/") then strings.UpToLast base "/" +:+ ref
    else ref in
  if String.eqb full "" then ""
  else
    let segs := strings.Split full "/" in
    let last_elem := List.last segs "" in
    let r := "/" +:+ removeDots segs "" true +:+
             (if (String.eqb last_elem "." || String.eqb last_elem "..")%bool
              then "/" else "") in
    if strings.HasPrefix r "//" then String.substring 1 (String.length r - 1) r else r.

(** [setPath] where [ResolveReference] calls it: the error is ignored, and
    the path is then left as it was. *)
Definition withPath (u : URL) (p : string) : URL :=
  match setPath u p with
  | inl u' => u'
  | inr _ => u
  end.

(** The method [URL.ResolveReference]. *)
Definition ResolveReference (u ref : URL) : URL :=
  let scheme := if String.eqb (Scheme ref) "" then Scheme u else Scheme ref in
  let url := makeURL scheme (Opaque ref) (User ref) (Host ref) (Path ref) (RawPath ref)
                     (OmitHost ref) (ForceQuery ref) (RawQuery ref) (Fragment ref)
                     (RawFragment ref) in
  if (negb (String.eqb (Scheme ref) "") || negb (String.eqb (Host ref) "")
      || bool_decide (User ref <> None))%bool then
    withPath url (resolvePath (EscapedPath ref) "")
  else if negb (String.eqb (Opaque ref) "") then
    makeURL scheme (Opaque ref) None "" "" (RawPath ref) (OmitHost ref)
            (ForceQuery ref) (RawQuery ref) (Fragment ref) (RawFragment ref)
  else
    let inherit :=
      (String.eqb (Path ref) "" && negb (ForceQuery ref)
       && String.eqb (RawQuery ref) "")%bool in
    let query := if inherit then RawQuery u else RawQuery ref in
    let frag :=
      if (inherit && String.eqb (Fragment ref) "")%bool then Fragment u
      else Fragment ref in
    let rawfrag :=
      if (inherit && String.eqb (Fragment ref) "")%bool then RawFragment u
      else RawFragment ref in
    if (String.eqb (Path ref) "" && negb (String.eqb (Opaque u) ""))%bool then
      makeURL scheme (Opaque u) None "" "" (RawPath ref) (OmitHost ref) (ForceQuery ref)
              query frag rawfrag
    else
      withPath (makeURL scheme "" (User u) (Host u) (Path ref) (RawPath ref)
                        (OmitHost ref) (ForceQuery ref) query frag rawfrag)
               (resolvePath (EscapedPath u) (EscapedPath ref)).

End url.



(** ** The HTTP collaborators *)

(** [html.TokenType] of [golang.org/x/net/html]. *)
Inductive TokenType : Type :=
  | ErrorToken | TextToken | StartTagToken | EndTagToken
  | SelfClosingTagToken | CommentToken | DoctypeToken.

#[global] Instance TokenType_eq_dec : EqDecision TokenType.
Proof. solve_decision. Defined.

(** One token of a response body as the tokenizer delivers it: its type, its
    tag name ([TagName]) and its attributes in order ([TagAttr]). *)
Record Token : Type := mkToken {
  token_type : TokenType;
  token_name : string;
  token_attr : list (string * string)
}.

(** An [http.Response] as far as [LinkReader] looks at it. The body is the
    token stream the tokenizer will deliver, the error [Tokenizer.Err]
    reports once the stream is used up ([EOF] at a regular end), and what
    [Body.Close] returns; [Location] is [Header.Get("Location")], empty when
    the header is absent; [Request] is the URL of the request, when set. *)
Record Response : Type := mkResponse {
  StatusCode : Z;
  Location : string;
  Request : option url.URL;
  BodyTokens : list Token;
  BodyErr : error;
  BodyClose : option error
}.

(** An [http.Client]: what [Get] answers for a URL string. Redirects are not
    followed: every client a [Config] is built with has [CheckRedirect] set
    to [overrideRedirect], so [Get] returns the first response. *)
Record Client : Type := mkClient {
  Get : string -> Response + error
}.

(** The response once its body has been closed: the tokenizer, which reads
    the body as it goes, gets the error of [net/http] for a read on a closed
    body and delivers no token. *)
Definition ErrBodyReadAfterClose : error :=
  ErrTokenizer "http: read on closed response body".

Definition closed (r : Response) : Response :=
  mkResponse (StatusCode r) (Location r) (Request r) [] ErrBodyReadAfterClose
             (BodyClose r).

(** The method [Response.Location] of [net/http]: the [Location] header parsed
    relative to the request's URL; [ErrNoLocation] when it is absent. *)
Definition Response_Location (r : Response) : url.URL + error :=
  if String.eqb (Location r) "" then inr ErrNoLocation
  else
    match url.Parse (Location r) with
    | inr e => inr e
    | inl ref =>
        match Request r with
        | Some req => inl (url.ResolveReference req ref)
        | None => inl ref
        end
    end.

(** ** Logging *)

Inductive Level : Type := DebugLevel | WarnLevel | ErrorLevel.

#[global] Instance Level_eq_dec : EqDecision Level.
Proof. solve_decision. Defined.

(** One call to the [zap.Logger]: level, message and the string fields. *)
Record Entry : Type := mkEntry {
  entry_level : Level;
  entry_msg : string;
  entry_fields : list (string * string)
}.

#[global] Instance Entry_eq_dec : EqDecision Entry.
Proof. solve_decision. Defined.

(** The loggers the package builds: [zap.NewNop()] and
    [zap.NewProduction(zap.IncreaseLevel(zap.WarnLevel))]. *)
Inductive Logger : Type := NewNop | NewProduction.

(** ** Configuration *)

Definition Duration := Z.
Definition Second : Duration := 1000000000.
Definition Millisecond : Duration := 1000000.

Definition DomainValidator : Type := url.URL -> url.URL -> bool.

Definition DefaultMaxConcurrency : Z := 8.
Definition DefaultMaxPendingURLS : Z := 8192.
Definition DefaultCrawlTimeout : Duration := 0.
Definition DefaultTimeout : Duration := Second * 10.
Definition DefaultKeepAlive : Duration := Second * 30.

Record Config : Type := mkConfig {
  MaxConcurrency : Z;
  MaxPendingURLS : Z;
  CrawlTimeout : Duration;
  KeepAlive : Duration;
  Timeout : Duration;
  Client_ : option Client;
  Logger_ : option Logger;
  DomainValidator_ : option DomainValidator
}.

(** [ValidateHosts]: the default domain validation, comparing hosts only. *)
Definition ValidateHosts (root link : url.URL) : bool :=
  String.eqb (url.Host root) (url.Host link).

(** The options: each is the function its [apply] runs on the config. *)
Definition Option := Config -> Config.

Definition SetMaxConcurrency (maxConcurrency : Z) : Option := fun config =>
  mkConfig maxConcurrency (MaxPendingURLS config) (CrawlTimeout config)
           (KeepAlive config) (Timeout config) (Client_ config) (Logger_ config)
           (DomainValidator_ config).

Definition SetMaxPendingURLS (maxPendingURLS : Z) : Option := fun config =>
  mkConfig (MaxConcurrency config) maxPendingURLS (CrawlTimeout config)
           (KeepAlive config) (Timeout config) (Client_ config) (Logger_ config)
           (DomainValidator_ config).

Definition SetCrawlTimeout (crawlTimeout : Duration) : Option := fun config =>
  mkConfig (MaxConcurrency config) (MaxPendingURLS config) crawlTimeout
           (KeepAlive config) (Timeout config) (Client_ config) (Logger_ config)
           (DomainValidator_ config).

Definition SetKeepAlive (keepAlive : Duration) : Option := fun config =>
  mkConfig (MaxConcurrency config) (MaxPendingURLS config) (CrawlTimeout config)
           keepAlive (Timeout config) (Client_ config) (Logger_ config)
           (DomainValidator_ config).

Definition SetTimeout (timeout : Duration) : Option := fun config =>
  mkConfig (MaxConcurrency config) (MaxPendingURLS config) (CrawlTimeout config)
           (KeepAlive config) timeout (Client_ config) (Logger_ config)
           (DomainValidator_ config).

Definition SetClient (client : option Client) : Option := fun config =>
  mkConfig (MaxConcurrency config) (MaxPendingURLS config) (CrawlTimeout config)
           (KeepAlive config) (Timeout config) client (Logger_ config)
           (DomainValidator_ config).

Definition SetLogger (logger : option Logger) : Option := fun config =>
  mkConfig (MaxConcurrency config) (MaxPendingURLS config) (CrawlTimeout config)
           (KeepAlive config) (Timeout config) (Client_ config) logger
           (DomainValidator_ config).

Definition SetDomainValidator (validator : option DomainValidator) : Option :=
  fun config =>
  mkConfig (MaxConcurrency config) (MaxPendingURLS config) (CrawlTimeout config)
           (KeepAlive config) (Timeout config) (Client_ config) (Logger_ config)
           validator.

(** [NewConfig]: the defaults, then the options in order, then the
    collaborators that are still nil. [transport] stands for the network
    the default [http.Client] would talk to. *)
Definition NewConfig (transport : Client) (options : list Option) : Config :=
  let config :=
    fold_left (fun c (opt : Option) => opt c) options
      (mkConfig DefaultMaxConcurrency DefaultMaxPendingURLS DefaultCrawlTimeout
                DefaultKeepAlive DefaultTimeout None None None) in
  let config :=
    match Client_ config with
    | None => SetClient (Some transport) config
    | Some _ => config
    end in
  let config :=
    match Logger_ config with
    | None => SetLogger (Some NewProduction) config
    | Some _ => config
    end in
  match DomainValidator_ config with
  | None => SetDomainValidator (Some ValidateHosts) config
  | Some _ => config
  end.

(** [Validate]: [None] is Go's nil error. *)
Definition Validate (config : Config) : option error :=
  if MaxConcurrency config <=? 0 then
    Some (Errorf "config.MaxConcurrency must be greater than 0")
  else if MaxPendingURLS config <=? 0 then
    Some (Errorf "config.MaxPendingURLS must be greater than 0")
  else if KeepAlive config <? 0 then
    Some (Errorf "config.KeepAlive duration should be >= 0s")
  else if Timeout config <? 0 then
    Some (Errorf "config.Timeout duration should be >= 0s")
  else if negb (bool_decide (is_Some (Client_ config))) then
    Some (Errorf "config.Client must be defined")
  else if negb (bool_decide (is_Some (Logger_ config))) then
    Some (Errorf "config.Logger must be defined")
  else if negb (bool_decide (is_Some (DomainValidator_ config))) then
    Some (Errorf "config.DomainValidator must be defined")
  else None.

(** ** The site map *)

(** [SiteMap]: the root URL, the set of admitted URL strings and the domain
    validator. The [sync.RWMutex] is not data: it makes each locked region
    of [appendURL] and [WriteMap] one atomic access, which is how the
    regions appear below. *)
Record SiteMap : Type := mkSiteMap {
  url : url.URL;
  siteURLS : gmap string bool;
  validator : DomainValidator
}.

Definition NewSiteMap (root : url.URL) (validator : DomainValidator) : SiteMap :=
  mkSiteMap root ∅ validator.

(** Reading [siteURLS[urlString]]: a missing key reads as [false]. *)
Definition siteURLS_get (m : gmap string bool) (urlString : string) : bool :=
  default false (m !! urlString).

(** The region of [appendURL] under [RLock]: [maybeCrawl]. *)
Definition appendURL_rlocked (m : gmap string bool) (urlString : string) : bool :=
  negb (siteURLS_get m urlString).

(** The region of [appendURL] under [Lock]: [crawl] and the updated map. *)
Definition appendURL_locked (m : gmap string bool) (urlString : string)
  : bool * gmap string bool :=
  (negb (siteURLS_get m urlString), <[urlString := true]> m).

(** [appendURL] run without interference: the result and the site map
    afterwards. *)
Definition appendURL (s : SiteMap) (u : url.URL) : bool * SiteMap :=
  if negb (validator s (url s) u) then (false, s)
  else
    let urlString := url.String u in
    let maybeCrawl := appendURL_rlocked (siteURLS s) urlString in
    if negb maybeCrawl then (false, s)
    else
      let '(crawl, m) := appendURL_locked (siteURLS s) urlString in
      (crawl, mkSiteMap (url s) m (validator s)).

(** Go compares strings byte by byte; [sort.Strings] sorts by that order,
    which is [String.le]. *)
Definition sort_Strings (paths : list string) : list string :=
  merge_sort String.le paths.

Definition newline : string := String (ascii_of_nat 10) EmptyString.

(** The loop of [WriteMap] over the sorted paths, on what was written to
    [out] so far. *)
Fixpoint write_paths (paths : list string) (out : string) : string :=
  match paths with
  | [] => out
  | path :: rest => write_paths rest ((out +:+ path) +:+ newline)
  end.

(** [WriteMap] where the map's [range] visits the keys in the order [keys]
    (Go leaves that order unspecified). *)
Definition WriteMap_ranging (keys : list string) (out : string) : string :=
  let paths := fold_left (fun paths u => paths ++ [u]) keys [] in
  write_paths (sort_Strings paths) out.

(** [WriteMap]: the site map is only read; the result is what [out] holds
    afterwards. *)
Definition WriteMap (s : SiteMap) (out : string) : SiteMap * string :=
  (s, WriteMap_ranging (map_to_list (siteURLS s)).*1 out).

(** ** The link reader *)

(** The text of an error ([Error()]). *)
Definition error_text (e : error) : string :=
  match e with
  | EOF => "EOF"
  | Errorf msg => msg
  | ErrNoLocation => "http: no Location header in response"
  | ErrTransport msg => msg
  | ErrBodyClose msg => msg
  | ErrTokenizer msg => msg
  | ErrURLParse msg => msg
  end.

(** [LinkReader]. The fields [response] and [doc] are set together by the
    first [Read]; they are one field here: the response and the tokens the
    tokenizer [doc] has not delivered yet. *)
Record LinkReader : Type := mkLinkReader {
  client : Client;
  pageURL : url.URL;
  response : option (Response * list Token);
  done : bool
}.

Definition NewLinkReader (pageURL : url.URL) (client : Client) : LinkReader :=
  mkLinkReader client pageURL None false.

(** The inner loop of [Read] over the attributes of an [a] tag: the value of
    the first [href]. *)
Fixpoint find_href (attrs : list (string * string)) : option string :=
  match attrs with
  | [] => None
  | (key, val) :: more => if String.eqb key "href" then Some val else find_href more
  end.

(** The outer loop of [Read] over the tokens: the next [href] ([inl]) or the
    error token ([inr]), and the tokens left. An exhausted tokenizer keeps
    answering [ErrorToken]. *)
Fixpoint next_href (doc : list Token) : (string + unit) * list Token :=
  match doc with
  | [] => (inr (), [])
  | t :: rest =>
      match token_type t with
      | ErrorToken => (inr (), rest)
      | StartTagToken =>
          if (String.eqb (token_name t) "a"
              && negb (bool_decide (token_attr t = [])))%bool then
            match find_href (token_attr t) with
            | Some val => (inl val, rest)
            | None => next_href rest
            end
          else next_href rest
      | _ => next_href rest
      end
  end.

(** The second half of [Read], once [response] and [doc] are set. *)
Definition Read_tokens (u : LinkReader) (resp : Response) (doc : list Token)
  : (string * option error) * LinkReader :=
  match next_href doc with
  | (inl val, rest) =>
      ((val, None), mkLinkReader (client u) (pageURL u) (Some (resp, rest)) (done u))
  | (inr _, rest) =>
      let u' := mkLinkReader (client u) (pageURL u) (Some (resp, rest)) (done u) in
      match BodyClose resp with
      | Some closeErr => (("", Some closeErr), u')
      | None => (("", Some (BodyErr resp)), u')
      end
  end.

(** [Read]: the next href of the page and the error ([None] is nil), and the
    reader afterwards. In the redirect branch the body is closed before the
    tokenizer has read from it: when [Read] leaves that branch with an error,
    the reader, which is not marked done, holds the closed response
    ([closed]), so that a further [Read] gets the tokenizer's read error and
    no link. *)
Definition Read (u : LinkReader) : (string * option error) * LinkReader :=
  if done u then (("", Some EOF), u)
  else
    match response u with
    | None =>
        match Get (client u) (url.String (pageURL u)) with
        | inr respErr =>
            (("", Some (Errorf ("http get error: " +:+ quote (error_text respErr)))), u)
        | inl resp =>
            let u1 :=
              mkLinkReader (client u) (pageURL u) (Some (resp, BodyTokens resp)) (done u) in
            let u2 :=
              mkLinkReader (client u) (pageURL u) (Some (closed resp, [])) (done u) in
            if ((300 <=? StatusCode resp) && (StatusCode resp <=? 399))%bool then
              match BodyClose resp with
              | Some err => (("", Some err), u2)
              | None =>
                  match Response_Location resp with
                  | inr err => (("", Some err), u2)
                  | inl locationURL =>
                      ((url.String locationURL, None),
                       mkLinkReader (client u) (pageURL u)
                                    (Some (resp, BodyTokens resp)) true)
                  end
              end
            else Read_tokens u1 resp (BodyTokens resp)
        end
    | Some (resp, doc) => Read_tokens u resp doc
    end.

(** [Close]. *)
Definition Close (u : LinkReader) : option error * LinkReader :=
  let u' := mkLinkReader (client u) (pageURL u) (response u) true in
  match response u with
  | Some (resp, _) => (BodyClose resp, u')
  | None => (None, u')
  end.

(** The method [URL] of the reader. *)
Definition LinkReader_URL (u : LinkReader) : string := url.String (pageURL u).

(** ** The crawler *)

(** [DomainCrawler]. The channel [pendingURLS] is its buffer, oldest first,
    with its closed flag (its capacity is [MaxPendingURLS] of the config);
    [pendingURLSRemaining] is the counter of the wait group;
    [accessedPageCount] is an unsigned 64-bit counter. *)
Record DomainCrawler : Type := mkDomainCrawler {
  root : url.URL;
  config : Config;
  siteMap : SiteMap;
  pendingURLS : list url.URL;
  pendingURLS_closed : bool;
  pendingURLSRemaining : Z;
  accessedPageCount : Z;
  timedOut : bool
}.

(** [NewDomainCrawler]. After [Validate] the validator is not nil; the match
    on it repeats the answer [Validate] gives for a nil validator. *)
Definition NewDomainCrawler (root : url.URL) (config : Config)
  : DomainCrawler + error :=
  match Validate config with
  | Some configError => inr configError
  | None =>
      match DomainValidator_ config with
      | None => inr (Errorf "config.DomainValidator must be defined")
      | Some validator =>
          let siteMap := NewSiteMap root validator in
          let pendingURLS := [root] in
          let pendingURLSRemaining := 0 + 1 in
          inl (mkDomainCrawler root config siteMap pendingURLS false
                               pendingURLSRemaining 0 false)
      end
  end.

Definition set_siteURLS (c : DomainCrawler) (m : gmap string bool) : DomainCrawler :=
  mkDomainCrawler (root c) (config c)
    (mkSiteMap (url (siteMap c)) m (validator (siteMap c)))
    (pendingURLS c) (pendingURLS_closed c) (pendingURLSRemaining c)
    (accessedPageCount c) (timedOut c).

Definition set_pendingURLS (c : DomainCrawler) (q : list url.URL) : DomainCrawler :=
  mkDomainCrawler (root c) (config c) (siteMap c) q (pendingURLS_closed c)
    (pendingURLSRemaining c) (accessedPageCount c) (timedOut c).

Definition set_closed (c : DomainCrawler) : DomainCrawler :=
  mkDomainCrawler (root c) (config c) (siteMap c) (pendingURLS c) true
    (pendingURLSRemaining c) (accessedPageCount c) (timedOut c).

Definition set_remaining (c : DomainCrawler) (n : Z) : DomainCrawler :=
  mkDomainCrawler (root c) (config c) (siteMap c) (pendingURLS c)
    (pendingURLS_closed c) n (accessedPageCount c) (timedOut c).

Definition set_accessed (c : DomainCrawler) (n : Z) : DomainCrawler :=
  mkDomainCrawler (root c) (config c) (siteMap c) (pendingURLS c)
    (pendingURLS_closed c) (pendingURLSRemaining c) n (timedOut c).

Definition set_timedOut (c : DomainCrawler) : DomainCrawler :=
  mkDomainCrawler (root c) (config c) (siteMap c) (pendingURLS c)
    (pendingURLS_closed c) (pendingURLSRemaining c) (accessedPageCount c) true.

(** [atomic.Uint64.Add(1)]. *)
Definition uint64_incr (n : Z) : Z := (n + 1) mod 2 ^ 64.

(** Where a goroutine running [drainURLS] stands: each constructor names the
    access to shared state it is about to make, with its local variables.
    - [Receiving]: the receive of [for pageURL := range crawler.pendingURLS];
    - [Checking]: [crawler.timedOut.Load()];
    - [Reading]: [linkReader.Read()] at the top of the loop of
      [realAllLinks], followed by [accessedPageCount.Add(1)], the parse, the
      resolution and the validator call of [appendURL];
    - [RLocking], [Locking]: the two locked regions of [appendURL];
    - [Sending]: the [select] on the channel;
    - [Adding]: [pendingURLSRemaining.Add(1)];
    - [Closing]: [linkReader.Close()];
    - [Finishing]: [pendingURLSRemaining.Done()];
    - [Returned]: the range loop has ended. *)
Inductive Goroutine : Type :=
  | Receiving
  | Checking (pageURL : url.URL)
  | Reading (linkReader : LinkReader)
  | RLocking (linkReader : LinkReader) (hrefResolved : url.URL)
  | Locking (linkReader : LinkReader) (hrefResolved : url.URL)
  | Sending (linkReader : LinkReader) (hrefResolved : url.URL)
  | Adding (linkReader : LinkReader)
  | Closing (linkReader : LinkReader)
  | Finishing
  | Returned.

(** Where [Crawl] stands after starting the goroutines: in [Wait], before
    [close], before the load of the counter, or returned with its error
    ([None]: it returned the site map and a nil error). *)
Inductive Main : Type :=
  | Waiting
  | ClosingChannel
  | LoadingCount
  | Returning (err : option error).

(** The goroutine of the crawl timeout: not started, asleep, or done. *)
Inductive Timer : Type := NoTimer | Sleeping | Fired.

(** What a step did, for the history of a run. *)
Inductive Label : Type :=
  | LRecv (pageURL : url.URL)
  | LExit
  | LSkip (pageURL : url.URL)
  | LOpen (pageURL : url.URL)
  | LRead (page : url.URL) (get : bool) (href : string) (err : option error)
  | LRLock (u : url.URL) (maybeCrawl : bool)
  | LLock (u : url.URL) (crawl : bool)
  | LSend (u : url.URL)
  | LDrop (u : url.URL)
  | LAdd
  | LCloseReader
  | LDone
  | LWait
  | LClose
  | LReturn (err : option error)
  | LTimeout
  | LPanic (msg : string).

#[global] Instance Label_eq_dec : EqDecision Label.
Proof. solve_decision. Defined.

Definition Debug (msg : string) (fields : list (string * string)) : Entry :=
  mkEntry DebugLevel msg fields.
Definition Warn (msg : string) (fields : list (string * string)) : Entry :=
  mkEntry WarnLevel msg fields.
Definition Error (msg : string) (fields : list (string * string)) : Entry :=
  mkEntry ErrorLevel msg fields.

(** The result of one step of a goroutine: its label, the crawler, the
    entries logged, and where the goroutine stands, or the panic. *)
Record Outcome : Type := mkOutcome {
  out_label : Label;
  out_crawler : DomainCrawler;
  out_logged : list Entry;
  out_next : Goroutine;
  out_panic : option string
}.

Definition proceed (l : Label) (c : DomainCrawler) (es : list Entry) (g : Goroutine)
  : option Outcome := Some (mkOutcome l c es g None).

Definition panic (msg : string) (c : DomainCrawler) (g : Goroutine) : option Outcome :=
  Some (mkOutcome (LPanic msg) c [] g (Some msg)).

(** One step of a goroutine running [drainURLS]; [None] when it is blocked
    (a receive on the empty, open channel) or has returned. *)
Definition worker_step (c : DomainCrawler) (g : Goroutine) : option Outcome :=
  match g with
  | Receiving =>
      match pendingURLS c with
      | pageURL :: rest =>
          proceed (LRecv pageURL) (set_pendingURLS c rest)
            [Debug "crawling page for links" [("url", url.String pageURL)]]
            (Checking pageURL)
      | [] => if pendingURLS_closed c then proceed LExit c [] Returned else None
      end
  | Checking pageURL =>
      if timedOut c then
        proceed (LSkip pageURL) c
          [Debug "skipping url due to timeout" [("url", url.String pageURL)]]
          Finishing
      else
        match Client_ (config c) with
        | None => panic "invalid memory address or nil pointer dereference" c g
        | Some client =>
            proceed (LOpen pageURL) c [] (Reading (NewLinkReader pageURL client))
        end
  | Reading linkReader =>
      let get := negb (done linkReader)
                 && negb (bool_decide (is_Some (response linkReader))) in
      let '((hrefString, hrefErr), linkReader') := Read linkReader in
      let l := LRead (pageURL linkReader) get hrefString hrefErr in
      match hrefErr with
      | Some e =>
          proceed l c
            (if bool_decide (e = EOF) then []
             else [Warn "error reading link from channel"
                     [("page", LinkReader_URL linkReader'); ("error", error_text e)]])
            (Closing linkReader')
      | None =>
          let c := set_accessed c (uint64_incr (accessedPageCount c)) in
          match url.Parse hrefString with
          | inr hrefParseErr =>
              proceed l c
                [Warn "error parsing url"
                   [("page", LinkReader_URL linkReader'); ("link", hrefString);
                    ("error", error_text hrefParseErr)]]
                (Reading linkReader')
          | inl hrefURL =>
              let hrefResolved := url.ResolveReference (pageURL linkReader') hrefURL in
              if negb (validator (siteMap c) (url (siteMap c)) hrefResolved) then
                proceed l c [] (Reading linkReader')
              else proceed l c [] (RLocking linkReader' hrefResolved)
          end
      end
  | RLocking linkReader hrefResolved =>
      let maybeCrawl :=
        appendURL_rlocked (siteURLS (siteMap c)) (url.String hrefResolved) in
      proceed (LRLock hrefResolved maybeCrawl) c []
        (if maybeCrawl then Locking linkReader hrefResolved else Reading linkReader)
  | Locking linkReader hrefResolved =>
      let '(crawl, m) :=
        appendURL_locked (siteURLS (siteMap c)) (url.String hrefResolved) in
      if crawl then
        proceed (LLock hrefResolved crawl) (set_siteURLS c m)
          [Debug "found new page" [("page", url.String hrefResolved)]]
          (Sending linkReader hrefResolved)
      else proceed (LLock hrefResolved crawl) (set_siteURLS c m) [] (Reading linkReader)
  | Sending linkReader hrefResolved =>
      if pendingURLS_closed c then panic "send on closed channel" c g
      else if Z.of_nat (length (pendingURLS c)) <? MaxPendingURLS (config c) then
        proceed (LSend hrefResolved)
          (set_pendingURLS c (pendingURLS c ++ [hrefResolved]))
          [Debug "page appended to channel" [("page", url.String hrefResolved)]]
          (Adding linkReader)
      else
        proceed (LDrop hrefResolved) c
          [Error "too many pending urls, page will be ignored"
             [("page", url.String hrefResolved); ("link", LinkReader_URL linkReader)]]
          (Reading linkReader)
  | Adding linkReader =>
      proceed LAdd (set_remaining c (pendingURLSRemaining c + 1)) [] (Reading linkReader)
  | Closing linkReader =>
      let '(_, _) := Close linkReader in
      proceed LCloseReader c [] Finishing
  | Finishing =>
      let n := pendingURLSRemaining c - 1 in
      if n <? 0 then panic "sync: negative WaitGroup counter" (set_remaining c n) g
      else proceed LDone (set_remaining c n) [] Receiving
  | Returned => None
  end.

(** The state of one call of [Crawl]: the crawler, the log, and where each
    goroutine stands; [panicked] once a goroutine has panicked, which ends
    the program. *)
Record State : Type := mkState {
  crawler : DomainCrawler;
  logged : list Entry;
  main : Main;
  timer : Timer;
  workers : list Goroutine;
  panicked : option string
}.

(** One step of [Crawl] itself, after the [go] statements: [Wait] returns
    when the counter is zero, then [close], then the load of the counter
    and the return. [Wait] is one observation of the counter at zero. The
    checks of [sync.WaitGroup] against an [Add] that races with the release
    of a [Wait] (its panics for an [Add] called concurrently with [Wait]
    and for a reuse before the previous [Wait] has returned) are not
    modelled: where the counter leaves zero again before [Wait] has
    returned, the program may panic there, while here [Wait] goes on
    waiting. Every run in which the counter is zero when [Wait] takes its
    step and until it has returned is a run of the program. *)
Definition main_step (s : State) : option (Label * State) :=
  let c := crawler s in
  match main s with
  | Waiting =>
      if pendingURLSRemaining c =? 0 then
        Some (LWait, mkState c (logged s) ClosingChannel (timer s) (workers s) None)
      else None
  | ClosingChannel =>
      if pendingURLS_closed c then
        Some (LPanic "close of closed channel",
              mkState c (logged s) (main s) (timer s) (workers s)
                      (Some "close of closed channel"))
      else
        Some (LClose,
              mkState (set_closed c) (logged s) LoadingCount (timer s) (workers s) None)
  | LoadingCount =>
      let err :=
        if accessedPageCount c =? 0 then
          Some (Errorf ("unable to access url " +:+ url.String (root c)))
        else None in
      Some (LReturn err, mkState c (logged s) (Returning err) (timer s) (workers s) None)
  | Returning _ => None
  end.

(** The goroutines of a crawl. *)
Inductive Gid : Type := GMain | GTimer | GWorker (i : nat).

(** One step of the goroutine [g]; [None] when it cannot move. *)
Definition step (s : State) (g : Gid) : option (Label * State) :=
  match panicked s with
  | Some _ => None
  | None =>
      match g with
      | GMain => main_step s
      | GTimer =>
          match timer s with
          | Sleeping =>
              Some (LTimeout,
                    mkState (set_timedOut (crawler s)) (logged s) (main s) Fired
                            (workers s) None)
          | _ => None
          end
      | GWorker i =>
          match workers s !! i with
          | None => None
          | Some g =>
              match worker_step (crawler s) g with
              | None => None
              | Some o =>
                  Some (out_label o,
                        mkState (out_crawler o) (logged s ++ out_logged o) (main s)
                                (timer s) (<[i := out_next o]> (workers s))
                                (out_panic o))
              end
          end
      end
  end.

(** A run under the schedule [sch], from the state [s] with the history [h]
    (latest step first); [None] when the schedule names a goroutine that
    cannot move. *)
Fixpoint run (sch : list Gid) (h : list Label) (s : State)
  : option (list Label * State) :=
  match sch with
  | [] => Some (h, s)
  | g :: sch' =>
      match step s g with
      | None => None
      | Some (l, s') => run sch' (l :: h) s'
      end
  end.

(** [Crawl] up to its [Wait]: the goroutines are started. *)
Definition Crawl_start (crawler : DomainCrawler) : State :=
  let maxConcurrency := MaxConcurrency (config crawler) in
  let crawlTimeout := CrawlTimeout (config crawler) in
  mkState crawler []
    Waiting
    (if 0 <? crawlTimeout then Sleeping else NoTimer)
    (replicate (Z.to_nat maxConcurrency) Receiving)
    None.

(** [Crawl] under a schedule. *)
Definition Crawl (sch : list Gid) (crawler : DomainCrawler)
  : option (list Label * State) :=
  run sch [] (Crawl_start crawler).

(** What [Crawl] returned, once it has: the site map or the error. *)
Definition Crawl_result (s : State) : option (SiteMap + error) :=
  match main s with
  | Returning None => Some (inl (siteMap (crawler s)))
  | Returning (Some e) => Some (inr e)
  | _ => None
  end.

(** [CrawlDomainWithURL]: a configuration error, or the crawl. *)
Definition CrawlDomainWithURL (transport : Client) (sch : list Gid)
  (root : url.URL) (opts : list Option) : error + option (list Label * State) :=
  let config := NewConfig transport opts in
  match NewDomainCrawler root config with
  | inr crawlerError => inl crawlerError
  | inl crawler => inr (Crawl sch crawler)
  end.

(** [CrawlDomain]. *)
Definition CrawlDomain (transport : Client) (sch : list Gid)
  (rootURL : string) (opts : list Option) : error + option (list Label * State) :=
  match url.Parse rootURL with
  | inr rootErr => inl rootErr
  | inl root => CrawlDomainWithURL transport sch root opts
  end.

(** The requests a crawl has sent: the pages whose first [Read] ran. *)
Definition fetches (r : error + option (list Label * State)) : list url.URL :=
  match r with
  | inr (Some (h, _)) =>
      omap (fun l => match l with
                     | LRead page true _ _ => Some page
                     | _ => None
                     end) h
  | _ => []
  end.

(** ** Sites for the examples *)

(** An anchor with one [href], a page of anchors answered with status 200,
    and a redirect. *)
Definition anchor (href : string) : Token :=
  mkToken StartTagToken "a" [("href", href)].

Definition page_of (req : url.URL) (hrefs : list string) : Response :=
  mkResponse 200 "" (Some req) (anchor <$> hrefs) EOF None.

Definition redirect_to (req : url.URL) (code : Z) (location : string) : Response :=
  mkResponse code location (Some req) [] EOF None.

(** A site: for a URL string, the hrefs of its page ([inl]) or the status
    and [Location] of its redirect ([inr]). *)
Definition Site := list (string * (list string + Z * string)).

(** What the server answers for the entry of the URL string [k]: a response
    that carries the request, whose URL is [k] parsed. *)
Definition site_response (k : string) (v : list string + Z * string)
  : Response + error :=
  match url.Parse k, v with
  | inl req, inl hrefs => inl (page_of req hrefs)
  | inl req, inr (code, location) => inl (redirect_to req code location)
  | inr _, _ => inr (ErrTransport "connection refused")
  end.

Fixpoint site_serve (site : Site) (rawURL : string) : Response + error :=
  match site with
  | [] => inr (ErrTransport "connection refused")
  | (k, v) :: rest =>
      if String.eqb k rawURL then site_response k v else site_serve rest rawURL
  end.

(** The client of a server that serves [site] and refuses everything else. *)
Definition site_client (site : Site) : Client := mkClient (site_serve site).

(** The schedule of a crawl with one worker that runs [n] steps, after
    which [Crawl] takes its three steps. *)
Definition solo (n : nat) : list Gid :=
  replicate n (GWorker 0) ++ [GMain; GMain; GMain].

(** The text of a list of lines: each path followed by a newline. *)
Fixpoint lines (paths : list string) : string :=
  match paths with
  | [] => EmptyString
  | path :: rest => (path +:+ newline) +:+ lines rest
  end.

(** The site the examples crawl: the home page links to [/about], to
    [/secret] and to another host; [/about] links back to the home page and
    to itself with a query; [/secret] redirects to [/hidden]. *)
Definition example_site : Site :=
  [("http://example.com", inl ["/about"; "/secret"; "http://other.org/x"]);
   ("http://example.com/", inl ["/about"; "/secret"; "http://other.org/x"]);
   ("http://example.com/about", inl ["/"; "?t=0"]);
   ("http://example.com/about?t=0", inl ["/"; "?t=0"]);
   ("http://example.com/secret", inr (301, "/hidden"));
   ("http://example.com/hidden", inl [])].

Definition example_root : url.URL :=
  url.mkURL "http" "" "example.com" "" false false "" "".

(** ** Bookkeeping over runs *)

(** A goroutine is busy from its receive of a URL to its [Done] for it. *)
Definition busy (g : Goroutine) : Z :=
  match g with
  | Receiving | Returned => 0
  | _ => 1
  end.

(** A goroutine owes an [Add] after a send that the channel accepted. *)
Definition owes (g : Goroutine) : Z :=
  match g with
  | Adding _ => 1
  | _ => 0
  end.

Definition total (f : Goroutine -> Z) (ws : list Goroutine) : Z :=
  foldr (fun w n => f w + n) 0 ws.

(** How many steps of the history satisfy [p]. *)
Fixpoint occ (p : Label -> bool) (h : list Label) : Z :=
  match h with
  | [] => 0
  | l :: h' => (if p l then 1 else 0) + occ p h'
  end.

Definition is_recv (l : Label) : bool := match l with LRecv _ => true | _ => false end.
Definition is_send (l : Label) : bool := match l with LSend _ => true | _ => false end.
Definition is_add (l : Label) : bool := match l with LAdd => true | _ => false end.
Definition is_done (l : Label) : bool := match l with LDone => true | _ => false end.
Definition is_wait (l : Label) : bool := match l with LWait => true | _ => false end.
Definition is_close (l : Label) : bool := match l with LClose => true | _ => false end.
Definition is_link (l : Label) : bool :=
  match l with LRead _ _ _ None => true | _ => false end.

(** The value of the wait group's counter after the history [h]: one for
    the seed, one more per [Add], one less per [Done]. *)
Definition counter_after (h : list Label) : Z := 1 + occ is_add h - occ is_done h.

(** The accounting of outstanding work along a run. *)
Record accounting (h : list Label) (s : State) : Prop := mkAccounting {
  acc_counter :
    pendingURLSRemaining (crawler s) = counter_after h;
  acc_queue :
    pendingURLSRemaining (crawler s)
    = Z.of_nat (length (pendingURLS (crawler s)))
      + total busy (workers s) - total owes (workers s);
  acc_sends : occ is_send h = occ is_add h + total owes (workers s);
  acc_recvs : occ is_recv h = occ is_done h + total busy (workers s);
  acc_main :
    match main s with
    | Waiting =>
        occ is_wait h = 0 /\ occ is_close h = 0
        /\ pendingURLS_closed (crawler s) = false
    | ClosingChannel =>
        occ is_wait h = 1 /\ occ is_close h = 0
        /\ pendingURLS_closed (crawler s) = false
    | LoadingCount | Returning _ =>
        occ is_wait h = 1 /\ occ is_close h = 1
        /\ pendingURLS_closed (crawler s) = true
    end;
  acc_panic :
    panicked s <> Some "sync: negative WaitGroup counter"
    /\ panicked s <> Some "close of closed channel"
}.

(** [Wait] returned only when the counter was zero, and [close] came after
    it. *)
Definition waited_for_zero (h : list Label) : Prop :=
  (forall h2 h1, h = h2 ++ LWait :: h1 -> counter_after h1 = 0)
  /\ (forall h2 h1, h = h2 ++ LClose :: h1 -> LWait ∈ h1).

(** No goroutine holds a URL: each is at its receive or has returned. *)
Definition quiescent (s : State) : Prop :=
  Forall (fun g => g = Receiving \/ g = Returned) (workers s).

(** How many entries of the channel carry the URL string [k], and whether a
    goroutine is about to send one. *)
Definition queued (k : string) (q : list url.URL) : Z :=
  foldr (fun u n => (if bool_decide (url.String u = k) then 1 else 0) + n) 0 q.

Definition sending (k : string) (g : Goroutine) : Z :=
  match g with
  | Sending _ u => if bool_decide (url.String u = k) then 1 else 0
  | _ => 0
  end.

Definition pending (s : State) (k : string) : Z :=
  queued k (pendingURLS (crawler s)) + total (sending k) (workers s).

(** The steps that handle a URL with the string [k] on its way through the
    channel: its send, its drop, its receive. *)
Definition handles (k : string) (l : Label) : bool :=
  match l with
  | LSend u | LDrop u | LRecv u => bool_decide (url.String u = k)
  | _ => false
  end.

(** The steps at which [appendURL] returned true for the string [k]. *)
Definition admits (k : string) (l : Label) : bool :=
  match l with
  | LLock u true => bool_decide (url.String u = k)
  | _ => false
  end.

(** [u] is a link read from a page that was received from the channel: the
    page's [Read] returned [href] with a nil error, [href] parses, and [u]
    is its resolution against the page. *)
Definition linked_from (h : list Label) (u : url.URL) : Prop :=
  exists page get href ref,
    LRecv page ∈ h
    /\ LRead page get href None ∈ h
    /\ url.Parse href = inl ref
    /\ u = url.ResolveReference page ref.

(** Before the first receive: the channel holds the seed only, nothing is
    admitted and no goroutine holds a URL. *)
Definition seeded (s : State) : Prop :=
  pendingURLS (crawler s) = [root (crawler s)]
  /\ siteURLS (siteMap (crawler s)) = ∅
  /\ quiescent s.

(** The page a goroutine is working on, and the link it is handling. *)
Definition page_of_goroutine (g : Goroutine) : option url.URL :=
  match g with
  | Checking pageURL => Some pageURL
  | Reading r | RLocking r _ | Locking r _ | Sending r _ | Adding r | Closing r =>
      Some (pageURL r)
  | _ => None
  end.

Definition link_of_goroutine (g : Goroutine) : option url.URL :=
  match g with
  | RLocking _ u | Locking _ u | Sending _ u => Some u
  | _ => None
  end.

(** The frontier along a run, for the root [root0] and the validator [v]. *)
Record frontier (root0 : url.URL) (v : DomainValidator)
    (h : list Label) (s : State) : Prop := mkFrontier {
  fr_root : root (crawler s) = root0;
  fr_site : url (siteMap (crawler s)) = root0 /\ validator (siteMap (crawler s)) = v;
  fr_true : forall k b, siteURLS (siteMap (crawler s)) !! k = Some b -> b = true;
  fr_pending :
    seeded s
    \/ forall k, 0 <= pending s k <= 1
                 /\ (pending s k = 1 ->
                     siteURLS (siteMap (crawler s)) !! k = Some true);
  fr_admits :
    forall k, occ (admits k) h
              = if siteURLS_get (siteURLS (siteMap (crawler s))) k then 1 else 0;
  fr_dropped :
    forall u, LDrop u ∈ h ->
      siteURLS (siteMap (crawler s)) !! url.String u = Some true
      /\ pending s (url.String u) = 0;
  fr_after_drop :
    forall h2 l h1, h = h2 ++ l :: h1 ->
      forall u, LDrop u ∈ h1 -> handles (url.String u) l = false;
  fr_keys :
    forall k, is_Some (siteURLS (siteMap (crawler s)) !! k) ->
      exists u, url.String u = k /\ linked_from h u /\ v root0 u = true
                /\ LLock u true ∈ h;
  fr_pages :
    forall i g page, workers s !! i = Some g -> page_of_goroutine g = Some page ->
      LRecv page ∈ h;
  fr_links :
    forall i g u, workers s !! i = Some g -> link_of_goroutine g = Some u ->
      linked_from h u /\ v root0 u = true;
  fr_sending :
    forall i r u, workers s !! i = Some (Sending r u) -> LLock u true ∈ h
}.

(** The lines [WriteMap] writes for a site map. *)
Definition rendered (s : SiteMap) : list string :=
  sort_Strings (map_to_list (siteURLS s)).*1.

(** The value of [accessedPageCount] after the history [h]: the number of
    links read so far, modulo 2^64. *)
Definition accessed_after (h : list Label) : Z := occ is_link h mod 2 ^ 64.

(** The error [Crawl] returns when the counter it loads is [n]. *)
Definition Crawl_error (root0 : url.URL) (n : Z) : option error :=
  if n =? 0 then Some (Errorf ("unable to access url " +:+ url.String root0))
  else None.

(** What [Crawl] reports, along a run. *)
Record reporting (root0 : url.URL) (h : list Label) (s : State) : Prop :=
  mkReporting {
  rp_root : root (crawler s) = root0;
  rp_count : accessedPageCount (crawler s) = accessed_after h;
  rp_return :
    forall err, main s = Returning err ->
      exists h2 h1, h = h2 ++ LReturn err :: h1
                    /\ err = Crawl_error root0 (accessed_after h1)
}.

(** The labels of the steps of [Crawl] itself and of the timer. *)
Definition main_label (l : Label) : bool :=
  match l with
  | LWait | LClose | LReturn _ | LTimeout | LPanic _ => true
  | _ => false
  end.

(** ** One page, one worker *)

(** [realAllLinks] run by the only worker of a crawl, from the state where
    it is about to read the first link to the state where the loop has
    ended and the reader is to be closed. Each round is one step of the
    worker; [None] when [fuel] rounds do not reach the end of the loop or
    the worker cannot move. *)
Fixpoint realAllLinks (fuel : nat) (h : list Label) (s : State)
  : option (list Label * State) :=
  match workers s with
  | [Closing _] => Some (h, s)
  | _ =>
      match fuel with
      | O => None
      | S fuel' =>
          match step s (GWorker 0) with
          | None => None
          | Some (l, s') => realAllLinks fuel' (l :: h) s'
          end
      end
  end.

(** The hrefs a reader yields before its first error. *)
Inductive reads : LinkReader -> list string -> Prop :=
  | reads_end (r r' : LinkReader) (e : error) :
      Read r = (("", Some e), r') -> reads r []
  | reads_next (r r' : LinkReader) (href : string) (hrefs : list string) :
      Read r = ((href, None), r') -> reads r' hrefs -> reads r (href :: hrefs).

(** [href], read from [page], resolves to [u]. *)
Definition resolves_to (page : url.URL) (href : string) (u : url.URL) : Prop :=
  exists ref, url.Parse href = inl ref /\ u = url.ResolveReference page ref.

(** [u] is admissible in the state [s]: in the domain and not admitted. *)
Definition admissible (s : State) (u : url.URL) : Prop :=
  validator (siteMap (crawler s)) (url (siteMap (crawler s))) u = true
  /\ siteURLS_get (siteURLS (siteMap (crawler s))) (url.String u) = false.

(** The worker of a crawl with concurrency 1 is about to read the page of
    [r], which offers the admissible links [us], all different, while the
    channel is open and holds no more than its capacity [cap]. *)
Record offering (s : State) (r : LinkReader) (us : list url.URL) (cap : nat)
  : Prop := mkOffering {
  of_worker : workers s = [Reading r];
  of_running : panicked s = None;
  of_open : pendingURLS_closed (crawler s) = false;
  of_cap : MaxPendingURLS (config (crawler s)) = Z.of_nat cap;
  of_room : (length (pendingURLS (crawler s)) <= cap)%nat;
  of_links : exists hrefs, reads r hrefs /\ Forall2 (resolves_to (pageURL r)) hrefs us;
  of_admissible : Forall (admissible s) us;
  of_distinct : NoDup (url.String <$> us)
}.

(** The entry logged when the channel refuses [u], found on [page]. *)
Definition dropped_entry (page : string) (u : url.URL) : Entry :=
  Error "too many pending urls, page will be ignored"
    [("page", url.String u); ("link", page)].

Definition is_error_entry (e : Entry) : bool :=
  bool_decide (entry_level e = ErrorLevel).

(** The backpressure property as the specification states it: whatever the
    channel holds when the page is read, a page offering [cap + k] links
    has [cap] of them sent and [k] of them dropped and logged. *)
Definition backpressure_as_stated : Prop :=
  forall (s : State) (h : list Label) (r : LinkReader) (us : list url.URL)
         (cap k : nat),
    offering s r us cap -> length us = (cap + k)%nat -> (0 < k)%nat ->
    exists fuel h' s',
      realAllLinks fuel h s = Some (h', s')
      /\ occ is_send h' - occ is_send h = Z.of_nat cap
      /\ length (filter is_error_entry (logged s'))
         = (length (filter is_error_entry (logged s)) + k)%nat.

(** ** Concurrent callers of [appendURL] *)

(** Where a caller of [appendURL] stands: before the read-locked region
    (the validator runs first), before the locked region, or returned. *)
Inductive Caller : Type :=
  | Calling (u : url.URL)
  | Rechecking (u : url.URL)
  | Answered (u : url.URL) (crawl : bool).

(** One step of a caller on the shared site map. *)
Definition caller_step (s : SiteMap) (c : Caller) : option (SiteMap * Caller) :=
  match c with
  | Calling u =>
      if negb (validator s (url s) u) then Some (s, Answered u false)
      else
        let urlString := url.String u in
        let maybeCrawl := appendURL_rlocked (siteURLS s) urlString in
        if negb maybeCrawl then Some (s, Answered u false)
        else Some (s, Rechecking u)
  | Rechecking u =>
      let '(crawl, m) := appendURL_locked (siteURLS s) (url.String u) in
      Some (mkSiteMap (url s) m (validator s), Answered u crawl)
  | Answered _ _ => None
  end.

(** The callers take steps in the order [sch] names them. *)
Fixpoint callers_run (sch : list nat) (s : SiteMap) (cs : list Caller)
  : option (SiteMap * list Caller) :=
  match sch with
  | [] => Some (s, cs)
  | i :: sch' =>
      match cs !! i with
      | None => None
      | Some c =>
          match caller_step s c with
          | None => None
          | Some (s', c') => callers_run sch' s' (<[i := c']> cs)
          end
      end
  end.

Definition answered (c : Caller) : bool :=
  match c with Answered _ _ => true | _ => false end.

Definition candidate (c : Caller) : url.URL :=
  match c with Calling u | Rechecking u | Answered u _ => u end.

(** How many callers were answered true for the URL string [k]. *)
Definition answered_true (k : string) (c : Caller) : Z :=
  match c with
  | Answered u true => if bool_decide (url.String u = k) then 1 else 0
  | _ => 0
  end.

Definition trues (k : string) (cs : list Caller) : Z :=
  foldr (fun c n => answered_true k c + n) 0 cs.

(** Some candidate with the URL string [k] is in the domain. *)
Definition in_domain_candidate (s : SiteMap) (k : string) (us : list url.URL) : bool :=
  existsb (fun u => bool_decide (url.String u = k) && validator s (url s) u) us.

(** What holds of the callers of [us] that started on the site map [s0],
    when the site map is [s] and they stand at [cs]. *)
Record callers_inv (s0 : SiteMap) (us : list url.URL) (s : SiteMap)
    (cs : list Caller) : Prop := mkCallersInv {
  ci_static : url s = url s0 /\ validator s = validator s0;
  ci_candidates : candidate <$> cs = us;
  ci_trues :
    forall k, trues k cs
              = (if siteURLS_get (siteURLS s) k then 1 else 0)
                - (if siteURLS_get (siteURLS s0) k then 1 else 0);
  ci_admitted :
    forall k, siteURLS_get (siteURLS s) k = true ->
      siteURLS_get (siteURLS s0) k = true \/ in_domain_candidate s0 k us = true;
  ci_callers :
    forall c, c ∈ cs ->
      match c with
      | Calling _ => True
      | Rechecking u => validator s0 (url s0) u = true
      | Answered u crawl =>
          if validator s0 (url s0) u
          then siteURLS_get (siteURLS s) (url.String u) = true
          else crawl = false
      end
}.

(** Every send and every drop of a URL comes after [appendURL] returned
    true for it. *)
Definition attempts_admitted (h : list Label) : Prop :=
  forall h2 l h1, h = h2 ++ l :: h1 ->
    forall u, l = LDrop u \/ l = LSend u -> LLock u true ∈ h1.

(** ** Crawls for the examples *)

(** The crawler [NewDomainCrawler] builds for [example_root] served by
    [site], under the default validator. *)
Definition example_crawler (site : Site) (opts : list Option) : DomainCrawler :=
  mkDomainCrawler example_root (NewConfig (site_client site) opts)
    (NewSiteMap example_root ValidateHosts) [example_root] false 1 0 false.

(** The history and the state a schedule leads to. *)
Definition history_after (sch : list Gid) (dc : DomainCrawler) : list Label :=
  match Crawl sch dc with
  | Some (h, _) => h
  | None => []
  end.

Definition state_after (sch : list Gid) (dc : DomainCrawler) : State :=
  match Crawl sch dc with
  | Some (_, s) => s
  | None => Crawl_start dc
  end.

(** A home page with two links, the first to a page with three. *)
Definition backlog_site : Site :=
  [("http://example.com", inl ["/a"; "/b"]);
   ("http://example.com/a", inl ["/x"; "/y"; "/z"]);
   ("http://example.com/b", inl []);
   ("http://example.com/x", inl []);
   ("http://example.com/y", inl []);
   ("http://example.com/z", inl [])].

(** A home page that links to [/about] only, which links nowhere. *)
Definition no_backlink_site : Site :=
  [("http://example.com", inl ["/about"]);
   ("http://example.com/about", inl [])].

(** A home page without links. *)
Definition bare_site : Site := [("http://example.com", inl [])].

(** A home page with two links, the first to a page without links. *)
Definition leaf_first_site : Site :=
  [("http://example.com", inl ["/leaf"; "/about"]);
   ("http://example.com/leaf", inl []);
   ("http://example.com/about", inl [])].

(** The schedule is one the crawl can follow to its end. *)
Definition runs (sch : list Gid) (dc : DomainCrawler) : bool :=
  match Crawl sch dc with
  | Some _ => true
  | None => false
  end.

Definition about : url.URL :=
  url.mkURL "http" "" "example.com" "/about" false false "" "".

Definition elsewhere : url.URL :=
  url.mkURL "https" "" "other.org" "/x" false false "" "".

(** Two workers on the site without a link back: the first reads the home
    page and sends [/about], the second receives it and finds no link. *)
Definition two_workers : DomainCrawler :=
  example_crawler no_backlink_site [SetMaxConcurrency 2].

Definition interleaved : list Gid :=
  replicate 7 (GWorker 0) ++ replicate 3 (GWorker 1) ++ replicate 3 (GWorker 0)
  ++ replicate 2 (GWorker 1) ++ [GMain; GMain; GMain; GWorker 0; GWorker 1].

(** One worker and a channel of two on the site with a backlog. *)
Definition narrow : DomainCrawler :=
  example_crawler backlog_site [SetMaxConcurrency 1; SetMaxPendingURLS 2].

Definition through_a : list Gid := replicate 31 (GWorker 0).

Definition page_y : url.URL :=
  url.mkURL "http" "" "example.com" "/y" false false "" "".

(** Two workers on the site whose first link is a leaf: the second worker
    finishes the leaf between the first worker's send of [/leaf] and its
    [Add]. *)
Definition racing : DomainCrawler :=
  example_crawler leaf_first_site [SetMaxConcurrency 2].

Definition leaf_overtakes : list Gid :=
  replicate 6 (GWorker 0) ++ replicate 5 (GWorker 1) ++ [GMain; GMain; GMain]
  ++ replicate 5 (GWorker 0).

(** ** Configuration, the reader and the site map on their own *)

(** The configuration after the loop of [NewConfig] over the options, before
    the nil collaborators are replaced. *)
Definition applied (options : list Option) : Config :=
  fold_left (fun c (opt : Option) => opt c) options
    (mkConfig DefaultMaxConcurrency DefaultMaxPendingURLS DefaultCrawlTimeout
              DefaultKeepAlive DefaultTimeout None None None).

(** A reader whose next [Read] sends the request: not done, no response. *)
Definition unfetched (u : LinkReader) : bool :=
  negb (done u) && negb (bool_decide (is_Some (response u))).

(** The reader [u] with another client. *)
Definition with_client (u : LinkReader) (c : Client) : LinkReader :=
  mkLinkReader c (pageURL u) (response u) (done u).

(** The link a token stands for: the value of the first [href] attribute of
    a start tag named [a]. *)
Definition href_of (t : Token) : option string :=
  match token_type t with
  | StartTagToken =>
      if String.eqb (token_name t) "a" then find_href (token_attr t) else None
  | _ => None
  end.

(** A page read to its first error, as the loop of [realAllLinks] reads it:
    the hrefs, the error that ends the loop and the reader then; [None]
    when [fuel] calls of [Read] do not reach an error. *)
Fixpoint ReadAll (fuel : nat) (u : LinkReader)
  : option (list string * error * LinkReader) :=
  match fuel with
  | O => None
  | S fuel' =>
      match Read u with
      | ((_, Some err), u') => Some ([], err, u')
      | ((href, None), u') =>
          match ReadAll fuel' u' with
          | Some (hrefs, err, u'') => Some (href :: hrefs, err, u'')
          | None => None
          end
      end
  end.

(** What ends the reading of a body: the error of [Body.Close] if it fails,
    the tokenizer's error otherwise. *)
Definition end_error (resp : Response) : error :=
  match BodyClose resp with
  | Some closeErr => closeErr
  | None => BodyErr resp
  end.
(** ** More bookkeeping over runs *)

Definition is_timeout (l : Label) : bool := match l with LTimeout => true | _ => false end.
Definition is_skip (l : Label) : bool := match l with LSkip _ => true | _ => false end.
Definition is_open (l : Label) : bool := match l with LOpen _ => true | _ => false end.
Definition is_closeReader (l : Label) : bool :=
  match l with LCloseReader => true | _ => false end.

Definition is_returned (g : Goroutine) : bool :=
  match g with Returned => true | _ => false end.

(** The crawl is over: [Crawl] has returned and every goroutine has left
    the loop of [drainURLS]. *)
Definition finished (s : State) : bool :=
  match main s with
  | Returning _ => forallb is_returned (workers s)
  | _ => false
  end.

(** A goroutine holds a reader from [NewLinkReader] to [Close], and is about
    to call [Done] once it has closed the reader or skipped the URL. *)
Definition holding (g : Goroutine) : Z :=
  match g with
  | Reading _ | RLocking _ _ | Locking _ _ | Sending _ _ | Adding _ | Closing _ => 1
  | _ => 0
  end.

Definition finishing (g : Goroutine) : Z :=
  match g with Finishing => 1 | _ => 0 end.

(** What stays as [NewDomainCrawler] and [Crawl] set it up: the
    configuration and the number of goroutines. *)
Record standing (config0 : Config) (s : State) : Prop := mkStanding {
  st_config : config (crawler s) = config0;
  st_valid : Validate config0 = None;
  st_workers : length (workers s) = Z.to_nat (MaxConcurrency config0);
  st_returned :
    forall i, workers s !! i = Some Returned -> pendingURLS_closed (crawler s) = true;
  st_room : Z.of_nat (length (pendingURLS (crawler s))) <= MaxPendingURLS config0
}.
(** The crawl timeout along a run of a crawl whose configuration has the
    crawl timeout [crawlTimeout]. *)
Record timing (crawlTimeout : Duration) (h : list Label) (s : State) : Prop :=
  mkTiming {
  tm_timer :
    match timer s with
    | NoTimer =>
        crawlTimeout <= 0 /\ timedOut (crawler s) = false
        /\ occ is_timeout h = 0 /\ occ is_skip h = 0
    | Sleeping =>
        0 < crawlTimeout /\ timedOut (crawler s) = false
        /\ occ is_timeout h = 0 /\ occ is_skip h = 0
    | Fired =>
        0 < crawlTimeout /\ timedOut (crawler s) = true /\ occ is_timeout h = 1
    end;
  tm_open :
    forall h2 h1, h = h2 ++ LTimeout :: h1 -> forall l, l ∈ h2 -> is_open l = false;
  tm_skip :
    forall h2 p h1, h = h2 ++ LSkip p :: h1 -> LTimeout ∈ h1
}.

(** The readers along a run: those opened are closed or still held, and a
    [Done] follows a close or a skip. *)
Record readers (h : list Label) (s : State) : Prop := mkReaders {
  rd_open : occ is_open h = occ is_closeReader h + total holding (workers s);
  rd_done :
    occ is_closeReader h + occ is_skip h
    = occ is_done h + total finishing (workers s);
  rd_recv :
    occ is_recv h
    = occ is_open h + occ is_skip h
      + total (fun g => match g with Checking _ => 1 | _ => 0 end) (workers s)
}.
(** The steps that concern the URL string [k]: the receive of a URL with
    that string, its skip, the opening of its reader, the request for it
    (the first [Read] of an unfetched reader) and the drop of a link to it. *)
Definition receives (k : string) (l : Label) : bool :=
  match l with LRecv u => bool_decide (url.String u = k) | _ => false end.

Definition skips (k : string) (l : Label) : bool :=
  match l with LSkip u => bool_decide (url.String u = k) | _ => false end.

Definition opens (k : string) (l : Label) : bool :=
  match l with LOpen u => bool_decide (url.String u = k) | _ => false end.

Definition requests (k : string) (l : Label) : bool :=
  match l with
  | LRead page true _ _ => bool_decide (url.String page = k)
  | _ => false
  end.

Definition drops (k : string) (l : Label) : bool :=
  match l with LDrop u => bool_decide (url.String u = k) | _ => false end.

(** The goroutines about to check the timeout for a URL with the string
    [k], and those about to send the request for it. *)
Definition checking (k : string) (g : Goroutine) : Z :=
  match g with
  | Checking u => if bool_decide (url.String u = k) then 1 else 0
  | _ => 0
  end.

Definition unread (k : string) (g : Goroutine) : Z :=
  match g with
  | Reading r =>
      if unfetched r && bool_decide (url.String (pageURL r) = k) then 1 else 0
  | _ => 0
  end.

(** The reader of a goroutine that is handling a link it has read. *)
Definition reader_of (g : Goroutine) : option LinkReader :=
  match g with
  | RLocking r _ | Locking r _ | Sending r _ | Adding r => Some r
  | _ => None
  end.

(** The visits of the URL string [k] along a run of a crawl of [root0]. *)
Record visiting (root0 : url.URL) (k : string) (h : list Label) (s : State)
  : Prop := mkVisiting {
  vs_recv :
    occ (receives k) h + pending s k + occ (drops k) h
    = (if bool_decide (url.String root0 = k) then 1 else 0) + occ (admits k) h;
  vs_open :
    occ (receives k) h
    = occ (skips k) h + occ (opens k) h + total (checking k) (workers s);
  vs_request :
    occ (opens k) h = occ (requests k) h + total (unread k) (workers s);
  vs_read :
    forall i g r, workers s !! i = Some g -> reader_of g = Some r ->
      unfetched r = false
}.
(** [u] is the resolution of a link that some [Read] returned. *)
Definition read_link (h : list Label) (u : url.URL) : Prop :=
  exists page get href ref,
    LRead page get href None ∈ h
    /\ url.Parse href = inl ref
    /\ u = url.ResolveReference page ref.

(** A goroutine is inside [appendURL] for [u], past the validator. *)
Definition admitting (u : url.URL) (g : Goroutine) : Prop :=
  exists r, g = RLocking r u \/ g = Locking r u.

(** The link [u] is in the site map, or a goroutine is about to put it
    there. *)
Definition settled (s : State) (u : url.URL) : Prop :=
  siteURLS_get (siteURLS (siteMap (crawler s))) (url.String u) = true
  \/ exists i g, workers s !! i = Some g /\ admitting u g.
(** A crawl with one goroutine: it has not panicked; while the goroutine
    owes an [Add] the channel holds the URL it sent; and once [Wait] has
    returned the goroutine holds no URL and the channel is empty. *)
Record alone (s : State) : Prop := mkAlone {
  al_worker :
    exists w, workers s = [w]
      /\ (owes w = 1 -> pendingURLS (crawler s) <> [])
      /\ (main s <> Waiting ->
          (w = Receiving \/ w = Returned) /\ pendingURLS (crawler s) = []);
  al_panic : panicked s = None
}.

(** A second [Crawl] on a crawler whose channel is closed. *)
Record reused (h : list Label) (s : State) : Prop := mkReused {
  ru_closed : pendingURLS_closed (crawler s) = true;
  ru_main : main s = Waiting \/ main s = ClosingChannel;
  ru_close : occ is_close h = 0
}.
Definition is_drop (l : Label) : bool := match l with LDrop _ => true | _ => false end.

(** The log of a run: the entries at error level are those of the drops. *)
Record reported (h : list Label) (s : State) : Prop := mkReported {
  rp_errors :
    Z.of_nat (length (filter is_error_entry (logged s))) = occ is_drop h;
  rp_entry :
    forall e, e ∈ logged s -> is_error_entry e = true ->
      exists u page, LDrop u ∈ h /\ e = dropped_entry page u;
  rp_drop :
    forall u, LDrop u ∈ h -> exists page, dropped_entry page u ∈ logged s
}.

(** A crawl of [root0] with the client [cl] that has not read any link: the
    channel holds nothing but the root, and the goroutines hold nothing but
    the root, with a reader that has no response. *)
Record rootless (root0 : url.URL) (cl : Client) (h : list Label) (s : State)
  : Prop := mkRootless {
  rl_root : root (crawler s) = root0;
  rl_client : Client_ (config (crawler s)) = Some cl;
  rl_count : accessedPageCount (crawler s) = 0;
  rl_map : siteURLS (siteMap (crawler s)) = ∅;
  rl_queue : Forall (fun u => u = root0) (pendingURLS (crawler s));
  rl_workers :
    forall i g, workers s !! i = Some g ->
      match g with
      | Receiving | Finishing | Returned => True
      | Checking u => u = root0
      | Reading r | Closing r => r = NewLinkReader root0 cl
      | _ => False
      end;
  rl_return :
    forall err, main s = Returning err ->
      err = Some (Errorf ("unable to access url " +:+ url.String root0));
  rl_links : occ is_link h = 0
}.
(** ** More crawls for the examples *)

(** The first three steps of the crawl of two goroutines. *)
Definition early : list Gid := replicate 3 (GWorker 0).

(** One goroutine and a crawl timeout of a second; the timer fires before
    the goroutine checks it, so the root is skipped. *)
Definition timed : DomainCrawler :=
  example_crawler no_backlink_site [SetMaxConcurrency 1; SetCrawlTimeout Second].

Definition late : list Gid :=
  [GTimer; GWorker 0; GWorker 0; GWorker 0; GMain; GMain; GMain].

(** One goroutine on the home page without links, to the end: the crawl
    returns and the goroutine leaves its loop. *)
Definition bare : DomainCrawler := example_crawler bare_site [SetMaxConcurrency 1].

Definition to_the_end : list Gid := solo 5 ++ [GWorker 0].

(** A server that refuses every request. *)
Definition down : DomainCrawler := example_crawler [] [SetMaxConcurrency 1].

(** A home page that links to itself by its own URL. *)
Definition self_site : Site := [("http://example.com", inl ["http://example.com"])].

Definition selfish : DomainCrawler := example_crawler self_site [SetMaxConcurrency 1].

(** A home page that links to [/p]; [/p] links to [/q], a page without
    links, and to [/r]. *)
Definition chain_site : Site :=
  [("http://example.com", inl ["/p"]);
   ("http://example.com/p", inl ["/q"; "/r"]);
   ("http://example.com/q", inl []);
   ("http://example.com/r", inl [])].

(** Three workers on that site. The first reads the home page and sends
    [/p]; the second receives [/p] and sends [/q]; the third receives [/q]
    and is done with it, all before the first two have called [Add] for
    what they sent. [Crawl] then takes its three steps, and the second
    worker goes on with [/p]. *)
Definition three_workers : DomainCrawler :=
  example_crawler chain_site [SetMaxConcurrency 3].

Definition uncounted_send : list Gid :=
  replicate 6 (GWorker 0) ++ replicate 6 (GWorker 1) ++ replicate 5 (GWorker 2)
  ++ [GMain; GMain; GMain] ++ replicate 5 (GWorker 1).

(** A home page that links to [/a] and back to itself. *)
Definition loop_site : Site :=
  [("http://example.com", inl ["/a"; "http://example.com"]);
   ("http://example.com/a", inl [])].

(** One worker and a channel of one on that site: the worker reads the home
    page, sends [/a], and finds the channel full for the link back. *)
Definition looping : DomainCrawler :=
  example_crawler loop_site [SetMaxConcurrency 1; SetMaxPendingURLS 1].

Definition back_to_root : list Gid := replicate 11 (GWorker 0).

(** C9 as the specification states it: a URL whose push the full backlog
    refused is in the rendered output and is never crawled, that is, no
    page with its URL string is ever read. *)
Definition dropped_never_crawled_as_stated : Prop :=
  forall (root0 : url.URL) (config0 : Config) (dc : DomainCrawler)
         (sch : list Gid) (h : list Label) (s : State) (u : url.URL),
    NewDomainCrawler root0 config0 = inl dc ->
    Crawl sch dc = Some (h, s) ->
    LDrop u ∈ h ->
    url.String u ∈ rendered (siteMap (crawler s))
    /\ forall page get href err,
         LRead page get href err ∈ h -> url.String page <> url.String u.

(** Every [Read] is of a page that was received from the channel. *)
Definition reads_received (h : list Label) : Prop :=
  forall page get href err, LRead page get href err ∈ h -> LRecv page ∈ h.

(** A URL string parsed and written back, when it parses. *)
Definition written_back (rawURL : string) : option string :=
  match url.Parse rawURL with
  | inl u => Some (url.String u)
  | inr _ => None
  end.

(** * Properties *)

(** ** Rendering the site map *)

Section WriteMap_facts.

Lemma string_app_cons (x : ascii) (a b : string) :
  String x a +:+ b = String x (a +:+ b).
Proof. reflexivity. Qed.

Lemma string_app_assoc (a b c : string) : (a +:+ b) +:+ c = a +:+ (b +:+ c).
Proof.
  induction a as [|x a IH]; [done|]. by rewrite !string_app_cons, IH.
Qed.

Lemma string_app_nil_r (a : string) : a +:+ "" = a.
Proof. induction a as [|x a IH]; [done|]. by rewrite string_app_cons, IH. Qed.

Lemma write_paths_lines (paths : list string) (out : string) :
  write_paths paths out = out +:+ lines paths.
Proof.
  revert out. induction paths as [|p paths IH]; intros out; simpl.
  - by rewrite string_app_nil_r.
  - by rewrite IH, !string_app_assoc.
Qed.

Lemma range_append (keys acc : list string) :
  fold_left (fun paths u => paths ++ [u]) keys acc = acc ++ keys.
Proof.
  revert acc. induction keys as [|k keys IH]; intros acc; simpl.
  - by rewrite app_nil_r.
  - by rewrite IH, <- app_assoc.
Qed.

Lemma WriteMap_ranging_eq (keys : list string) (out : string) :
  WriteMap_ranging keys out = out +:+ lines (sort_Strings keys).
Proof. unfold WriteMap_ranging. by rewrite range_append, write_paths_lines. Qed.

Lemma sort_Strings_sorted (paths : list string) :
  StronglySorted String.le (sort_Strings paths).
Proof. apply StronglySorted_merge_sort; apply _. Qed.

Lemma sort_Strings_perm (paths : list string) : sort_Strings paths ≡ₚ paths.
Proof. apply merge_sort_Permutation. Qed.

(** Sorting does not depend on the order the keys are visited in. *)
Lemma sort_Strings_order (keys keys' : list string) :
  keys ≡ₚ keys' -> sort_Strings keys = sort_Strings keys'.
Proof.
  intros Hp. apply (Sorted_unique String.le).
  - apply Sorted_merge_sort; apply _.
  - apply Sorted_merge_sort; apply _.
  - by rewrite !sort_Strings_perm.
Qed.

Lemma lines_trailing_newline (paths : list string) :
  paths <> [] -> exists pre, lines paths = pre +:+ newline.
Proof.
  induction paths as [|p [|q paths] IH]; intros Hne; [done| |].
  - exists p. simpl. by rewrite string_app_nil_r.
  - destruct IH as [pre Hpre]; [done|].
    exists ((p +:+ newline) +:+ pre).
    change (lines (p :: q :: paths)) with ((p +:+ newline) +:+ lines (q :: paths)).
    by rewrite Hpre, !string_app_assoc.
Qed.

(** C8. [WriteMap] appends to [out] the admitted URL strings, that is the
    keys of [siteURLS], each exactly once, in increasing byte order, each
    followed by a newline (so a non-empty rendering ends in a newline),
    whatever order the map is ranged over, and returns the site map as it
    was. *)
Theorem WriteMap_sorted_lines (s : SiteMap) (out : string) :
  exists paths : list string,
    WriteMap s out = (s, out +:+ lines paths)
    /\ StronglySorted String.le paths
    /\ NoDup paths
    /\ (forall u, u ∈ paths <-> is_Some (siteURLS s !! u))
    /\ (forall keys, keys ≡ₚ (map_to_list (siteURLS s)).*1 ->
          WriteMap_ranging keys out = out +:+ lines paths)
    /\ (paths <> [] -> exists pre, lines paths = pre +:+ newline).
Proof.
  exists (sort_Strings (map_to_list (siteURLS s)).*1).
  split; [|split; [|split; [|split; [|split]]]].
  - unfold WriteMap. by rewrite WriteMap_ranging_eq.
  - apply sort_Strings_sorted.
  - rewrite sort_Strings_perm. apply NoDup_fst_map_to_list.
  - intros u. rewrite sort_Strings_perm, list_elem_of_fmap. split.
    + intros [[k b] [-> Hin]]. apply elem_of_map_to_list in Hin. by exists b.
    + intros [b Hb]. exists (u, b). split; [done|]. by apply elem_of_map_to_list.
  - intros keys Hp. rewrite WriteMap_ranging_eq.
    by rewrite (sort_Strings_order _ _ Hp).
  - apply lines_trailing_newline.
Qed.

End WriteMap_facts.

(** ** Configuration *)

Section Validate_facts.

Lemma Validate_MaxConcurrency (config : Config) :
  MaxConcurrency config <= 0 ->
  Validate config = Some (Errorf "config.MaxConcurrency must be greater than 0").
Proof. intros H. unfold Validate. by rewrite (proj2 (Z.leb_le _ _) H). Qed.

Lemma Validate_MaxPendingURLS (config : Config) :
  0 < MaxConcurrency config -> MaxPendingURLS config <= 0 ->
  Validate config = Some (Errorf "config.MaxPendingURLS must be greater than 0").
Proof.
  intros H1 H2. unfold Validate.
  rewrite (proj2 (Z.leb_gt _ _) H1). by rewrite (proj2 (Z.leb_le _ _) H2).
Qed.

(** What a configuration that passes [Validate] satisfies. The crawl
    timeout is not among the checks. *)
Lemma Validate_None (config : Config) :
  Validate config = None <->
  0 < MaxConcurrency config /\ 0 < MaxPendingURLS config
  /\ 0 <= KeepAlive config /\ 0 <= Timeout config
  /\ is_Some (Client_ config) /\ is_Some (Logger_ config)
  /\ is_Some (DomainValidator_ config).
Proof.
  unfold Validate.
  destruct (Z.leb_spec (MaxConcurrency config) 0);
    [split; [done|intros (?&_); lia]|].
  destruct (Z.leb_spec (MaxPendingURLS config) 0);
    [split; [done|intros (_&?&_); lia]|].
  destruct (Z.ltb_spec (KeepAlive config) 0);
    [split; [done|intros (_&_&?&_); lia]|].
  destruct (Z.ltb_spec (Timeout config) 0);
    [split; [done|intros (_&_&_&?&_); lia]|].
  destruct (Client_ config), (Logger_ config), (DomainValidator_ config);
    simpl; (split;
      [intros Hv; try discriminate Hv; repeat split; try lia; by eexists
      |intros (_&_&_&_&[? ?]&[? ?]&[? ?]); by simplify_eq]).
Qed.

Lemma NewDomainCrawler_invalid (root : url.URL) (config : Config) (e : error) :
  Validate config = Some e -> NewDomainCrawler root config = inr e.
Proof. intros H. unfold NewDomainCrawler. by rewrite H. Qed.

(** C7, as the code has it. A configuration whose concurrency or backlog
    capacity is not positive makes [CrawlDomainWithURL] return the
    configuration error of [Validate], under every schedule, with no
    crawler built and no request sent. *)
Theorem invalid_config_fails_fast (transport : Client) (sch : list Gid)
    (root : url.URL) (opts : list Option) :
  MaxConcurrency (NewConfig transport opts) <= 0
  \/ MaxPendingURLS (NewConfig transport opts) <= 0 ->
  exists configError,
    Validate (NewConfig transport opts) = Some configError
    /\ (configError = Errorf "config.MaxConcurrency must be greater than 0"
        \/ configError = Errorf "config.MaxPendingURLS must be greater than 0")
    /\ NewDomainCrawler root (NewConfig transport opts) = inr configError
    /\ CrawlDomainWithURL transport sch root opts = inl configError
    /\ fetches (CrawlDomainWithURL transport sch root opts) = [].
Proof.
  intros H.
  assert (exists e, Validate (NewConfig transport opts) = Some e
    /\ (e = Errorf "config.MaxConcurrency must be greater than 0"
        \/ e = Errorf "config.MaxPendingURLS must be greater than 0"))
    as (e & He & Hmsg).
  { destruct (Z.leb_spec (MaxConcurrency (NewConfig transport opts)) 0).
    - eexists. split; [by apply Validate_MaxConcurrency|]. by left.
    - destruct H as [H|H]; [lia|].
      eexists. split; [by apply Validate_MaxPendingURLS|]. by right. }
  exists e. split; [done|]. split; [done|].
  unfold CrawlDomainWithURL.
  by rewrite (NewDomainCrawler_invalid _ _ _ He).
Qed.

Lemma invalid_config_fails_fast_witness :
  exists configError,
    Validate (NewConfig (site_client example_site) [SetMaxConcurrency 0])
    = Some configError
    /\ (configError = Errorf "config.MaxConcurrency must be greater than 0"
        \/ configError = Errorf "config.MaxPendingURLS must be greater than 0")
    /\ NewDomainCrawler example_root
         (NewConfig (site_client example_site) [SetMaxConcurrency 0])
       = inr configError
    /\ CrawlDomainWithURL (site_client example_site) (solo 3) example_root
         [SetMaxConcurrency 0] = inl configError
    /\ fetches (CrawlDomainWithURL (site_client example_site) (solo 3)
                  example_root [SetMaxConcurrency 0]) = [].
Proof.
  apply (invalid_config_fails_fast (site_client example_site) (solo 3)
           example_root [SetMaxConcurrency 0]).
  left. vm_compute. discriminate.
Defined.

(** C7, as stated, fails for the deadline: a crawl timeout of -1ns passes
    [Validate], the crawl runs without a timer, sends its requests and
    returns the site map. *)
Lemma negative_CrawlTimeout_accepted :
  let opts := [SetCrawlTimeout (-1); SetMaxConcurrency 1] in
  let config := NewConfig (site_client example_site) opts in
  CrawlTimeout config < 0
  /\ Validate config = None
  /\ exists h s,
       CrawlDomainWithURL (site_client example_site) (solo 65) example_root opts
       = inr (Some (h, s))
       /\ timer s = NoTimer
       /\ fetches (inr (Some (h, s))) <> []
       /\ Crawl_result s = Some (inl (siteMap (crawler s))).
Proof.
  split; [done|]. split; [done|].
  eexists _, _. split; [vm_compute; reflexivity|]. done.
Qed.

End Validate_facts.

(** ** Admission, one caller at a time *)

Section appendURL_facts.

Lemma siteURLS_get_insert (m : gmap string bool) (k k' : string) :
  siteURLS_get (<[k := true]> m) k' = (bool_decide (k = k') || siteURLS_get m k').
Proof.
  unfold siteURLS_get. case_bool_decide as H; simpl.
  - subst. by rewrite lookup_insert_eq.
  - by rewrite lookup_insert_ne.
Qed.

(** What [appendURL] returns and what it leaves behind. *)
Lemma appendURL_spec (s : SiteMap) (u : url.URL) :
  appendURL s u =
    (validator s (url s) u && negb (siteURLS_get (siteURLS s) (url.String u)),
     if validator s (url s) u && negb (siteURLS_get (siteURLS s) (url.String u))
     then mkSiteMap (url s) (<[url.String u := true]> (siteURLS s)) (validator s)
     else s).
Proof.
  unfold appendURL, appendURL_rlocked, appendURL_locked.
  destruct (validator s (url s) u); simpl; [|done].
  by destruct (siteURLS_get (siteURLS s) (url.String u)).
Qed.

(** C6. Under the default policy [ValidateHosts], a candidate whose host
    is not the root's host is refused by [appendURL], whatever its scheme,
    path or query, and the site map is left as it was. *)
Theorem appendURL_foreign_host (s : SiteMap) (u : url.URL) :
  validator s = ValidateHosts ->
  url.Host u <> url.Host (url s) ->
  appendURL s u = (false, s).
Proof.
  intros Hv Hne. rewrite appendURL_spec, Hv. unfold ValidateHosts.
  destruct (String.eqb_spec (url.Host (url s)) (url.Host u)); [congruence|done].
Qed.

Lemma appendURL_foreign_host_witness :
  appendURL (NewSiteMap example_root ValidateHosts)
            (url.mkURL "https" "" "other.org" "/x" false false "q=1" "")
  = (false, NewSiteMap example_root ValidateHosts).
Proof.
  apply (appendURL_foreign_host (NewSiteMap example_root ValidateHosts)
           (url.mkURL "https" "" "other.org" "/x" false false "q=1" "")).
  - reflexivity.
  - simpl. discriminate.
Defined.

End appendURL_facts.

(** ** The link reader on a redirect *)

Section Read_facts.

Lemma Response_Location_resolved (resp : Response) (req ref : url.URL) :
  Location resp <> "" ->
  url.Parse (Location resp) = inl ref ->
  Request resp = Some req ->
  Response_Location resp = inl (url.ResolveReference req ref).
Proof.
  intros Hne Hp Hr. unfold Response_Location.
  destruct (String.eqb_spec (Location resp) ""); [done|]. by rewrite Hp, Hr.
Qed.

(** C5, as the code has it. On the first [Read], when [Get] answers with a
    status from 300 to 399, closing the body succeeds and the [Location]
    header is present and parses, [Read] returns the header resolved
    against the URL of the request, as a string, and a nil error; the
    tokens of the body are left untouched; the reader is marked done, so
    the next [Read] returns [EOF]. *)
Theorem Read_redirect (u : LinkReader) (resp : Response) (req ref : url.URL) :
  done u = false ->
  response u = None ->
  Get (client u) (url.String (pageURL u)) = inl resp ->
  300 <= StatusCode resp <= 399 ->
  BodyClose resp = None ->
  Location resp <> "" ->
  url.Parse (Location resp) = inl ref ->
  Request resp = Some req ->
  exists u',
    Read u = ((url.String (url.ResolveReference req ref), None), u')
    /\ done u' = true
    /\ response u' = Some (resp, BodyTokens resp)
    /\ Read u' = (("", Some EOF), u').
Proof.
  intros Hd Hr Hg [Hlo Hhi] Hc Hne Hp Hq.
  eexists. unfold Read at 1. rewrite Hd, Hr, Hg.
  rewrite (proj2 (Z.leb_le _ _) Hlo), (proj2 (Z.leb_le _ _) Hhi). simpl.
  rewrite Hc, (Response_Location_resolved resp req ref) by done.
  repeat split.
Qed.

Lemma Read_redirect_witness :
  exists u',
    Read (NewLinkReader (url.mkURL "http" "" "example.com" "/secret" false false "" "")
            (site_client example_site))
    = ((url.String
          (url.ResolveReference
             (url.mkURL "http" "" "example.com" "/secret" false false "" "")
             (url.mkURL "" "" "" "/hidden" false false "" "")), None), u')
    /\ done u' = true
    /\ response u'
       = Some (redirect_to
                 (url.mkURL "http" "" "example.com" "/secret" false false "" "")
                 301 "/hidden",
               BodyTokens
                 (redirect_to
                    (url.mkURL "http" "" "example.com" "/secret" false false "" "")
                    301 "/hidden"))
    /\ Read u' = (("", Some EOF), u').
Proof.
  apply (Read_redirect
           (NewLinkReader
              (url.mkURL "http" "" "example.com" "/secret" false false "" "")
              (site_client example_site))
           (redirect_to
              (url.mkURL "http" "" "example.com" "/secret" false false "" "")
              301 "/hidden")
           (url.mkURL "http" "" "example.com" "/secret" false false "" "")
           (url.mkURL "" "" "" "/hidden" false false "" "")).
  - reflexivity.
  - reflexivity.
  - vm_compute. reflexivity.
  - simpl. lia.
  - reflexivity.
  - simpl. discriminate.
  - vm_compute. reflexivity.
  - reflexivity.
Defined.

(** C5, as stated, fails: for the redirect of [/secret] to [/hidden] the
    value [Read] yields is not the [Location] header [/hidden] but the
    absolute URL it resolves to. *)
Lemma Read_redirect_not_the_header :
  let page := url.mkURL "http" "" "example.com" "/secret" false false "" "" in
  let u := NewLinkReader page (site_client example_site) in
  exists resp,
    Get (client u) (url.String (pageURL u)) = inl resp
    /\ StatusCode resp = 301
    /\ Location resp = "/hidden"
    /\ (Read u).1 = ("http://example.com/hidden", None)
    /\ (Read u).1.1 <> Location resp.
Proof.
  eexists. split; [vm_compute; reflexivity|]. simpl.
  split; [done|]. split; [done|]. split; [by vm_compute|].
  vm_compute. discriminate.
Qed.

End Read_facts.

(** ** Runs and their invariants *)

Section run_facts.

Lemma run_invariant (P : list Label -> State -> Prop) :
  (forall h s g l s', P h s -> step s g = Some (l, s') -> P (l :: h) s') ->
  forall sch h s h' s', P h s -> run sch h s = Some (h', s') -> P h' s'.
Proof.
  intros Hstep sch. induction sch as [|g sch IH]; intros h s h' s' HP Hrun; simpl in Hrun.
  - by simplify_eq.
  - destruct (step s g) as [[l s1]|] eqn:Hs; [|done]. eauto.
Qed.

Lemma total_insert (f : Goroutine -> Z) (ws : list Goroutine) (i : nat) (w w' : Goroutine) :
  ws !! i = Some w -> total f (<[i := w']> ws) = total f ws - f w + f w'.
Proof.
  revert i. induction ws as [|x ws IH]; intros [|i] H; simplify_eq/=; [lia|].
  rewrite (IH i) by done. lia.
Qed.

Lemma total_replicate (f : Goroutine -> Z) (n : nat) (w : Goroutine) :
  f w = 0 -> total f (replicate n w) = 0.
Proof. intros H. induction n as [|n IH]; simpl; lia. Qed.

Lemma total_owes_busy (ws : list Goroutine) : 0 <= total owes ws <= total busy ws.
Proof. induction ws as [|[] ws IH]; simpl; lia. Qed.

Lemma total_lookup_le (ws : list Goroutine) (i : nat) (w : Goroutine) :
  ws !! i = Some w -> busy w - owes w <= total busy ws - total owes ws.
Proof.
  revert i. induction ws as [|x ws IH]; intros [|i] H; simplify_eq/=.
  - pose proof (total_owes_busy ws). lia.
  - specialize (IH i H). destruct x; simpl; lia.
Qed.

Lemma total_quiescent (ws : list Goroutine) :
  Forall (fun g => g = Receiving \/ g = Returned) ws ->
  total busy ws = 0 /\ total owes ws = 0.
Proof. induction 1 as [|g ws [-> | ->] _ IH]; simpl; lia. Qed.

End run_facts.

(** Case analysis on the step a hypothesis describes: one goal per branch
    of [step], [main_step] and [worker_step] that can produce it. *)
Ltac case_in H :=
  match type of H with
  | context [match ?x with _ => _ end] => destruct x eqn:?
  end.

Ltac step_inv H :=
  unfold step in H;
  match type of H with
  | match panicked ?s with _ => _ end = _ =>
      destruct (panicked s) eqn:?; [discriminate H|];
      match type of H with
      | match ?g with _ => _ end = _ => destruct g
      end
  end;
  [ unfold main_step in H; repeat case_in H; try discriminate H; simplify_eq/=
  | repeat case_in H; try discriminate H; simplify_eq/=
  | match type of H with
    | match ?x with _ => _ end = _ => destruct x eqn:?; [|discriminate H]
    end;
    match type of H with
    | match ?x with _ => _ end = _ =>
        let Hw := fresh "Hw" in
        destruct x eqn:Hw; [|discriminate H];
        unfold worker_step, proceed, panic in Hw;
        repeat case_in Hw; try discriminate Hw; simplify_eq/=
    end ].

Ltac bool_to_prop :=
  repeat match goal with
    | H : (_ <? _) = true |- _ => apply Z.ltb_lt in H
    | H : (_ <? _) = false |- _ => apply Z.ltb_ge in H
    | H : (_ <=? _) = true |- _ => apply Z.leb_le in H
    | H : (_ <=? _) = false |- _ => apply Z.leb_gt in H
    | H : (_ =? _) = true |- _ => apply Z.eqb_eq in H
    | H : (_ =? _) = false |- _ => apply Z.eqb_neq in H
    end.

Ltac use_lookup :=
  match goal with
  | H : ?ws !! ?i = Some ?w |- _ =>
      pose proof (total_lookup_le ws i w H);
      rewrite ?(total_insert busy ws i w _ H), ?(total_insert owes ws i w _ H)
  | _ => idtac
  end.

Ltac rewrite_queue :=
  repeat match goal with
    | H : pendingURLS _ = _ |- _ => rewrite H in *
    | H : pendingURLS_closed _ = _ |- _ => rewrite H in *
    end.

Lemma accounting_step h s g l s' :
  accounting h s -> step s g = Some (l, s') -> accounting (l :: h) s'.
Proof.
  intros [H1 H2 H3 H4 H5 [H6 H7]] Hs. destruct s as [c lg m t ws p]. simpl in *.
  step_inv Hs; bool_to_prop; unfold counter_after in *; simpl in *;
    destruct_and?; rewrite_queue;
    try (exfalso; use_lookup; simpl in *; first [lia | congruence]);
    (constructor; unfold counter_after; simpl; use_lookup; rewrite_queue; simpl in *;
     rewrite ?length_app; simpl; repeat split; first [lia | done | congruence]).
Qed.

Section accounting_facts.

Lemma NewDomainCrawler_inv (root0 : url.URL) (config0 : Config) (dc : DomainCrawler) :
  NewDomainCrawler root0 config0 = inl dc ->
  exists v,
    Validate config0 = None /\ DomainValidator_ config0 = Some v
    /\ dc = mkDomainCrawler root0 config0 (NewSiteMap root0 v) [root0] false 1 0 false.
Proof.
  unfold NewDomainCrawler. intros H.
  destruct (Validate config0); [done|].
  destruct (DomainValidator_ config0) as [v|]; [|done].
  exists v. by simplify_eq.
Qed.

Lemma accounting_start (root0 : url.URL) (config0 : Config) (dc : DomainCrawler) :
  NewDomainCrawler root0 config0 = inl dc -> accounting [] (Crawl_start dc).
Proof.
  intros (v & _ & _ & ->)%NewDomainCrawler_inv.
  constructor; unfold counter_after; simpl;
    rewrite ?total_replicate by done; try done; lia.
Qed.

Lemma occ_nonneg (p : Label -> bool) (h : list Label) : 0 <= occ p h.
Proof. induction h as [|l h IH]; simpl; [lia|]. destruct (p l); lia. Qed.

Lemma occ_pos_elem (p : Label -> bool) (h : list Label) :
  0 < occ p h -> exists l, l ∈ h /\ p l = true.
Proof.
  induction h as [|l h IH]; simpl; [lia|]. destruct (p l) eqn:Hp.
  - intros _. exists l. split; [left|done].
  - intros H. destruct IH as (l' & Hin & Hl'); [lia|].
    exists l'. split; [by right|done].
Qed.

Lemma step_LWait (s : State) (g : Gid) (s' : State) :
  step s g = Some (LWait, s') -> pendingURLSRemaining (crawler s) = 0.
Proof. intros Hs. destruct s. step_inv Hs; bool_to_prop; done. Qed.

Lemma step_LClose (s : State) (g : Gid) (s' : State) :
  step s g = Some (LClose, s') -> main s = ClosingChannel.
Proof. intros Hs. destruct s. step_inv Hs; done. Qed.

Lemma waited_for_zero_step h s g l s' :
  accounting h s -> waited_for_zero h -> step s g = Some (l, s') ->
  waited_for_zero (l :: h).
Proof.
  intros Ha [Hw Hc] Hs. split.
  - intros [|l' h2] h1 Heq; simplify_eq/=; [|eauto].
    apply step_LWait in Hs. by rewrite <- (acc_counter _ _ Ha).
  - intros [|l' h2] h1 Heq; simplify_eq/=; [|eauto].
    apply step_LClose in Hs. pose proof (acc_main _ _ Ha) as Hm.
    rewrite Hs in Hm. destruct Hm as (Hwait & _).
    destruct (occ_pos_elem is_wait h1) as ([] & Hin & Hl); try done. lia.
Qed.

Lemma accounting_run (root0 : url.URL) (config0 : Config) (dc : DomainCrawler)
    (sch : list Gid) (h : list Label) (s : State) :
  NewDomainCrawler root0 config0 = inl dc -> Crawl sch dc = Some (h, s) ->
  accounting h s /\ waited_for_zero h.
Proof.
  intros Hn Hr.
  apply (run_invariant (fun h s => accounting h s /\ waited_for_zero h))
    with (sch := sch) (h := []) (s := Crawl_start dc); [| |done].
  - intros h0 s0 g l s1 [Ha Hw] Hs.
    eauto using accounting_step, waited_for_zero_step.
  - split; [by eapply accounting_start|].
    split; intros [|] ? ?; simplify_eq/=.
Qed.

(** The accounting that holds in every run of a crawl: the wait group's
    counter is the seed's unit plus one per [Add] minus one per [Done];
    every accepted send is followed by at most one [Add] (the goroutines
    that owe one are those between their send and their [Add]); every URL
    received gets at most one [Done] (the busy goroutines are those that
    have not reached it yet), whether it was skipped after the timeout,
    read to the end or given up on a read error, so that with no goroutine
    holding a URL the numbers agree; the counter is never negative and
    [Done] never panics; the channel is closed at most once, exactly once when [Crawl]
    has returned, and only after [Wait] saw the counter at zero. *)
Theorem outstanding_work_balanced (root0 : url.URL) (config0 : Config)
    (dc : DomainCrawler) (sch : list Gid) (h : list Label) (s : State) :
  NewDomainCrawler root0 config0 = inl dc ->
  Crawl sch dc = Some (h, s) ->
  pendingURLSRemaining dc = 1
  /\ pendingURLSRemaining (crawler s) = 1 + occ is_add h - occ is_done h
  /\ occ is_send h = occ is_add h + total owes (workers s)
  /\ occ is_recv h = occ is_done h + total busy (workers s)
  /\ (quiescent s -> occ is_add h = occ is_send h /\ occ is_done h = occ is_recv h)
  /\ 0 <= pendingURLSRemaining (crawler s)
  /\ panicked s <> Some "sync: negative WaitGroup counter"
  /\ panicked s <> Some "close of closed channel"
  /\ occ is_close h <= 1
  /\ (pendingURLS_closed (crawler s) = true <-> occ is_close h = 1)
  /\ (is_Some (Crawl_result s) -> occ is_close h = 1)
  /\ waited_for_zero h.
Proof.
  intros Hn Hr. destruct (accounting_run _ _ _ _ _ _ Hn Hr) as [Ha Hw].
  destruct Ha as [H1 H2 H3 H4 H5 [H6 H7]].
  pose proof (total_owes_busy (workers s)) as Hob.
  split. { apply NewDomainCrawler_inv in Hn as (v & _ & _ & ->). done. }
  split; [done|]. split; [done|]. split; [done|].
  split. { intros [Hb Ho]%total_quiescent. lia. }
  split; [lia|]. split; [done|]. split; [done|].
  assert (occ is_close h <= 1
          /\ (pendingURLS_closed (crawler s) = true <-> occ is_close h = 1)
          /\ (is_Some (Crawl_result s) -> occ is_close h = 1)) as (?&?&?).
  { unfold Crawl_result.
    destruct (main s) as [| | |[e|]]; destruct H5 as (Hwt & Hcl & Hclosed);
      rewrite Hclosed, Hcl; repeat split; try done; try lia;
      try (intros [? ?]; done). }
  done.
Qed.

End accounting_facts.

(** ** The frontier along a run *)

Section frontier_facts.

Lemma queued_app (k : string) (q q' : list url.URL) :
  queued k (q ++ q') = queued k q + queued k q'.
Proof. induction q as [|u q IH]; simpl; [done|]. rewrite IH. lia. Qed.

Lemma queued_nonneg (k : string) (q : list url.URL) : 0 <= queued k q.
Proof. induction q as [|u q IH]; simpl; [done|]. case_bool_decide; lia. Qed.

Lemma sending_range (k : string) (g : Goroutine) : 0 <= sending k g <= 1.
Proof. destruct g; simpl; try lia. case_bool_decide; lia. Qed.

Lemma total_sending_nonneg (k : string) (ws : list Goroutine) :
  0 <= total (sending k) ws.
Proof.
  induction ws as [|g ws IH]; simpl; [done|].
  pose proof (sending_range k g). lia.
Qed.

Lemma total_sending_lookup (k : string) (ws : list Goroutine) (i : nat)
    (g : Goroutine) :
  ws !! i = Some g -> sending k g <= total (sending k) ws.
Proof.
  revert i. induction ws as [|x ws IH]; intros [|i] H; simplify_eq/=.
  - pose proof (total_sending_nonneg k ws). lia.
  - specialize (IH i H). pose proof (sending_range k x). lia.
Qed.

Lemma total_sending_quiescent (k : string) (ws : list Goroutine) :
  Forall (fun g => g = Receiving \/ g = Returned) ws -> total (sending k) ws = 0.
Proof. induction 1 as [|g ws [-> | ->] _ IH]; simpl; lia. Qed.

Lemma pending_nonneg (s : State) (k : string) : 0 <= pending s k.
Proof.
  unfold pending. pose proof (queued_nonneg k (pendingURLS (crawler s))).
  pose proof (total_sending_nonneg k (workers s)). lia.
Qed.

Lemma Read_pageURL (r : LinkReader) : pageURL (Read r).2 = pageURL r.
Proof.
  unfold Read, Read_tokens. repeat case_match; simplify_eq/=; done.
Qed.

Lemma linked_from_mono (h : list Label) (l : Label) (u : url.URL) :
  linked_from h u -> linked_from (l :: h) u.
Proof.
  intros (page & get & href & ref & H1 & H2 & H3 & H4).
  exists page, get, href, ref. repeat split; try done; by right.
Qed.

Lemma quiescent_insert (ws : list Goroutine) (i : nat) (g : Goroutine) :
  Forall (fun g => g = Receiving \/ g = Returned) ws ->
  g = Receiving \/ g = Returned ->
  Forall (fun g => g = Receiving \/ g = Returned) (<[i := g]> ws).
Proof. intros. by apply Forall_insert. Qed.

Lemma quiescent_lookup (ws : list Goroutine) (i : nat) (g : Goroutine) :
  Forall (fun g => g = Receiving \/ g = Returned) ws ->
  ws !! i = Some g -> g = Receiving \/ g = Returned.
Proof. intros H Hl. by apply (Forall_lookup_1 _ _ _ _ H Hl). Qed.

End frontier_facts.

Ltac use_total :=
  repeat match goal with
    | H : ?ws !! ?i = Some ?w |- context [total ?f (<[?i := ?w']> ?ws)] =>
        rewrite (total_insert f ws i w w' H)
    end.

Lemma frontier_static root0 v h s g l s' :
  frontier root0 v h s -> step s g = Some (l, s') ->
  root (crawler s') = root0
  /\ url (siteMap (crawler s')) = root0 /\ validator (siteMap (crawler s')) = v.
Proof.
  intros [Hr [Hu Hv] _ _ _ _ _ _ _ _ _] Hs. destruct s as [c lg m t ws p]. simpl in *.
  step_inv Hs; simpl; done.
Qed.

Lemma frontier_true root0 v h s g l s' :
  frontier root0 v h s -> step s g = Some (l, s') ->
  forall k b, siteURLS (siteMap (crawler s')) !! k = Some b -> b = true.
Proof.
  intros Hf Hs. pose proof (fr_true _ _ _ _ Hf) as Ht.
  destruct s as [c lg m t ws p]. simpl in *.
  step_inv Hs; simpl; try done;
    unfold appendURL_locked in *; simplify_eq;
    intros k b; rewrite lookup_insert; case_decide; naive_solver.
Qed.

Lemma frontier_admits root0 v h s g l s' :
  frontier root0 v h s -> step s g = Some (l, s') ->
  forall k, occ (admits k) (l :: h)
            = if siteURLS_get (siteURLS (siteMap (crawler s'))) k then 1 else 0.
Proof.
  intros Hf Hs k. pose proof (fr_admits _ _ _ _ Hf k) as Ha.
  destruct s as [c lg m t ws p]. simpl in *.
  step_inv Hs; simpl; try done;
    unfold appendURL_locked in *; simplify_eq;
    rewrite siteURLS_get_insert; case_bool_decide; simpl; subst; try done;
    destruct (siteURLS_get _ _); simpl in *; first [done | lia].
Qed.

Lemma frontier_pending root0 v h s g l s' :
  frontier root0 v h s -> step s g = Some (l, s') ->
  seeded s'
  \/ forall k, 0 <= pending s' k <= 1
               /\ (pending s' k = 1 ->
                   siteURLS (siteMap (crawler s')) !! k = Some true).
Proof.
  intros Hf Hs. pose proof (fr_pending _ _ _ _ Hf) as [Hseed|Hp].
  - destruct Hseed as (Hq & Hm & Hquiet). unfold seeded, quiescent, pending in *.
    destruct s as [c lg m t ws p]. simpl in *.
    step_inv Hs; simpl; try (left; done);
      match goal with
      | H : ws !! _ = Some _ |- _ =>
          pose proof (quiescent_lookup _ _ _ Hquiet H) as [?|?]; simplify_eq
      end.
    all: try (rewrite Hq in *; discriminate).
    right. intros k. use_total. simpl.
    rewrite (total_sending_quiescent k ws Hquiet).
    rewrite Hq in *. simplify_eq/=. split; [lia|intros; lia].
  - right. intros k. specialize (Hp k). pose proof (pending_nonneg s' k) as Hn.
    revert Hp Hn. unfold pending.
    destruct s as [c lg m t ws p]. simpl in *.
    step_inv Hs; simpl; use_total; simpl; rewrite ?queued_app; simpl;
      rewrite_queue; simpl; try done.
    all: intros [Hr Hi] Hn;
      unfold appendURL_locked in *; simplify_eq;
      try case_bool_decide; subst;
      try (split; [lia|]; intros H1;
           rewrite ?lookup_insert_eq; try done;
           try (rewrite lookup_insert_ne by done); try (apply Hi; lia)).
    + assert (queued (url.String hrefResolved) (pendingURLS c)
              + total (sending (url.String hrefResolved)) ws <> 1) as Hne.
      { intros E. apply Hi in E. unfold siteURLS_get in H. by rewrite E in H. }
      split; [lia|]. intros _. by rewrite lookup_insert_eq.
    + rewrite lookup_insert. case_decide; [done|]. apply Hi. lia.
Qed.

Lemma frontier_dropped root0 v h s g l s' :
  frontier root0 v h s -> step s g = Some (l, s') ->
  forall u, LDrop u ∈ l :: h ->
    siteURLS (siteMap (crawler s')) !! url.String u = Some true
    /\ pending s' (url.String u) = 0.
Proof.
  intros Hf Hs u [Heq|Hin]%elem_of_cons; [subst l|].
  - pose proof (fr_pending _ _ _ _ Hf) as Hp.
    destruct s as [c lg m t ws p]. simpl in *.
    step_inv Hs. destruct Hp as [(_ & _ & Hquiet)|Hp].
    { unfold quiescent in Hquiet. simpl in Hquiet.
      match goal with
      | H : ws !! _ = Some _ |- _ =>
          by pose proof (quiescent_lookup _ _ _ Hquiet H) as [?|?]
      end. }
    destruct (Hp (url.String u)) as [Hr Hi]. revert Hr Hi. unfold pending. simpl.
    match goal with
    | H : ws !! _ = Some _ |- _ =>
        pose proof (total_sending_lookup (url.String u) _ _ _ H) as Hge
    end.
    pose proof (queued_nonneg (url.String u) (pendingURLS c)).
    use_total. simpl in *. rewrite bool_decide_eq_true_2 in * by done.
    intros Hr Hi. split; [apply Hi|]; lia.
  - destruct (fr_dropped _ _ _ _ Hf u Hin) as [Hm Hp].
    pose proof (pending_nonneg s' (url.String u)) as Hn.
    revert Hp Hn. unfold pending.
    destruct s as [c lg m t ws p]. simpl in *.
    step_inv Hs; simpl; use_total; simpl; rewrite ?queued_app; simpl;
      rewrite_queue; simpl; try done;
      unfold appendURL_locked in *; simplify_eq;
      try case_bool_decide; subst; intros Hp Hn;
      try (split; [|lia]);
      try (rewrite lookup_insert; by case_decide);
      try done.
    exfalso. unfold siteURLS_get in H. rewrite H0, Hm in H. done.
Qed.

Lemma frontier_after_drop root0 v h s g l s' :
  frontier root0 v h s -> step s g = Some (l, s') ->
  forall h2 l0 h1, l :: h = h2 ++ l0 :: h1 ->
    forall u, LDrop u ∈ h1 -> handles (url.String u) l0 = false.
Proof.
  intros Hf Hs [|l' h2] l0 h1 Heq u Hin; simplify_eq/=;
    [|by eapply (fr_after_drop _ _ _ _ Hf)].
  destruct (fr_dropped _ _ _ _ Hf u Hin) as [Hm Hp].
  revert Hp. unfold pending.
  destruct s as [c lg m t ws p]. simpl in *.
  step_inv Hs; simpl; try done; rewrite_queue; simpl;
    match goal with
    | H : ws !! _ = Some _ |- _ =>
        pose proof (total_sending_lookup (url.String u) _ _ _ H) as Hge
    end;
    pose proof (queued_nonneg (url.String u) (pendingURLS c));
    pose proof (total_sending_nonneg (url.String u) ws);
    simpl in *; case_bool_decide; try done; intros Hp; exfalso;
    match type of Hp with
    | context [queued ?k ?q] => pose proof (queued_nonneg k q)
    end;
    rewrite ?bool_decide_eq_true_2 in Hge by done; lia.
Qed.


Section worker_step_facts.

Lemma step_cases (s : State) (g : Gid) (l : Label) (s' : State) :
  step s g = Some (l, s') ->
  (workers s' = workers s
   /\ siteMap (crawler s') = siteMap (crawler s)
   /\ main_label l = true)
  \/ exists i w o,
       workers s !! i = Some w
       /\ worker_step (crawler s) w = Some o
       /\ l = out_label o
       /\ workers s' = <[i := out_next o]> (workers s)
       /\ crawler s' = out_crawler o.
Proof.
  intros Hs. unfold step in Hs. destruct (panicked s); [done|].
  destruct g as [| |i].
  - left. unfold main_step in Hs. repeat case_in Hs; simplify_eq/=; done.
  - left. repeat case_in Hs; simplify_eq/=; done.
  - right. destruct (workers s !! i) as [w|] eqn:Hw; [|done].
    destruct (worker_step (crawler s) w) as [o|] eqn:Ho; [|done].
    simplify_eq/=. by exists i, w, o.
Qed.

Lemma worker_step_page (c : DomainCrawler) (g : Goroutine) (o : Outcome)
    (page : url.URL) :
  worker_step c g = Some o ->
  page_of_goroutine (out_next o) = Some page ->
  page_of_goroutine g = Some page \/ out_label o = LRecv page.
Proof.
  intros Hw. unfold worker_step, proceed, panic in Hw.
  repeat case_in Hw; simplify_eq/=; try (intros; simplify_eq; by auto);
    match goal with
    | H : Read ?r = (_, ?r') |- _ =>
        pose proof (Read_pageURL r) as Hp; rewrite H in Hp; simpl in Hp
    end;
    intros; simplify_eq; left; congruence.
Qed.

Lemma worker_step_link (c : DomainCrawler) (g : Goroutine) (o : Outcome)
    (u : url.URL) :
  worker_step c g = Some o ->
  link_of_goroutine (out_next o) = Some u ->
  link_of_goroutine g = Some u
  \/ exists r get href ref,
       g = Reading r
       /\ out_label o = LRead (pageURL r) get href None
       /\ url.Parse href = inl ref
       /\ u = url.ResolveReference (pageURL r) ref
       /\ validator (siteMap c) (url (siteMap c)) u = true.
Proof.
  intros Hw. unfold worker_step, proceed, panic in Hw.
  repeat case_in Hw; simplify_eq/=; try (intros; simplify_eq; by auto).
  match goal with
  | H : Read ?r = (_, ?r') |- _ =>
      pose proof (Read_pageURL r) as Hp; rewrite H in Hp; simpl in Hp
  end.
  intros; simplify_eq. right. eexists _, _, _, _.
  split; [done|]. split; [done|]. split; [done|]. rewrite Hp. split; [done|].
  rewrite <- Hp. by apply negb_false_iff.
Qed.

Lemma worker_step_sending (c : DomainCrawler) (g : Goroutine) (o : Outcome)
    (r : LinkReader) (u : url.URL) :
  worker_step c g = Some o ->
  out_next o = Sending r u ->
  g = Sending r u \/ out_label o = LLock u true.
Proof.
  intros Hw. unfold worker_step, proceed, panic in Hw.
  repeat case_in Hw; simplify_eq/=; intros; simplify_eq; auto.
Qed.

Lemma worker_step_keys (c : DomainCrawler) (g : Goroutine) (o : Outcome)
    (k : string) :
  worker_step c g = Some o ->
  is_Some (siteURLS (siteMap (out_crawler o)) !! k) ->
  is_Some (siteURLS (siteMap c) !! k)
  \/ exists r u, g = Locking r u /\ url.String u = k /\ out_label o = LLock u true.
Proof.
  intros Hw. unfold worker_step, proceed, panic in Hw.
  repeat case_in Hw; simplify_eq/=; auto;
    unfold appendURL_locked in *; simplify_eq;
    rewrite lookup_insert_is_Some; intros [<-|[_ ?]]; auto.
  - right. by eexists _, _.
  - left. unfold siteURLS_get in *.
    destruct (siteURLS (siteMap c) !! url.String hrefResolved) as [[]|]; done.
Qed.

Lemma worker_step_static (c : DomainCrawler) (g : Goroutine) (o : Outcome) :
  worker_step c g = Some o ->
  root (out_crawler o) = root c
  /\ url (siteMap (out_crawler o)) = url (siteMap c)
  /\ validator (siteMap (out_crawler o)) = validator (siteMap c).
Proof.
  intros Hw. unfold worker_step, proceed, panic in Hw.
  repeat case_in Hw; simplify_eq/=; done.
Qed.

End worker_step_facts.

Lemma frontier_step root0 v h s g l s' :
  frontier root0 v h s -> step s g = Some (l, s') -> frontier root0 v (l :: h) s'.
Proof.
  intros Hf Hs. pose proof (frontier_static _ _ _ _ _ _ _ Hf Hs) as (Hr & Hu & Hv).
  constructor.
  - done.
  - done.
  - by eapply frontier_true.
  - by eapply frontier_pending.
  - by eapply frontier_admits.
  - by eapply frontier_dropped.
  - by eapply frontier_after_drop.
  - intros k Hk.
    destruct (step_cases _ _ _ _ Hs)
      as [(Hw & Hm & _)|(i & w & o & Hwi & Hstep & -> & Hws & Hc)].
    + rewrite Hm in Hk. destruct (fr_keys _ _ _ _ Hf k Hk) as (u & ? & ? & ? & ?).
      exists u. repeat split; try done; [by apply linked_from_mono|by right].
    + rewrite Hc in Hk.
      destruct (worker_step_keys _ _ _ k Hstep Hk) as [Hold|(r & u & -> & <- & Hl)].
      * destruct (fr_keys _ _ _ _ Hf k Hold) as (u & ? & ? & ? & ?).
        exists u. repeat split; try done; [by apply linked_from_mono|by right].
      * destruct (fr_links _ _ _ _ Hf i _ u Hwi eq_refl) as [? ?].
        exists u. repeat split; try done; [by apply linked_from_mono|].
        rewrite Hl. left.
  - intros j g' page Hj Hp.
    destruct (step_cases _ _ _ _ Hs)
      as [(Hw & _)|(i & w & o & Hwi & Hstep & -> & Hws & Hc)].
    + rewrite Hw in Hj. right. by eapply (fr_pages _ _ _ _ Hf j g').
    + rewrite Hws in Hj.
      apply list_lookup_insert_Some in Hj as [(<- & <- & _)|(Hne & Hj)].
      * destruct (worker_step_page _ _ _ _ Hstep Hp) as [Hold| ->]; [|left].
        right. by eapply (fr_pages _ _ _ _ Hf i w).
      * right. by eapply (fr_pages _ _ _ _ Hf j g').
  - intros j g' u Hj Hl.
    destruct (step_cases _ _ _ _ Hs)
      as [(Hw & _)|(i & w & o & Hwi & Hstep & -> & Hws & Hc)].
    + rewrite Hw in Hj. destruct (fr_links _ _ _ _ Hf j g' u Hj Hl).
      split; [by apply linked_from_mono|done].
    + rewrite Hws in Hj.
      apply list_lookup_insert_Some in Hj as [(<- & <- & _)|(Hne & Hj)].
      * destruct (worker_step_link _ _ _ _ Hstep Hl)
          as [Hold|(r & get & href & ref & -> & Hlab & Hparse & -> & Hvalid)].
        { destruct (fr_links _ _ _ _ Hf i w u Hwi Hold).
          split; [by apply linked_from_mono|done]. }
        destruct (fr_site _ _ _ _ Hf) as [Hu0 Hv0]. rewrite Hu0, Hv0 in Hvalid.
        split; [|done]. exists (pageURL r), get, href, ref.
        split; [right; by eapply (fr_pages _ _ _ _ Hf i (Reading r))|].
        split; [rewrite Hlab; left|]. done.
      * destruct (fr_links _ _ _ _ Hf j g' u Hj Hl).
        split; [by apply linked_from_mono|done].
  - intros j r u Hj.
    destruct (step_cases _ _ _ _ Hs)
      as [(Hw & _)|(i & w & o & Hwi & Hstep & -> & Hws & Hc)].
    + rewrite Hw in Hj. right. by eapply (fr_sending _ _ _ _ Hf).
    + rewrite Hws in Hj.
      apply list_lookup_insert_Some in Hj as [(<- & Hn & _)|(Hne & Hj)].
      * destruct (worker_step_sending _ _ _ _ _ Hstep Hn) as [->|Hlab].
        { right. by eapply (fr_sending _ _ _ _ Hf). }
        rewrite Hlab. left.
      * right. by eapply (fr_sending _ _ _ _ Hf).
Qed.

Lemma frontier_start (root0 : url.URL) (config0 : Config) (dc : DomainCrawler)
    (v : DomainValidator) :
  NewDomainCrawler root0 config0 = inl dc -> DomainValidator_ config0 = Some v ->
  frontier root0 v [] (Crawl_start dc).
Proof.
  intros (v' & _ & Hv & ->)%NewDomainCrawler_inv Hv0. simplify_eq.
  constructor; simpl; try done.
  - left. repeat split. apply Forall_replicate. by left.
  - intros u Hin. by apply elem_of_nil in Hin.
  - intros [|] ? ? ?; done.
  - intros k [b Hb]. by rewrite lookup_empty in Hb.
  - intros i g page [-> _]%lookup_replicate. done.
  - intros i g u [-> _]%lookup_replicate. done.
  - intros i r u [? _]%lookup_replicate. done.
Qed.

Lemma frontier_run (root0 : url.URL) (config0 : Config) (dc : DomainCrawler)
    (v : DomainValidator) (sch : list Gid) (h : list Label) (s : State) :
  NewDomainCrawler root0 config0 = inl dc -> DomainValidator_ config0 = Some v ->
  Crawl sch dc = Some (h, s) -> frontier root0 v h s.
Proof.
  intros Hn Hv Hr.
  apply (run_invariant (frontier root0 v)) with (sch := sch) (h := [])
    (s := Crawl_start dc); [|by eapply frontier_start|done].
  intros. by eapply frontier_step.
Qed.

(** ** What a crawl reports *)

Section rendering_facts.

Lemma WriteMap_rendered (s : SiteMap) (out : string) :
  WriteMap s out = (s, out +:+ lines (rendered s)).
Proof. unfold WriteMap, rendered. by rewrite WriteMap_ranging_eq. Qed.

Lemma elem_of_rendered (s : SiteMap) (k : string) :
  k ∈ rendered s <-> is_Some (siteURLS s !! k).
Proof.
  unfold rendered. rewrite sort_Strings_perm, list_elem_of_fmap. split.
  - intros [[k' b] [-> Hin]]. apply elem_of_map_to_list in Hin. by exists b.
  - intros [b Hb]. exists (k, b). split; [done|]. by apply elem_of_map_to_list.
Qed.

End rendering_facts.

Section reporting_facts.

Lemma uint64_incr_mod (n : Z) : uint64_incr (n mod 2 ^ 64) = (1 + n) mod 2 ^ 64.
Proof.
  unfold uint64_incr. rewrite Z.add_mod_idemp_l by lia. f_equal. lia.
Qed.

Lemma reporting_step root0 h s g l s' :
  reporting root0 h s -> step s g = Some (l, s') -> reporting root0 (l :: h) s'.
Proof.
  intros [Hr Hc Hret] Hs. destruct s as [c lg m t ws p]. simpl in *.
  step_inv Hs; (constructor; simpl; [done| |]);
    unfold accessed_after in *; simpl;
    try (rewrite Hc; apply uint64_incr_mod);
    try done;
    intros err Herr;
    first
      [ destruct (Hret err Herr) as (h2 & h1 & -> & ->);
        eexists (_ :: h2), h1; split; [reflexivity|done]
      | simplify_eq; exists [], h; split; [done|]; unfold Crawl_error;
        match goal with
        | H : (accessedPageCount _ =? 0) = _ |- _ => by rewrite <- Hc, H
        end ].
Qed.

Lemma reporting_run (root0 : url.URL) (config0 : Config) (dc : DomainCrawler)
    (sch : list Gid) (h : list Label) (s : State) :
  NewDomainCrawler root0 config0 = inl dc -> Crawl sch dc = Some (h, s) ->
  reporting root0 h s.
Proof.
  intros (v & _ & _ & ->)%NewDomainCrawler_inv Hr.
  apply (run_invariant (reporting root0)) with (sch := sch) (h := [])
    (s := Crawl_start (mkDomainCrawler root0 config0 (NewSiteMap root0 v)
                         [root0] false 1 0 false)); [| |done].
  - intros. by eapply reporting_step.
  - constructor; simpl; done.
Qed.

(** C4. When [Crawl] has returned, it returned the error "unable to access
    url" with the root if the counter it loaded was zero, and the site map
    with a nil error otherwise; the counter it loaded is the number of
    links read from pages up to then (modulo 2^64), so that, short of 2^64
    links, [Crawl] fails exactly when no link was read from any page. *)
Theorem Crawl_fails_iff_no_link_read (root0 : url.URL) (config0 : Config)
    (dc : DomainCrawler) (sch : list Gid) (h : list Label) (s : State)
    (err : option error) :
  NewDomainCrawler root0 config0 = inl dc ->
  Crawl sch dc = Some (h, s) ->
  main s = Returning err ->
  accessedPageCount (crawler s) = accessed_after h
  /\ exists h2 h1,
       h = h2 ++ LReturn err :: h1
       /\ (err = Some (Errorf ("unable to access url " +:+ url.String root0))
           <-> accessed_after h1 = 0)
       /\ (err = None <-> accessed_after h1 <> 0)
       /\ (occ is_link h1 < 2 ^ 64 -> (is_Some err <-> occ is_link h1 = 0))
       /\ Crawl_result s
          = Some (match err with
                  | Some e => inr e
                  | None => inl (siteMap (crawler s))
                  end).
Proof.
  intros Hn Hr Hm. destruct (reporting_run _ _ _ _ _ _ Hn Hr) as [_ Hc Hret].
  split; [done|]. destruct (Hret err Hm) as (h2 & h1 & Hh & He).
  exists h2, h1. split; [done|]. unfold Crawl_error in He.
  assert (0 <= occ is_link h1) as Hnn by apply occ_nonneg.
  assert (Crawl_result s
          = Some (match err with
                  | Some e => inr e
                  | None => inl (siteMap (crawler s))
                  end)) as Hres.
  { unfold Crawl_result. rewrite Hm. by destruct err. }
  destruct (Z.eqb_spec (accessed_after h1) 0) as [Hz|Hz]; subst err.
  - split; [done|]. split; [split; [done|intros; contradiction]|].
    split; [|done]. intros Hlt. split.
    + intros _. unfold accessed_after in Hz. by rewrite Z.mod_small in Hz by lia.
    + intros _. by eexists.
  - split; [split; [done|intros; contradiction]|]. split; [done|].
    split; [|done]. intros Hlt. split.
    + intros [? ?]. done.
    + intros Hz'. exfalso. apply Hz. unfold accessed_after. by rewrite Hz'.
Qed.

End reporting_facts.

(** ** Overflow and provenance *)

Section overflow_facts.

Lemma worker_step_attempt (c : DomainCrawler) (g : Goroutine) (o : Outcome)
    (u : url.URL) :
  worker_step c g = Some o ->
  out_label o = LDrop u \/ out_label o = LSend u ->
  exists r, g = Sending r u.
Proof.
  intros Hw. unfold worker_step, proceed, panic in Hw.
  repeat case_in Hw; simplify_eq/=; intros [?|?]; simplify_eq; eauto.
Qed.

Lemma attempts_admitted_step root0 v h s g l s' :
  frontier root0 v h s -> attempts_admitted h -> step s g = Some (l, s') ->
  attempts_admitted (l :: h).
Proof.
  intros Hf Ha Hs [|l' h2] l0 h1 Heq u Hl; simplify_eq/=;
    [|by eapply (Ha h2 l0 h1)].
  destruct (step_cases _ _ _ _ Hs)
    as [(_ & _ & Hm)|(i & w & o & Hwi & Hstep & -> & _)].
  - by destruct Hl as [->| ->].
  - destruct (worker_step_attempt _ _ _ _ Hstep Hl) as [r ->].
    by eapply (fr_sending _ _ _ _ Hf).
Qed.

Lemma overflow_run (root0 : url.URL) (config0 : Config) (dc : DomainCrawler)
    (v : DomainValidator) (sch : list Gid) (h : list Label) (s : State) :
  NewDomainCrawler root0 config0 = inl dc -> DomainValidator_ config0 = Some v ->
  Crawl sch dc = Some (h, s) -> frontier root0 v h s /\ attempts_admitted h.
Proof.
  intros Hn Hv Hr.
  apply (run_invariant (fun h s => frontier root0 v h s /\ attempts_admitted h))
    with (sch := sch) (h := []) (s := Crawl_start dc); [| |done].
  - intros h0 s0 g l s1 [Hf Ha] Hs.
    eauto using frontier_step, attempts_admitted_step.
  - split; [by eapply frontier_start|]. by intros [|] ? ? ?.
Qed.

(** A URL whose send the full channel refused was admitted before the
    attempt; from then on it stays in the site map, so [WriteMap] writes
    it, while it is neither in the channel nor about to be sent, and no
    later step sends, drops or receives a URL with its string. *)
Lemma dropped_url_kept (root0 : url.URL) (config0 : Config)
    (dc : DomainCrawler) (sch : list Gid) (h : list Label) (s : State)
    (u : url.URL) (out : string) :
  NewDomainCrawler root0 config0 = inl dc ->
  Crawl sch dc = Some (h, s) ->
  LDrop u ∈ h ->
  siteURLS (siteMap (crawler s)) !! url.String u = Some true
  /\ WriteMap (siteMap (crawler s)) out
     = (siteMap (crawler s), out +:+ lines (rendered (siteMap (crawler s))))
  /\ url.String u ∈ rendered (siteMap (crawler s))
  /\ pending s (url.String u) = 0
  /\ forall h2 h1, h = h2 ++ LDrop u :: h1 ->
       LLock u true ∈ h1
       /\ forall l, l ∈ h2 -> handles (url.String u) l = false.
Proof.
  intros Hn Hr Hin.
  destruct (NewDomainCrawler_inv _ _ _ Hn) as (v & _ & Hv & _).
  destruct (overflow_run _ _ _ _ _ _ _ Hn Hv Hr) as [Hf Ha].
  destruct (fr_dropped _ _ _ _ Hf u Hin) as [Hm Hp].
  split; [done|]. split; [apply WriteMap_rendered|].
  split; [apply elem_of_rendered; by eexists|]. split; [done|].
  intros h2 h1 Hh. split; [eapply (Ha h2 _ h1 Hh); by left|].
  intros l [a [b ->]]%list_elem_of_split.
  eapply (fr_after_drop _ _ _ _ Hf a l (b ++ LDrop u :: h1)).
  - by rewrite Hh, <- app_assoc.
  - apply elem_of_app. right. left.
Qed.

(** C10. [NewDomainCrawler] puts the root in the channel and leaves the
    site map empty. In every run, each string of the site map, hence each
    line [WriteMap] writes, is the resolution of a link that [Read]
    returned for a page received from the channel, accepted by the
    validator; so while no link read resolves to the root's string, the
    root is not in the site map and not in the rendering. *)
Theorem root_enters_only_through_a_link (root0 : url.URL) (config0 : Config)
    (dc : DomainCrawler) (sch : list Gid) (h : list Label) (s : State) :
  NewDomainCrawler root0 config0 = inl dc ->
  Crawl sch dc = Some (h, s) ->
  pendingURLS dc = [root0]
  /\ siteURLS (siteMap dc) = ∅
  /\ (forall k, k ∈ rendered (siteMap (crawler s)) ->
        exists u, url.String u = k /\ linked_from h u)
  /\ ((forall u, linked_from h u -> url.String u <> url.String root0) ->
        siteURLS (siteMap (crawler s)) !! url.String root0 = None
        /\ url.String root0 ∉ rendered (siteMap (crawler s))).
Proof.
  intros Hn Hr.
  destruct (NewDomainCrawler_inv _ _ _ Hn) as (v & _ & Hv & Hdc).
  destruct (overflow_run _ _ _ _ _ _ _ Hn Hv Hr) as [Hf _].
  split; [by subst dc|]. split; [by subst dc|].
  assert (forall k, k ∈ rendered (siteMap (crawler s)) ->
            exists u, url.String u = k /\ linked_from h u) as Hkeys.
  { intros k Hk%elem_of_rendered.
    destruct (fr_keys _ _ _ _ Hf k Hk) as (u & ? & ? & _). by exists u. }
  split; [done|]. intros Hno.
  assert (url.String root0 ∉ rendered (siteMap (crawler s))) as Hnot.
  { intros (u & Hu & Hl)%Hkeys. by apply (Hno u). }
  split; [|done]. apply eq_None_not_Some. intros H. apply Hnot.
  by apply elem_of_rendered.
Qed.

End overflow_facts.

(** ** Concurrent admission *)

Section callers_facts.

Lemma trues_insert (k : string) (cs : list Caller) (i : nat) (c c' : Caller) :
  cs !! i = Some c ->
  trues k (<[i := c']> cs) = trues k cs - answered_true k c + answered_true k c'.
Proof.
  revert i. induction cs as [|x cs IH]; intros [|i] H; simplify_eq/=; [lia|].
  rewrite (IH i) by done. lia.
Qed.

Lemma trues_nonneg (k : string) (cs : list Caller) : 0 <= trues k cs.
Proof.
  induction cs as [|c cs IH]; simpl; [done|].
  destruct c as [| |u []]; simpl; try case_bool_decide; lia.
Qed.

Lemma trues_elem (cs : list Caller) (u : url.URL) :
  Answered u true ∈ cs -> 1 <= trues (url.String u) cs.
Proof.
  unfold trues. induction cs as [|c cs IH]; intros Hin.
  - by apply elem_of_nil in Hin.
  - pose proof (trues_nonneg (url.String u) cs) as Hn. unfold trues in Hn.
    apply elem_of_cons in Hin as [<-|Hin]; simpl.
    + rewrite bool_decide_eq_true_2 by done. lia.
    + specialize (IH Hin).
      assert (0 <= answered_true (url.String u) c); [|lia].
      destruct c as [| |? []]; simpl; try case_bool_decide; lia.
Qed.

Lemma trues_calling (k : string) (us : list url.URL) : trues k (Calling <$> us) = 0.
Proof. unfold trues. induction us as [|u us IH]; simpl; done. Qed.

Lemma candidate_insert (cs : list Caller) (i : nat) (c c' : Caller) :
  cs !! i = Some c -> candidate c' = candidate c ->
  candidate <$> <[i := c']> cs = candidate <$> cs.
Proof.
  intros Hc He. rewrite list_fmap_insert, He.
  apply list_insert_id. by rewrite list_lookup_fmap, Hc.
Qed.

Lemma in_domain_candidate_intro (s0 : SiteMap) (us : list url.URL) (u : url.URL) :
  u ∈ us -> validator s0 (url s0) u = true ->
  in_domain_candidate s0 (url.String u) us = true.
Proof.
  intros Hin Hv. unfold in_domain_candidate. apply existsb_exists.
  exists u. split; [by apply list_elem_of_In|].
  by rewrite bool_decide_eq_true_2, Hv.
Qed.

Lemma in_domain_candidate_elim (s0 : SiteMap) (us : list url.URL) (k : string) :
  in_domain_candidate s0 k us = true ->
  exists u, u ∈ us /\ url.String u = k /\ validator s0 (url s0) u = true.
Proof.
  unfold in_domain_candidate. intros (u & Hin & Hu)%existsb_exists.
  apply andb_true_iff in Hu as [Hk%bool_decide_eq_true Hv].
  exists u. split; [by apply list_elem_of_In|done].
Qed.

Lemma callers_inv_step s0 us s cs i c s' c' :
  callers_inv s0 us s cs -> cs !! i = Some c -> caller_step s c = Some (s', c') ->
  callers_inv s0 us s' (<[i := c']> cs).
Proof.
  intros [[Hu Hv] Hc Ht Ha Hcs] Hi Hstep.
  assert (c ∈ cs) as Hin by (by eapply list_elem_of_lookup_2).
  pose proof (Hcs c Hin) as Hmine.
  assert (candidate c ∈ us) as Hcand.
  { rewrite <- Hc. by apply list_elem_of_fmap_2. }
  unfold caller_step, appendURL_rlocked, appendURL_locked in Hstep.
  rewrite Hu, Hv in Hstep.
  assert (forall c' (P : Caller -> Prop),
            (forall c0, c0 ∈ cs -> P c0) -> P c' ->
            forall c0, c0 ∈ <[i := c']> cs -> P c0) as Hins.
  { intros c1 P Hold Hnew c0 [j Hj]%list_elem_of_lookup_1.
    apply list_lookup_insert_Some in Hj as [(_ & <- & _)|(_ & Hj)]; [done|].
    apply Hold. by eapply list_elem_of_lookup_2. }
  destruct c as [u|u|u b]; repeat case_in Hstep; simplify_eq/=.
  - constructor; [done|by apply (candidate_insert _ _ (Calling u))| | |].
    + intros k. rewrite (trues_insert _ _ _ _ _ Hi). simpl. rewrite Ht. lia.
    + done.
    + apply Hins; [done|]. by apply negb_true_iff in Heqb as ->.
  - constructor; [done|by apply (candidate_insert _ _ (Calling u))| | |].
    + intros k. rewrite (trues_insert _ _ _ _ _ Hi). simpl. rewrite Ht. lia.
    + done.
    + apply Hins; [done|]. destruct (validator s0 (url s0) u); [|done].
      by apply negb_true_iff, negb_false_iff in Heqb0.
  - constructor; [done|by apply (candidate_insert _ _ (Calling u))| | |].
    + intros k. rewrite (trues_insert _ _ _ _ _ Hi). simpl. rewrite Ht. lia.
    + done.
    + apply Hins; [done|]. by apply negb_false_iff in Heqb.
  - constructor; simpl;
      [done|by apply (candidate_insert _ _ (Rechecking u))| | |].
    + intros k. rewrite (trues_insert _ _ _ _ _ Hi). simpl.
      rewrite siteURLS_get_insert, Ht. specialize (Ht (url.String u)).
      pose proof (trues_nonneg (url.String u) cs).
      destruct (siteURLS_get (siteURLS s) (url.String u)) eqn:Hg; simpl;
        case_bool_decide; subst; simpl; rewrite ?Hg; try lia.
    + intros k. rewrite siteURLS_get_insert.
      intros [Hk%bool_decide_eq_true|Hk]%orb_true_iff; [|by apply Ha].
      subst k. right. by apply in_domain_candidate_intro.
    + apply Hins.
      * intros c0 Hc0. specialize (Hcs c0 Hc0). destruct c0 as [| |u0 b0]; try done.
        destruct (validator s0 (url s0) u0); [|done].
        rewrite siteURLS_get_insert, Hcs. by rewrite orb_true_r.
      * rewrite Hmine, siteURLS_get_insert, bool_decide_eq_true_2; done.
Qed.

Lemma callers_inv_run s0 us sch s cs s' cs' :
  callers_inv s0 us s cs -> callers_run sch s cs = Some (s', cs') ->
  callers_inv s0 us s' cs'.
Proof.
  revert s cs. induction sch as [|i sch IH]; intros s cs Hinv Hrun; simpl in Hrun.
  - by simplify_eq.
  - destruct (cs !! i) as [c|] eqn:Hi; [|done].
    destruct (caller_step s c) as [[s1 c1]|] eqn:Hstep; [|done].
    eapply IH; [|done]. by eapply callers_inv_step.
Qed.

Lemma callers_inv_start (s0 : SiteMap) (us : list url.URL) :
  callers_inv s0 us s0 (Calling <$> us).
Proof.
  constructor; [done| | | |].
  - rewrite <- list_fmap_compose. by rewrite list_fmap_id.
  - intros k. rewrite trues_calling. lia.
  - auto.
  - by intros c (u & -> & _)%list_elem_of_fmap.
Qed.

(** C1. Admission is idempotent. Callers of [appendURL] for the URLs [us],
    two or more, in any interleaving of their locked regions, on a site map
    [s0]: once all have returned, the calls for a URL in the domain whose
    string was not admitted before were answered true exactly once, never
    zero times or more than once. In general the calls answered true for a
    URL string are exactly one if some call was for a URL of that string in
    the domain and the string was not admitted before, and none otherwise;
    the string is then admitted; and a call is answered true only for a URL
    in the domain whose string was not admitted before. *)
Theorem admitted_exactly_once (s0 : SiteMap) (us : list url.URL)
    (sch : list nat) (s : SiteMap) (cs : list Caller) :
  callers_run sch s0 (Calling <$> us) = Some (s, cs) ->
  forallb answered cs = true ->
  (forall k,
     trues k cs
     = (if siteURLS_get (siteURLS s0) k then 0
        else if in_domain_candidate s0 k us then 1 else 0)
     /\ siteURLS_get (siteURLS s) k
        = (siteURLS_get (siteURLS s0) k || in_domain_candidate s0 k us))
  /\ (forall u, Answered u true ∈ cs ->
        validator s0 (url s0) u = true
        /\ siteURLS_get (siteURLS s0) (url.String u) = false
        /\ siteURLS_get (siteURLS s) (url.String u) = true)
  /\ (forall u, u ∈ us ->
        validator s0 (url s0) u = true ->
        siteURLS_get (siteURLS s0) (url.String u) = false ->
        trues (url.String u) cs = 1).
Proof.
  intros Hrun Hall.
  pose proof (callers_inv_run _ _ _ _ _ _ _ (callers_inv_start s0 us) Hrun)
    as [[Hu Hv] Hc Ht Ha Hcs].
  assert (forall k, siteURLS_get (siteURLS s) k
                    = (siteURLS_get (siteURLS s0) k || in_domain_candidate s0 k us))
    as Hget.
  { intros k. pose proof (Ht k) as Htk. pose proof (trues_nonneg k cs).
    destruct (siteURLS_get (siteURLS s) k) eqn:Hs.
    - destruct (Ha k Hs) as [-> | ->]; [done|]. by rewrite orb_true_r.
    - destruct (siteURLS_get (siteURLS s0) k); [lia|]. simpl.
      destruct (in_domain_candidate s0 k us) eqn:Hd; [|done].
      apply in_domain_candidate_elim in Hd as (u & Hin & <- & Hval).
      rewrite <- Hc in Hin. apply list_elem_of_fmap in Hin as (c & -> & Hin).
      pose proof (Hcs c Hin) as Hmine.
      rewrite forallb_forall in Hall.
      specialize (Hall c (proj1 (list_elem_of_In _ _) Hin)).
      destruct c; try done. simpl in *. rewrite Hval in Hmine. congruence. }
  assert (forall k, trues k cs
                    = (if siteURLS_get (siteURLS s0) k then 0
                       else if in_domain_candidate s0 k us then 1 else 0))
    as Hcount.
  { intros k. rewrite Ht, Hget.
    destruct (siteURLS_get (siteURLS s0) k); simpl; [lia|].
    destruct (in_domain_candidate s0 k us); lia. }
  split; [|split].
  - intros k. by split.
  - intros u Hin. pose proof (Hcs _ Hin) as Hmine. simpl in Hmine.
    destruct (validator s0 (url s0) u); [|done]. split; [done|]. split; [|done].
    pose proof (Ht (url.String u)) as Htk. rewrite Hmine in Htk.
    assert (1 <= trues (url.String u) cs); [|destruct (siteURLS_get (siteURLS s0) (url.String u)); [lia|done]].
    by apply trues_elem.
  - intros u Hin Hval Hnew.
    by rewrite Hcount, Hnew, (in_domain_candidate_intro s0 us u Hin Hval).
Qed.

End callers_facts.

(** ** One page read by the only worker *)

Section realAllLinks_facts.

Lemma realAllLinks_done (fuel : nat) (h : list Label) (s : State) (r : LinkReader) :
  workers s = [Closing r] -> realAllLinks fuel h s = Some (h, s).
Proof. intros Hw. destruct fuel; simpl; by rewrite Hw. Qed.

Lemma realAllLinks_step (fuel : nat) (h : list Label) (s : State) (w : Goroutine)
    (l : Label) (s' : State) :
  workers s = [w] -> (forall r, w <> Closing r) ->
  step s (GWorker 0) = Some (l, s') ->
  realAllLinks (S fuel) h s = realAllLinks fuel (l :: h) s'.
Proof.
  intros Hw Hne Hs. simpl. rewrite Hw, Hs.
  destruct w; try done. by destruct (Hne linkReader).
Qed.

(** The end of the page: [Read] returns an error and the loop breaks. *)
Lemma step_Reading_end c lg m t r r' e :
  Read r = (("", Some e), r') ->
  exists l es,
    step (mkState c lg m t [Reading r] None) (GWorker 0)
    = Some (l, mkState c (lg ++ es) m t [Closing r'] None)
    /\ is_send l = false
    /\ filter is_error_entry es = [].
Proof.
  intros Hr. unfold step. simpl. rewrite Hr. unfold proceed. simpl.
  eexists _, _. split; [reflexivity|]. split; [done|].
  by case_bool_decide.
Qed.

(** A link of the page that the validator accepts and that is not in the
    site map: three steps take the worker to the send. *)
Lemma steps_to_Sending c lg m t r r' href ref h fuel :
  Read r = ((href, None), r') ->
  url.Parse href = inl ref ->
  validator (siteMap c) (url (siteMap c)) (url.ResolveReference (pageURL r') ref)
  = true ->
  siteURLS_get (siteURLS (siteMap c))
    (url.String (url.ResolveReference (pageURL r') ref)) = false ->
  exists l1 l2 l3 es,
    realAllLinks (S (S (S fuel))) h (mkState c lg m t [Reading r] None)
    = realAllLinks fuel (l3 :: l2 :: l1 :: h)
        (mkState
           (set_siteURLS (set_accessed c (uint64_incr (accessedPageCount c)))
              (<[url.String (url.ResolveReference (pageURL r') ref) := true]>
                 (siteURLS (siteMap c))))
           (lg ++ es) m t
           [Sending r' (url.ResolveReference (pageURL r') ref)] None)
    /\ is_send l1 = false /\ is_send l2 = false /\ is_send l3 = false
    /\ filter is_error_entry es = [].
Proof.
  intros Hr Hp Hv Hg.
  exists (LRead (pageURL r)
            (negb (done r) && negb (bool_decide (is_Some (response r)))) href None),
    (LRLock (url.ResolveReference (pageURL r') ref) true),
    (LLock (url.ResolveReference (pageURL r') ref) true),
    [Debug "found new page"
       [("page", url.String (url.ResolveReference (pageURL r') ref))]].
  split.
  - erewrite realAllLinks_step; [|reflexivity|done|].
    2:{ unfold step. simpl. rewrite Hr, Hp. simpl. rewrite Hv. simpl.
        unfold proceed. simpl. reflexivity. }
    erewrite realAllLinks_step; [|reflexivity|done|].
    2:{ unfold step. simpl. unfold appendURL_rlocked. simpl. rewrite Hg. simpl.
        unfold proceed. simpl. reflexivity. }
    erewrite realAllLinks_step; [|reflexivity|done|].
    2:{ unfold step. simpl. unfold appendURL_locked. simpl. rewrite Hg. simpl.
        unfold proceed. simpl. reflexivity. }
    by rewrite !app_nil_r.
  - done.
Qed.

Lemma bool_decide_elem_cons (k a : string) (l : list string) :
  bool_decide (k ∈ a :: l) = (bool_decide (a = k) || bool_decide (k ∈ l)).
Proof.
  destruct (decide (a = k)) as [->|Hne].
  - rewrite (bool_decide_eq_true_2 (k = k)) by done. simpl.
    apply bool_decide_eq_true_2. left.
  - rewrite (bool_decide_eq_false_2 (a = k)) by done. simpl.
    apply bool_decide_ext. rewrite elem_of_cons. split; [|by right].
    by intros [->|?].
Qed.

Lemma realAllLinks_reads (r : LinkReader) (hrefs : list string) :
  reads r hrefs ->
  forall (us : list url.URL) (c : DomainCrawler) (lg : list Entry) (m : Main)
         (t : Timer) (h : list Label) (cap : nat),
    pendingURLS_closed c = false ->
    MaxPendingURLS (config c) = Z.of_nat cap ->
    (length (pendingURLS c) <= cap)%nat ->
    Forall2 (resolves_to (pageURL r)) hrefs us ->
    Forall (fun u => validator (siteMap c) (url (siteMap c)) u = true
                     /\ siteURLS_get (siteURLS (siteMap c)) (url.String u) = false)
           us ->
    NoDup (url.String <$> us) ->
    exists fuel h' c' lg' r',
      realAllLinks fuel h (mkState c lg m t [Reading r] None)
      = Some (h', mkState c' lg' m t [Closing r'] None)
      /\ pageURL r' = pageURL r
      /\ pendingURLS c'
         = pendingURLS c ++ take (cap - length (pendingURLS c)) us
      /\ pendingURLS_closed c' = false
      /\ pendingURLSRemaining c'
         = pendingURLSRemaining c
           + Z.of_nat (length (take (cap - length (pendingURLS c)) us))
      /\ occ is_send h'
         = occ is_send h
           + Z.of_nat (length (take (cap - length (pendingURLS c)) us))
      /\ filter is_error_entry lg'
         = filter is_error_entry lg
           ++ (dropped_entry (url.String (pageURL r))
                 <$> drop (cap - length (pendingURLS c)) us)
      /\ (forall k, siteURLS_get (siteURLS (siteMap c')) k
                    = (siteURLS_get (siteURLS (siteMap c)) k
                       || bool_decide (k ∈ url.String <$> us))).
Proof.
  induction 1 as [r r' e Hr|r r' href hrefs Hr Hreads IH];
    intros us c lg m t h cap Hopen Hcap Hroom Hres Hadm Hnd.
  - apply Forall2_nil_inv_l in Hres as ->.
    destruct (step_Reading_end c lg m t r r' e Hr) as (l & es & Hs & Hl & Hes).
    exists 1%nat, (l :: h), c, (lg ++ es), r'.
    split. { erewrite realAllLinks_step; [|reflexivity|done|exact Hs].
             by apply realAllLinks_done with (r := r'). }
    pose proof (Read_pageURL r) as Hpage. rewrite Hr in Hpage.
    split; [done|]. rewrite take_nil, drop_nil, app_nil_r. simpl.
    split; [reflexivity|]. split; [exact Hopen|]. split; [lia|].
    split; [rewrite Hl; lia|]. rewrite filter_app, Hes.
    split; [reflexivity|]. intros k. by rewrite orb_false_r.
  - apply Forall2_cons_inv_l in Hres as (u & us' & (ref & Hp & ->) & Hres & ->).
    apply Forall_cons in Hadm as [[Hv Hg] Hadm].
    apply NoDup_cons in Hnd as [Hnin Hnd].
    pose proof (Read_pageURL r) as Hpage. rewrite Hr in Hpage. simpl in Hpage.
    rewrite <- Hpage in Hres.
    set (u := url.ResolveReference (pageURL r) ref) in *.
    set (c3 := set_siteURLS (set_accessed c (uint64_incr (accessedPageCount c)))
                 (<[url.String u := true]> (siteURLS (siteMap c)))).
    assert (Forall (fun u' => validator (siteMap c3) (url (siteMap c3)) u' = true
              /\ siteURLS_get (siteURLS (siteMap c3)) (url.String u') = false) us')
      as Hadm3.
    { apply Forall_forall. intros u' Hin.
      rewrite Forall_forall in Hadm. destruct (Hadm u' Hin) as [Hv' Hg'].
      split; [done|]. simpl. rewrite siteURLS_get_insert, Hg', orb_false_r.
      apply bool_decide_eq_false_2. intros Heq. apply Hnin.
      rewrite Heq. by apply list_elem_of_fmap_2. }
    destruct (Z.ltb_spec (Z.of_nat (length (pendingURLS c))) (Z.of_nat cap))
      as [Hlt|Hge].
    + (* the channel accepts the URL *)
      set (c5 := set_remaining (set_pendingURLS c3 (pendingURLS c ++ [u]))
                   (pendingURLSRemaining c + 1)).
      destruct (IH us' c5
                  ((lg ++ [Debug "found new page" [("page", url.String u)]])
                   ++ [Debug "page appended to channel" [("page", url.String u)]])
                  m t
                  (LAdd :: LSend u :: LLock u true :: LRLock u true
                   :: LRead (pageURL r)
                        (negb (done r) && negb (bool_decide (is_Some (response r))))
                        href None :: h)
                  cap)
        as (fuel & h' & c' & lg' & r'' & Hrun & Hp' & Hq & Hcl & Hwg & Hsend
            & Hlog & Hmap); try done.
      { simpl. rewrite length_app. simpl. lia. }
      exists (S (S (S (S (S fuel))))), h', c', lg', r''.
      split.
      {          erewrite realAllLinks_step; [|reflexivity|done|].
        2:{ unfold step. simpl. rewrite Hr, Hp. simpl. rewrite Hpage. fold u.
            rewrite Hv. simpl.
            unfold proceed. simpl. reflexivity. }
        erewrite realAllLinks_step; [|reflexivity|done|].
        2:{ unfold step. simpl. unfold appendURL_rlocked. simpl. rewrite Hg. simpl.
            unfold proceed. simpl. reflexivity. }
        erewrite realAllLinks_step; [|reflexivity|done|].
        2:{ unfold step. simpl. unfold appendURL_locked. simpl. rewrite Hg. simpl.
            unfold proceed. simpl. reflexivity. }
        erewrite realAllLinks_step; [|reflexivity|done|].
        2:{ unfold step. simpl. rewrite Hopen, Hcap.
            rewrite (proj2 (Z.ltb_lt _ _) Hlt). unfold proceed. simpl. reflexivity. }
        erewrite realAllLinks_step; [|reflexivity|done|].
        2:{ unfold step. simpl. unfold proceed. simpl. reflexivity. }
        rewrite <- Hrun. rewrite !app_nil_r. reflexivity. }
      rewrite Hpage in Hp', Hlog.
      simpl in Hq, Hwg, Hsend, Hlog, Hmap. rewrite length_app in *. simpl in *.
      replace (cap - length (pendingURLS c))%nat
        with (S (cap - (length (pendingURLS c) + 1)))%nat by lia.
      simpl. rewrite Hq, <- app_assoc. simpl.
      split; [done|]. split; [done|]. split; [done|]. split; [lia|]. split; [lia|].
      split.
      { rewrite Hlog, !filter_app. simpl. by rewrite !app_nil_r. }
      intros k. rewrite Hmap. simpl.
      rewrite siteURLS_get_insert, bool_decide_elem_cons.
      by destruct (siteURLS_get (siteURLS (siteMap c)) k),
           (bool_decide (url.String u = k)).
    + (* the channel is full: the URL is dropped *)
      destruct (IH us' c3
                  ((lg ++ [Debug "found new page" [("page", url.String u)]])
                   ++ [dropped_entry (url.String (pageURL r)) u])
                  m t
                  (LDrop u :: LLock u true :: LRLock u true
                   :: LRead (pageURL r)
                        (negb (done r) && negb (bool_decide (is_Some (response r))))
                        href None :: h)
                  cap)
        as (fuel & h' & c' & lg' & r'' & Hrun & Hp' & Hq & Hcl & Hwg & Hsend
            & Hlog & Hmap); try done.
      exists (S (S (S (S fuel)))), h', c', lg', r''.
      split.
      { erewrite realAllLinks_step; [|reflexivity|done|].
        2:{ unfold step. simpl. rewrite Hr, Hp. simpl. rewrite Hpage. fold u.
            rewrite Hv. simpl.
            unfold proceed. simpl. reflexivity. }
        erewrite realAllLinks_step; [|reflexivity|done|].
        2:{ unfold step. simpl. unfold appendURL_rlocked. simpl. rewrite Hg. simpl.
            unfold proceed. simpl. reflexivity. }
        erewrite realAllLinks_step; [|reflexivity|done|].
        2:{ unfold step. simpl. unfold appendURL_locked. simpl. rewrite Hg. simpl.
            unfold proceed. simpl. reflexivity. }
        erewrite realAllLinks_step; [|reflexivity|done|].
        2:{ unfold step. simpl. rewrite Hopen, Hcap.
            rewrite (proj2 (Z.ltb_ge _ _) Hge). unfold proceed. simpl. reflexivity. }
        rewrite <- Hrun. rewrite !app_nil_r. unfold LinkReader_URL.
        rewrite Hpage. reflexivity. }
      rewrite Hpage in Hp', Hlog.
      simpl in Hq, Hwg, Hsend, Hlog, Hmap.
      replace (cap - length (pendingURLS c))%nat with 0%nat in * by lia.
      simpl in *. rewrite drop_0 in Hlog.
      split; [done|]. split; [done|]. split; [done|]. split; [lia|]. split; [lia|].
      split.
      { rewrite Hlog, !filter_app. simpl. rewrite !app_nil_r.
        by rewrite <- app_assoc. }
      intros k. rewrite Hmap. simpl.
      rewrite siteURLS_get_insert, bool_decide_elem_cons.
      by destruct (siteURLS_get (siteURLS (siteMap c)) k),
           (bool_decide (url.String u = k)).
Qed.

End realAllLinks_facts.

Section backpressure_facts.

Lemma realAllLinks_more_fuel (fuel : nat) (h : list Label) (s : State)
    (res : list Label * State) :
  realAllLinks fuel h s = Some res -> realAllLinks (S fuel) h s = Some res.
Proof.
  revert h s. induction fuel as [|fuel IH]; intros h s Hrun.
  - simpl in *. by repeat case_match.
  - cbn [realAllLinks] in Hrun |- *.
    destruct (workers s) as [|[] [|]]; try done;
      (destruct (step s (GWorker 0)) as [[l0 s1]|]; [|done]); by apply IH.
Qed.

Lemma realAllLinks_fuel_le (fuel fuel' : nat) (h : list Label) (s : State)
    (res : list Label * State) :
  (fuel <= fuel')%nat -> realAllLinks fuel h s = Some res ->
  realAllLinks fuel' h s = Some res.
Proof.
  induction 1 as [|fuel' _ IH]; [done|]. intros Hrun.
  by apply realAllLinks_more_fuel, IH.
Qed.

(** The result of [realAllLinks] does not depend on the fuel. *)
Lemma realAllLinks_deterministic (fuel fuel' : nat) (h : list Label) (s : State)
    (res res' : list Label * State) :
  realAllLinks fuel h s = Some res -> realAllLinks fuel' h s = Some res' ->
  res = res'.
Proof.
  intros H1 H2.
  apply (realAllLinks_fuel_le _ (fuel `max` fuel')) in H1; [|lia].
  apply (realAllLinks_fuel_le _ (fuel `max` fuel')) in H2; [|lia].
  congruence.
Qed.

(** The page of [offering], read to its end. *)
Lemma realAllLinks_offering (s : State) (h : list Label) (r : LinkReader)
    (us : list url.URL) (cap : nat) :
  offering s r us cap ->
  exists fuel h' s' r',
    realAllLinks fuel h s = Some (h', s')
    /\ workers s' = [Closing r'] /\ panicked s' = None
    /\ pendingURLS (crawler s')
       = pendingURLS (crawler s)
         ++ take (cap - length (pendingURLS (crawler s))) us
    /\ pendingURLSRemaining (crawler s')
       = pendingURLSRemaining (crawler s)
         + Z.of_nat (length (take (cap - length (pendingURLS (crawler s))) us))
    /\ occ is_send h'
       = occ is_send h
         + Z.of_nat (length (take (cap - length (pendingURLS (crawler s))) us))
    /\ filter is_error_entry (logged s')
       = filter is_error_entry (logged s)
         ++ (dropped_entry (url.String (pageURL r))
               <$> drop (cap - length (pendingURLS (crawler s))) us)
    /\ (forall u, u ∈ us ->
          siteURLS_get (siteURLS (siteMap (crawler s'))) (url.String u) = true).
Proof.
  intros [Hw Hp Hopen Hcap Hroom (hrefs & Hreads & Hres) Hadm Hnd].
  destruct s as [c lg m t ws p]. simpl in *. subst ws p.
  destruct (realAllLinks_reads r hrefs Hreads us c lg m t h cap
              Hopen Hcap Hroom Hres Hadm Hnd)
    as (fuel & h' & c' & lg' & r' & Hrun & _ & Hq & _ & Hwg & Hsend & Hlog & Hmap).
  exists fuel, h', (mkState c' lg' m t [Closing r'] None), r'.
  repeat (split; [done|]). intros u Hin. rewrite Hmap.
  rewrite (bool_decide_eq_true_2 (url.String u ∈ url.String <$> us)).
  - by rewrite orb_true_r.
  - by apply list_elem_of_fmap_2.
Qed.

End backpressure_facts.

(** ** The bounded push *)

Section push_facts.

(** The [select] of [realAllLinks] on an open channel: with room, the URL
    is appended to the channel and the next step of the goroutine is the
    [Add] of one unit; without room nothing changes but the log, and the
    goroutine goes on to read the next link. It never has to wait. *)
Lemma Sending_step (s : State) (i : nat) (r : LinkReader) (u : url.URL) :
  workers s !! i = Some (Sending r u) ->
  panicked s = None ->
  pendingURLS_closed (crawler s) = false ->
  if Z.of_nat (length (pendingURLS (crawler s))) <? MaxPendingURLS (config (crawler s))
  then
    exists s1 s2,
      step s (GWorker i) = Some (LSend u, s1)
      /\ pendingURLS (crawler s1) = pendingURLS (crawler s) ++ [u]
      /\ pendingURLSRemaining (crawler s1) = pendingURLSRemaining (crawler s)
      /\ workers s1 !! i = Some (Adding r)
      /\ step s1 (GWorker i) = Some (LAdd, s2)
      /\ pendingURLSRemaining (crawler s2) = pendingURLSRemaining (crawler s1) + 1
      /\ pendingURLS (crawler s2) = pendingURLS (crawler s1)
      /\ workers s2 !! i = Some (Reading r)
  else
    exists s1,
      step s (GWorker i) = Some (LDrop u, s1)
      /\ crawler s1 = crawler s
      /\ logged s1 = logged s ++ [dropped_entry (LinkReader_URL r) u]
      /\ workers s1 !! i = Some (Reading r).
Proof.
  intros Hw Hp Hopen. destruct s as [c lg m t ws p]. simpl in *. subst p.
  assert (i < length ws)%nat as Hi by (by eapply lookup_lt_Some).
  destruct (_ <? _) eqn:Hroom.
  - eexists _, _. unfold step. simpl. rewrite Hw. simpl.
    rewrite Hopen, Hroom. unfold proceed. simpl.
    split; [reflexivity|]. simpl. split; [done|]. split; [done|].
    rewrite list_lookup_insert_eq by done. split; [done|]. simpl.
    split; [reflexivity|]. simpl. split; [done|]. split; [done|].
    by rewrite list_lookup_insert_eq by (by rewrite length_insert).
  - eexists. unfold step. simpl. rewrite Hw. simpl.
    rewrite Hopen, Hroom. unfold proceed. simpl.
    split; [reflexivity|]. simpl. split; [done|]. split; [done|].
    by rewrite list_lookup_insert_eq.
Qed.

(** C3, as the code has it. The push of [realAllLinks] never waits: on an
    open channel with room it appends the URL and then adds exactly one
    unit to the wait group; without room it only logs the drop. After a
    drop no step of the run sends, drops or receives a URL of that string
    again. And in a crawl with one worker, a page offering admissible,
    different links while the channel holds [p] of its [cap] entries has
    the first [cap - p] links sent, one unit added for each, and the
    others dropped and logged, the loop ending without a panic: for
    [cap + k] links on an empty channel, [cap] are kept and [k] dropped. *)
Theorem bounded_push :
  (forall (s : State) (i : nat) (r : LinkReader) (u : url.URL),
     workers s !! i = Some (Sending r u) ->
     panicked s = None ->
     pendingURLS_closed (crawler s) = false ->
     if Z.of_nat (length (pendingURLS (crawler s)))
        <? MaxPendingURLS (config (crawler s))
     then
       exists s1 s2,
         step s (GWorker i) = Some (LSend u, s1)
         /\ pendingURLS (crawler s1) = pendingURLS (crawler s) ++ [u]
         /\ pendingURLSRemaining (crawler s1) = pendingURLSRemaining (crawler s)
         /\ workers s1 !! i = Some (Adding r)
         /\ step s1 (GWorker i) = Some (LAdd, s2)
         /\ pendingURLSRemaining (crawler s2)
            = pendingURLSRemaining (crawler s1) + 1
         /\ pendingURLS (crawler s2) = pendingURLS (crawler s1)
         /\ workers s2 !! i = Some (Reading r)
     else
       exists s1,
         step s (GWorker i) = Some (LDrop u, s1)
         /\ crawler s1 = crawler s
         /\ logged s1 = logged s ++ [dropped_entry (LinkReader_URL r) u]
         /\ workers s1 !! i = Some (Reading r))
  /\ (forall (root0 : url.URL) (config0 : Config) (dc : DomainCrawler)
             (sch : list Gid) (h h2 h1 : list Label) (s : State) (u : url.URL),
        NewDomainCrawler root0 config0 = inl dc ->
        Crawl sch dc = Some (h, s) ->
        h = h2 ++ LDrop u :: h1 ->
        forall l, l ∈ h2 -> handles (url.String u) l = false)
  /\ (forall (s : State) (h : list Label) (r : LinkReader) (us : list url.URL)
             (cap : nat),
        offering s r us cap ->
        exists fuel h' s' r',
          realAllLinks fuel h s = Some (h', s')
          /\ workers s' = [Closing r'] /\ panicked s' = None
          /\ pendingURLS (crawler s')
             = pendingURLS (crawler s)
               ++ take (cap - length (pendingURLS (crawler s))) us
          /\ pendingURLSRemaining (crawler s')
             = pendingURLSRemaining (crawler s)
               + Z.of_nat
                   (length (take (cap - length (pendingURLS (crawler s))) us))
          /\ occ is_send h'
             = occ is_send h
               + Z.of_nat
                   (length (take (cap - length (pendingURLS (crawler s))) us))
          /\ filter is_error_entry (logged s')
             = filter is_error_entry (logged s)
               ++ (dropped_entry (url.String (pageURL r))
                     <$> drop (cap - length (pendingURLS (crawler s))) us)
          /\ (forall u, u ∈ us ->
                siteURLS_get (siteURLS (siteMap (crawler s'))) (url.String u)
                = true)
          /\ (forall k, pendingURLS (crawler s) = [] ->
                length us = (cap + k)%nat ->
                length (pendingURLS (crawler s')) = cap
                /\ length (filter is_error_entry (logged s'))
                   = (length (filter is_error_entry (logged s)) + k)%nat)).
Proof.
  split; [exact Sending_step|]. split.
  - intros root0 config0 dc sch h h2 h1 s u Hn Hr Hh l Hl.
    destruct (NewDomainCrawler_inv _ _ _ Hn) as (v & _ & Hv & _).
    destruct (overflow_run _ _ _ _ _ _ _ Hn Hv Hr) as [Hf _].
    apply list_elem_of_split in Hl as (a & b & ->).
    eapply (fr_after_drop _ _ _ _ Hf a l (b ++ LDrop u :: h1)).
    + by rewrite Hh, <- app_assoc.
    + apply elem_of_app. right. left.
  - intros s h r us cap Hoff.
    destruct (realAllLinks_offering s h r us cap Hoff)
      as (fuel & h' & s' & r' & Hrun & Hw & Hp & Hq & Hwg & Hsend & Hlog & Hmap).
    exists fuel, h', s', r'. repeat (split; [done|]).
    intros k Hempty Hlen. rewrite Hq, Hlog, Hempty. simpl.
    rewrite Nat.sub_0_r, length_app, length_fmap, length_take, length_drop.
    lia.
Qed.

End push_facts.


Section backpressure_counterexample.

Let page_a := url.mkURL "http" "" "example.com" "/a" false false "" "".
Let dc2 := example_crawler backlog_site [SetMaxConcurrency 1; SetMaxPendingURLS 2].
Let s0 := state_after (replicate 17 (GWorker 0)) dc2.
Let r0 := NewLinkReader page_a (site_client backlog_site).
Let us0 :=
  [url.mkURL "http" "" "example.com" "/x" false false "" "";
   url.mkURL "http" "" "example.com" "/y" false false "" "";
   url.mkURL "http" "" "example.com" "/z" false false "" ""].

Let resp_a := page_of page_a ["/x"; "/y"; "/z"].
Let reader_at (doc : list string) : LinkReader :=
  mkLinkReader (site_client backlog_site) page_a (Some (resp_a, anchor <$> doc)) false.

Lemma busy_backlog_offering : offering s0 r0 us0 2.
Proof.
  constructor.
  - reflexivity.
  - reflexivity.
  - reflexivity.
  - reflexivity.
  - vm_compute; lia.
  - exists ["/x"; "/y"; "/z"]. split.
    + apply (reads_next r0 (reader_at ["/y"; "/z"])); [reflexivity|].
      apply (reads_next _ (reader_at ["/z"])); [reflexivity|].
      apply (reads_next _ (reader_at [])); [reflexivity|].
      apply (reads_end _ (reader_at []) EOF); reflexivity.
    + unfold us0.
      (apply Forall2_cons; split;
        [exists (url.mkURL "" "" "" "/x" false false "" ""); split; reflexivity|]).
      apply Forall2_cons; split;
        [exists (url.mkURL "" "" "" "/y" false false "" ""); split; reflexivity|].
      apply Forall2_cons; split;
        [exists (url.mkURL "" "" "" "/z" false false "" ""); split; reflexivity|].
      apply Forall2_nil_2.
  - unfold us0. (repeat (apply Forall_cons; split; [split; reflexivity|])). apply Forall_nil_2.
  - apply (bool_decide_unpack _); vm_compute; reflexivity.
Qed.

(** The page [/a] of that crawl is read to its end without a panic. *)
Lemma bounded_push_witness :
  exists fuel h' s' r',
    realAllLinks fuel [] s0 = Some (h', s')
    /\ workers s' = [Closing r'] /\ panicked s' = None
    /\ pendingURLS (crawler s')
       = pendingURLS (crawler s0)
         ++ take (2 - length (pendingURLS (crawler s0))) us0.
Proof.
  destruct (proj2 (proj2 bounded_push) s0 [] r0 us0 2%nat busy_backlog_offering)
    as (fuel & h' & s' & r' & Hrun & Hw & Hp & Hq & _).
  exists fuel, h', s', r'. exact (conj Hrun (conj Hw (conj Hp Hq))).
Defined.

(** C3, as stated, fails: with capacity 2 and one worker, the page [/a]
    offers three admissible links while the channel still holds [/b]; one
    link is sent and two are dropped, not two and one. *)
Lemma backpressure_counts_the_backlog : ~ backpressure_as_stated.
Proof.
  intros H.
  destruct (H s0 [] r0 us0 2%nat 1%nat busy_backlog_offering eq_refl ltac:(lia))
    as (fuel & h' & s' & Hrun & _ & Hlog).
  destruct (realAllLinks_offering s0 [] r0 us0 2 busy_backlog_offering)
    as (fuel0 & h0 & s1 & r' & Hrun0 & _ & _ & _ & _ & _ & Hlog0 & _).
  pose proof (realAllLinks_deterministic _ _ _ _ _ _ Hrun Hrun0) as Heq.
  injection Heq as -> ->.
  assert (length (pendingURLS (crawler s0)) = 1%nat) as Hp by (by vm_compute).
  rewrite Hlog0, length_app, length_fmap, Hp in Hlog. simpl in Hlog. lia.
Qed.

End backpressure_counterexample.

(** ** Example runs *)

Lemma Crawl_after (sch : list Gid) (dc : DomainCrawler) :
  runs sch dc = true ->
  Crawl sch dc = Some (history_after sch dc, state_after sch dc).
Proof.
  unfold runs, history_after, state_after.
  by destruct (Crawl sch dc) as [[h s]|].
Qed.

Lemma interleaved_runs :
  Crawl interleaved two_workers
  = Some (history_after interleaved two_workers, state_after interleaved two_workers).
Proof. apply Crawl_after. vm_compute. reflexivity. Qed.

Lemma through_a_runs :
  Crawl through_a narrow
  = Some (history_after through_a narrow, state_after through_a narrow).
Proof. apply Crawl_after. vm_compute. reflexivity. Qed.

Lemma leaf_overtakes_runs :
  Crawl leaf_overtakes racing
  = Some (history_after leaf_overtakes racing, state_after leaf_overtakes racing).
Proof. apply Crawl_after. vm_compute. reflexivity. Qed.

(** Two callers for [/about] on a fresh site map, both past the read-locked
    check before either takes the lock: one is answered true. *)
Lemma admitted_exactly_once_witness :
  trues (url.String about) [Answered about true; Answered about false] = 1.
Proof.
  refine (proj2 (proj2
            (admitted_exactly_once (NewSiteMap example_root ValidateHosts)
               [about; about] [0; 1; 0; 1]%nat
               (mkSiteMap example_root
                  (<["http://example.com/about" := true]>
                     (<["http://example.com/about" := true]> ∅))
                  ValidateHosts)
               [Answered about true; Answered about false]
               eq_refl eq_refl)) about _ eq_refl eq_refl).
  left.
Defined.

(** [appendURL] is one caller run alone. *)
Lemma appendURL_alone (s : SiteMap) (u : url.URL) :
  exists sch,
    callers_run sch s [Calling u]
    = Some ((appendURL s u).2, [Answered u (appendURL s u).1]).
Proof.
  unfold appendURL, appendURL_rlocked, appendURL_locked.
  destruct (validator s (url s) u) eqn:Hv; simpl.
  - destruct (siteURLS_get (siteURLS s) (url.String u)) eqn:Hg; simpl.
    + exists [0%nat]. simpl. unfold appendURL_rlocked. by rewrite Hv, Hg.
    + exists [0; 0]%nat. simpl. unfold appendURL_rlocked, appendURL_locked.
      rewrite Hv, Hg. simpl. by rewrite Hg.
  - exists [0%nat]. simpl. unfold appendURL_rlocked. by rewrite Hv.
Qed.

(** The crawl of two workers, at its end. *)
Lemma outstanding_work_balanced_witness :
  pendingURLSRemaining (crawler (state_after interleaved two_workers))
  = 1 + occ is_add (history_after interleaved two_workers)
    - occ is_done (history_after interleaved two_workers)
  /\ occ is_send (history_after interleaved two_workers)
     = occ is_add (history_after interleaved two_workers)
       + total owes (workers (state_after interleaved two_workers)).
Proof.
  pose proof (outstanding_work_balanced example_root
                (NewConfig (site_client no_backlink_site) [SetMaxConcurrency 2])
                two_workers interleaved _ _ eq_refl interleaved_runs) as H.
  exact (conj (proj1 (proj2 H)) (proj1 (proj2 (proj2 H)))).
Defined.

Lemma interleaved_counts :
  pendingURLSRemaining (crawler (state_after interleaved two_workers)) = 0
  /\ occ is_send (history_after interleaved two_workers) = 1
  /\ occ is_add (history_after interleaved two_workers) = 1
  /\ occ is_recv (history_after interleaved two_workers) = 2
  /\ occ is_done (history_after interleaved two_workers) = 2
  /\ occ is_close (history_after interleaved two_workers) = 1
  /\ rendered (siteMap (crawler (state_after interleaved two_workers)))
     = ["http://example.com/about"].
Proof. repeat split; vm_compute; reflexivity. Qed.

Lemma interleaved_returned :
  main (state_after interleaved two_workers) = Returning None.
Proof. vm_compute. reflexivity. Qed.

(** The crawl of two workers returned the site map: a link was read. *)
Lemma Crawl_fails_iff_no_link_read_witness :
  accessedPageCount (crawler (state_after interleaved two_workers))
  = accessed_after (history_after interleaved two_workers).
Proof.
  exact (proj1 (Crawl_fails_iff_no_link_read example_root
                  (NewConfig (site_client no_backlink_site) [SetMaxConcurrency 2])
                  two_workers interleaved _ _ None
                  eq_refl interleaved_runs interleaved_returned)).
Defined.

(** A root that answers with a page without links: [Crawl] reports it as
    inaccessible, although the page was fetched and read to its end. *)
Lemma page_without_links_is_inaccessible :
  Crawl_result (state_after (solo 5) (example_crawler bare_site [SetMaxConcurrency 1]))
  = Some (inr (Errorf "unable to access url http://example.com"))
  /\ LRead example_root true "" (Some EOF)
     ∈ history_after (solo 5) (example_crawler bare_site [SetMaxConcurrency 1]).
Proof.
  split; [vm_compute; reflexivity|].
  apply (bool_decide_unpack _). vm_compute. reflexivity.
Qed.

Lemma through_a_drops_y : LDrop page_y ∈ history_after through_a narrow.
Proof. apply (bool_decide_unpack _). vm_compute. reflexivity. Qed.

Lemma through_a_rendered :
  rendered (siteMap (crawler (state_after through_a narrow)))
  = ["http://example.com/a"; "http://example.com/b"; "http://example.com/x";
     "http://example.com/y"; "http://example.com/z"]
  /\ pendingURLS (crawler (state_after through_a narrow))
     = [url.mkURL "http" "" "example.com" "/b" false false "" "";
        url.mkURL "http" "" "example.com" "/x" false false "" ""].
Proof. split; vm_compute; reflexivity. Qed.

(** On the site without a link back, the root is seeded and the site map
    starts empty. *)
Lemma root_enters_only_through_a_link_witness :
  pendingURLS two_workers = [example_root]
  /\ siteURLS (siteMap two_workers) = ∅.
Proof.
  pose proof (root_enters_only_through_a_link example_root
                (NewConfig (site_client no_backlink_site) [SetMaxConcurrency 2])
                two_workers interleaved _ _ eq_refl interleaved_runs) as H.
  exact (conj (proj1 H) (proj1 (proj2 H))).
Defined.

(** The home page of that site is crawled and yet not in the site map. *)
Lemma root_not_rendered_without_backlink :
  LOpen example_root ∈ history_after interleaved two_workers
  /\ rendered (siteMap (crawler (state_after interleaved two_workers)))
     = ["http://example.com/about"]
  /\ url.String example_root
     ∉ rendered (siteMap (crawler (state_after interleaved two_workers))).
Proof.
  split; [apply (bool_decide_unpack _); vm_compute; reflexivity|].
  split; [vm_compute; reflexivity|].
  apply (bool_decide_unpack _). vm_compute. reflexivity.
Qed.

(** With two workers a send can be counted after the receive it enables is
    done: the counter reaches zero while the first worker is between its
    send of [/leaf] and its [Add]; [Crawl] returns and closes the channel,
    and the first worker's next send panics. *)
Lemma send_before_Add_race :
  LReturn None ∈ history_after leaf_overtakes racing
  /\ LClose ∈ history_after leaf_overtakes racing
  /\ head (history_after leaf_overtakes racing)
     = Some (LPanic "send on closed channel")
  /\ panicked (state_after leaf_overtakes racing)
     = Some "send on closed channel".
Proof.
  split; [apply (bool_decide_unpack _); vm_compute; reflexivity|].
  split; [apply (bool_decide_unpack _); vm_compute; reflexivity|].
  split; vm_compute; reflexivity.
Qed.

(** ** The configuration that [NewConfig] builds *)

Section NewConfig_facts.

Lemma NewConfig_applied (transport : Client) (options : list Option) :
  NewConfig transport options
  = mkConfig (MaxConcurrency (applied options)) (MaxPendingURLS (applied options))
      (CrawlTimeout (applied options)) (KeepAlive (applied options))
      (Timeout (applied options))
      (Some (default transport (Client_ (applied options))))
      (Some (default NewProduction (Logger_ (applied options))))
      (Some (default ValidateHosts (DomainValidator_ (applied options)))).
Proof.
  unfold NewConfig. fold (applied options).
  destruct (applied options) as [a b c d e [cl|] [lg|] [dv|]]; reflexivity.
Qed.

Lemma applied_snoc (options : list Option) (opt : Option) :
  applied (options ++ [opt]) = opt (applied options).
Proof. unfold applied. by rewrite fold_left_app. Qed.

(** X1. Whatever the options, [NewConfig] returns a configuration whose
    client, logger and domain validator are set: one that an option left
    nil, or set to nil, is the default (the default client, the production
    logger, [ValidateHosts]), and one that the options set is kept; the
    numbers are those the options left. So [Validate] never reports a
    missing collaborator for a configuration of [NewConfig]. *)
Theorem NewConfig_collaborators_defined (transport : Client) (options : list Option) :
  Client_ (NewConfig transport options)
  = Some (default transport (Client_ (applied options)))
  /\ Logger_ (NewConfig transport options)
     = Some (default NewProduction (Logger_ (applied options)))
  /\ DomainValidator_ (NewConfig transport options)
     = Some (default ValidateHosts (DomainValidator_ (applied options)))
  /\ MaxConcurrency (NewConfig transport options) = MaxConcurrency (applied options)
  /\ MaxPendingURLS (NewConfig transport options) = MaxPendingURLS (applied options)
  /\ CrawlTimeout (NewConfig transport options) = CrawlTimeout (applied options)
  /\ KeepAlive (NewConfig transport options) = KeepAlive (applied options)
  /\ Timeout (NewConfig transport options) = Timeout (applied options)
  /\ Validate (NewConfig transport options)
     <> Some (Errorf "config.Client must be defined")
  /\ Validate (NewConfig transport options)
     <> Some (Errorf "config.Logger must be defined")
  /\ Validate (NewConfig transport options)
     <> Some (Errorf "config.DomainValidator must be defined").
Proof.
  rewrite NewConfig_applied. simpl. repeat (split; [reflexivity|]).
  unfold Validate. simpl.
  repeat match goal with |- context [if ?b then _ else _] => destruct b end;
    repeat split; discriminate.
Qed.

(** X2. The options are applied in order, so the last one for a field
    decides: a final [SetMaxConcurrency], [SetMaxPendingURLS],
    [SetCrawlTimeout], [SetKeepAlive] or [SetTimeout] gives the field its
    value whatever came before; a final [SetClient], [SetLogger] or
    [SetDomainValidator] with a value installs it, and with nil brings the
    default back even if an earlier option had set one. *)
Theorem NewConfig_last_option_wins (transport : Client) (options : list Option) :
  (forall n, MaxConcurrency (NewConfig transport (options ++ [SetMaxConcurrency n])) = n)
  /\ (forall n, MaxPendingURLS (NewConfig transport (options ++ [SetMaxPendingURLS n])) = n)
  /\ (forall d, CrawlTimeout (NewConfig transport (options ++ [SetCrawlTimeout d])) = d)
  /\ (forall d, KeepAlive (NewConfig transport (options ++ [SetKeepAlive d])) = d)
  /\ (forall d, Timeout (NewConfig transport (options ++ [SetTimeout d])) = d)
  /\ (forall c, Client_ (NewConfig transport (options ++ [SetClient c]))
                = Some (default transport c))
  /\ (forall l, Logger_ (NewConfig transport (options ++ [SetLogger l]))
                = Some (default NewProduction l))
  /\ (forall v, DomainValidator_ (NewConfig transport (options ++ [SetDomainValidator v]))
                = Some (default ValidateHosts v)).
Proof.
  repeat split; intros x; rewrite NewConfig_applied, applied_snoc; reflexivity.
Qed.

(** X3. [CrawlDomainWithURL] returns a configuration error exactly when the
    concurrency or the capacity is not positive or the keep-alive or the
    request timeout is negative; the error is that of the first of these
    checks that fails, no crawler is built and no request is sent. Otherwise
    the crawl starts, on a crawler seeded with the root; the crawl timeout,
    the client, the logger and the validator never make it fail. *)
Theorem CrawlDomainWithURL_config_error (transport : Client) (sch : list Gid)
    (root0 : url.URL) (opts : list Option) :
  ((exists e, CrawlDomainWithURL transport sch root0 opts = inl e)
   <-> (MaxConcurrency (NewConfig transport opts) <= 0
        \/ MaxPendingURLS (NewConfig transport opts) <= 0
        \/ KeepAlive (NewConfig transport opts) < 0
        \/ Timeout (NewConfig transport opts) < 0))
  /\ (forall e, CrawlDomainWithURL transport sch root0 opts = inl e ->
        fetches (CrawlDomainWithURL transport sch root0 opts) = []
        /\ (MaxConcurrency (NewConfig transport opts) <= 0 ->
            e = Errorf "config.MaxConcurrency must be greater than 0")
        /\ (0 < MaxConcurrency (NewConfig transport opts) ->
            MaxPendingURLS (NewConfig transport opts) <= 0 ->
            e = Errorf "config.MaxPendingURLS must be greater than 0")
        /\ (0 < MaxConcurrency (NewConfig transport opts) ->
            0 < MaxPendingURLS (NewConfig transport opts) ->
            KeepAlive (NewConfig transport opts) < 0 ->
            e = Errorf "config.KeepAlive duration should be >= 0s")
        /\ (0 < MaxConcurrency (NewConfig transport opts) ->
            0 < MaxPendingURLS (NewConfig transport opts) ->
            0 <= KeepAlive (NewConfig transport opts) ->
            Timeout (NewConfig transport opts) < 0 ->
            e = Errorf "config.Timeout duration should be >= 0s"))
  /\ (forall r, CrawlDomainWithURL transport sch root0 opts = inr r ->
        exists dc,
          NewDomainCrawler root0 (NewConfig transport opts) = inl dc
          /\ r = Crawl sch dc
          /\ root dc = root0 /\ pendingURLS dc = [root0]
          /\ config dc = NewConfig transport opts).
Proof.
  unfold CrawlDomainWithURL, NewDomainCrawler.
  rewrite NewConfig_applied. unfold Validate. simpl.
  destruct (Z.leb_spec (MaxConcurrency (applied opts)) 0);
    [split; [split; [intros _; lia|by eexists]|
             split; [intros e [= <-]; repeat split; try done; intros; lia|done]]|].
  destruct (Z.leb_spec (MaxPendingURLS (applied opts)) 0);
    [split; [split; [intros _; lia|by eexists]|
             split; [intros e [= <-]; repeat split; try done; intros; lia|done]]|].
  destruct (Z.ltb_spec (KeepAlive (applied opts)) 0);
    [split; [split; [intros _; lia|by eexists]|
             split; [intros e [= <-]; repeat split; try done; intros; lia|done]]|].
  destruct (Z.ltb_spec (Timeout (applied opts)) 0);
    [split; [split; [intros _; lia|by eexists]|
             split; [intros e [= <-]; repeat split; try done; intros; lia|done]]|].
  simpl. split; [split; [by intros [e He]|lia]|]. split; [done|].
  intros r [= <-]. by eexists.
Qed.

End NewConfig_facts.

(** ** Admission and rendering together *)

Section rendering_after_admission.

(** X4. On a site map whose entries are all true (as every site map of the
    package is), [appendURL] keeps the entries all true, and what [WriteMap]
    writes afterwards is what it wrote before with the string of the URL
    added as one more line, at its place in the order, exactly when
    [appendURL] returned true; the string was on no line before. After a
    call for a URL in the domain the string is on a line, whatever the call
    returned. *)
Theorem appendURL_then_WriteMap (s : SiteMap) (u : url.URL) (out : string) :
  (forall k b, siteURLS s !! k = Some b -> b = true) ->
  (forall k b, siteURLS (appendURL s u).2 !! k = Some b -> b = true)
  /\ WriteMap (appendURL s u).2 out
     = ((appendURL s u).2, out +:+ lines (rendered (appendURL s u).2))
  /\ rendered (appendURL s u).2
     ≡ₚ (if (appendURL s u).1 then [url.String u] else []) ++ rendered s
  /\ StronglySorted String.le (rendered (appendURL s u).2)
  /\ ((appendURL s u).1 = true -> url.String u ∉ rendered s)
  /\ (validator s (url s) u = true -> url.String u ∈ rendered (appendURL s u).2).
Proof.
  intros Htrue. rewrite appendURL_spec.
  assert (forall m : gmap string bool, siteURLS_get m (url.String u) = false ->
            (forall k b, m !! k = Some b -> b = true) ->
            m !! url.String u = None) as Hnone.
  { intros m Hg Hm. unfold siteURLS_get in Hg.
    destruct (m !! url.String u) as [b|] eqn:Hl; [|done].
    simpl in Hg. subst b. by apply Hm in Hl. }
  destruct (validator s (url s) u) eqn:Hv; simpl;
    [destruct (siteURLS_get (siteURLS s) (url.String u)) eqn:Hg; simpl|].
  - split; [done|]. split; [apply WriteMap_rendered|]. split; [done|].
    split; [apply sort_Strings_sorted|]. split; [done|]. intros _.
    apply elem_of_rendered. unfold siteURLS_get in Hg.
    destruct (siteURLS s !! url.String u) as [b|] eqn:Hl; [by eexists|done].
  - pose proof (Hnone _ Hg Htrue) as Hl.
    split.
    { intros k b. rewrite lookup_insert. case_decide; [by intros [= <-]|apply Htrue]. }
    split; [apply WriteMap_rendered|].
    split.
    { unfold rendered. simpl. rewrite !sort_Strings_perm.
      by rewrite (map_to_list_insert _ _ _ Hl). }
    split; [apply sort_Strings_sorted|].
    split.
    { intros _ [b Hb]%elem_of_rendered. congruence. }
    intros _. apply elem_of_rendered. simpl. rewrite lookup_insert_eq. by eexists.
  - split; [done|]. split; [apply WriteMap_rendered|]. split; [done|].
    split; [apply sort_Strings_sorted|]. done.
Qed.

Lemma appendURL_then_WriteMap_witness :
  rendered (appendURL (NewSiteMap example_root ValidateHosts) about).2
  ≡ₚ (if (appendURL (NewSiteMap example_root ValidateHosts) about).1
      then [url.String about] else [])
     ++ rendered (NewSiteMap example_root ValidateHosts).
Proof.
  refine (proj1 (proj2 (proj2
    (appendURL_then_WriteMap (NewSiteMap example_root ValidateHosts) about "" _)))).
  intros k b H. simpl in H. by rewrite lookup_empty in H.
Defined.

End rendering_after_admission.

(** ** The link reader on a page *)

Section reading_a_page.

Lemma next_href_step (t : Token) (doc : list Token) :
  token_type t <> ErrorToken ->
  next_href (t :: doc)
  = match href_of t with
    | Some val => (inl val, doc)
    | None => next_href doc
    end.
Proof.
  intros Ht. simpl. unfold href_of.
  destruct (token_type t); try done.
  destruct (String.eqb (token_name t) "a"); [|done].
  destruct (token_attr t) as [|a attrs]; [done|].
  by rewrite bool_decide_eq_false_2.
Qed.

Lemma next_href_cons (doc : list Token) :
  Forall (fun t => token_type t <> ErrorToken) doc ->
  match next_href doc with
  | (inl val, rest) =>
      omap href_of doc = val :: omap href_of rest
      /\ (length rest < length doc)%nat
      /\ Forall (fun t => token_type t <> ErrorToken) rest
  | (inr _, rest) => omap href_of doc = [] /\ rest = []
  end.
Proof.
  induction 1 as [|t doc Ht Hdoc IH]; [done|].
  rewrite (next_href_step t doc Ht). cbn [omap list_omap length].
  destruct (href_of t) as [val|].
  - repeat split; [lia|done].
  - destruct (next_href doc) as [[val|[]] rest]; [|done].
    destruct IH as (? & ? & ?). repeat split; [done|lia|done].
Qed.

Lemma ReadAll_tokens (fuel : nat) (c : Client) (page : url.URL) (resp : Response)
    (doc : list Token) :
  Forall (fun t => token_type t <> ErrorToken) doc ->
  (length doc < fuel)%nat ->
  ReadAll fuel (mkLinkReader c page (Some (resp, doc)) false)
  = Some (omap href_of doc, end_error resp,
          mkLinkReader c page (Some (resp, [])) false).
Proof.
  revert doc. induction fuel as [|fuel IH]; intros doc Hdoc Hlen; [lia|].
  pose proof (next_href_cons doc Hdoc) as Hn.
  simpl. unfold Read, Read_tokens. simpl.
  destruct (next_href doc) as [[val|[]] rest]; simpl.
  - destruct Hn as (-> & Hlt & Hrest). rewrite IH by (done || lia). done.
  - destruct Hn as [-> ->]. unfold end_error. by destruct (BodyClose resp).
Qed.

(** X5. A reader that has not sent its request yet, on a page answered with
    a status outside 300..399 whose body tokenizes into [doc] before its
    error: read to the first error, it yields the values of the first
    [href] attribute of the start tags named [a], in document order, and
    nothing else (no other tag, no self-closing or end tag, no [a] without
    an [href]); the error that ends the reading is the error of
    [Body.Close] if closing fails and the tokenizer's error ([io.EOF] at a
    regular end) otherwise; one call of [Read] per link and one more are
    enough, and every later [Read] returns that error again, with no link. *)
Theorem ReadAll_hrefs_in_order (u : LinkReader) (resp : Response) (fuel : nat) :
  unfetched u = true ->
  Get (client u) (url.String (pageURL u)) = inl resp ->
  ~ (300 <= StatusCode resp <= 399) ->
  Forall (fun t => token_type t <> ErrorToken) (BodyTokens resp) ->
  (length (BodyTokens resp) < fuel)%nat ->
  exists u',
    ReadAll fuel u = Some (omap href_of (BodyTokens resp), end_error resp, u')
    /\ u' = mkLinkReader (client u) (pageURL u) (Some (resp, [])) false
    /\ ReadAll (S (length (omap href_of (BodyTokens resp)))) u
       = Some (omap href_of (BodyTokens resp), end_error resp, u')
    /\ Read u' = (("", Some (end_error resp)), u').
Proof.
  intros Hf Hget Hst Hdoc Hlen. destruct u as [c page r d].
  unfold unfetched in Hf. simpl in *.
  destruct d; [done|]. destruct r as [x|]; [done|].
  eexists. split; [|split; [reflexivity|]].
  - pose proof (ReadAll_tokens fuel c page resp (BodyTokens resp) Hdoc Hlen) as Hall.
    destruct fuel as [|fuel]; [lia|].
    simpl in *. unfold Read in *. simpl in *. rewrite Hget.
    destruct ((300 <=? StatusCode resp) && (StatusCode resp <=? 399)) eqn:Hb; [lia|].
    exact Hall.
  - split.
    + assert (forall doc,
                Forall (fun t => token_type t <> ErrorToken) doc ->
                ReadAll (S (length (omap href_of doc)))
                  (mkLinkReader c page (Some (resp, doc)) false)
                = Some (omap href_of doc, end_error resp,
                        mkLinkReader c page (Some (resp, [])) false)) as Hexact.
      { intros doc. remember (length doc) as n eqn:Hn.
        revert doc Hn. induction (lt_wf n) as [n _ IH]. intros doc -> Hd.
        pose proof (next_href_cons doc Hd) as Hnx.
        cbn [ReadAll]. unfold Read, Read_tokens. simpl.
        destruct (next_href doc) as [[val|[]] rest]; simpl.
        - destruct Hnx as (Heq & Hlt & Hrest). rewrite Heq. simpl length.
          rewrite (IH (length rest) Hlt rest eq_refl Hrest). done.
        - destruct Hnx as [-> ->]. unfold end_error. by destruct (BodyClose resp). }
      specialize (Hexact (BodyTokens resp) Hdoc).
      cbn [ReadAll] in *. unfold Read in *. simpl in *. rewrite Hget.
      destruct ((300 <=? StatusCode resp) && (StatusCode resp <=? 399)) eqn:Hb; [lia|].
      exact Hexact.
    + unfold Read, Read_tokens, end_error. simpl. by destruct (BodyClose resp).
Qed.

Lemma ReadAll_hrefs_in_order_witness :
  exists u',
    ReadAll 3 (NewLinkReader (url.mkURL "http" "" "example.com" "/about" false false "" "")
                 (site_client example_site))
    = Some (["/"; "?t=0"], EOF, u').
Proof.
  destruct (ReadAll_hrefs_in_order
              (NewLinkReader (url.mkURL "http" "" "example.com" "/about" false false "" "")
                 (site_client example_site))
              (page_of (url.mkURL "http" "" "example.com" "/about" false false "" "")
                 ["/"; "?t=0"]) 3 eq_refl eq_refl)
    as (u' & H & _).
  - simpl. lia.
  - repeat constructor; discriminate.
  - simpl. lia.
  - exists u'. exact H.
Defined.

(** X6. [Read] sends the request of a reader at most once. A reader is
    unfetched while it is neither done nor holds a response. On an
    unfetched reader a failed [Get] gives the error whose text is
    [http get error: ] followed by the text of the cause quoted as the verb
    [%q] quotes it (for a cause with an ASCII text, where [quote] is Go's
    quoting), and leaves the reader unfetched, so the next [Read] asks
    again; a [Get] that answers makes the reader keep the response, with
    its body closed when [Read] left the redirect branch with an error,
    whatever [Read] then returns. A reader that is no longer unfetched never
    uses its client again: with any other client [Read] returns the same
    and leaves the same reader. [Close] ends the unfetched state too, and
    every [Read] after [Close] returns [io.EOF] and changes nothing. *)
Theorem Read_requests_once (u : LinkReader) :
  (unfetched u = true ->
   (forall respErr, Get (client u) (url.String (pageURL u)) = inr respErr ->
      isASCII (error_text respErr) = true ->
      Read u = (("", Some (Errorf ("http get error: " +:+ quote (error_text respErr)))), u))
   /\ (forall resp, Get (client u) (url.String (pageURL u)) = inl resp ->
         unfetched (Read u).2 = false
         /\ exists r doc, response (Read u).2 = Some (r, doc)
                          /\ (r = resp \/ r = closed resp)))
  /\ (unfetched u = false ->
      unfetched (Read u).2 = false
      /\ forall c, Read (with_client u c) = ((Read u).1, with_client (Read u).2 c))
  /\ unfetched (Close u).2 = false
  /\ Read (Close u).2 = (("", Some EOF), (Close u).2).
Proof.
  destruct u as [c page r d]. unfold unfetched, with_client. simpl.
  split; [|split; [|split]].
  - intros Hf. destruct d; [done|]. destruct r as [x|]; [done|]. clear Hf.
    split.
    + intros e He _. unfold Read. simpl. by rewrite He.
    + intros resp Hg. unfold Read, Read_tokens. simpl. rewrite Hg.
      destruct ((300 <=? StatusCode resp) && (StatusCode resp <=? 399)).
      * destruct (BodyClose resp); simpl; [by eauto 6|].
        destruct (Response_Location resp); simpl; by eauto 6.
      * destruct (next_href (BodyTokens resp)) as [[val|[]] rest]; simpl;
          [by eauto 6|]. destruct (BodyClose resp); simpl; by eauto 6.
  - intros Hf. unfold Read, Read_tokens. simpl.
    destruct d; simpl; [done|]. destruct r as [[resp doc]|]; [|done]. simpl.
    destruct (next_href doc) as [[val|[]] rest]; simpl; [done|].
    by destruct (BodyClose resp).
  - unfold Close. simpl. by destruct r as [[resp doc]|].
  - unfold Close, Read. simpl. by destruct r as [[resp doc]|].
Qed.

Lemma Read_requests_once_witness :
  unfetched (Read (NewLinkReader about (site_client no_backlink_site))).2 = false.
Proof.
  destruct (Read_requests_once (NewLinkReader about (site_client no_backlink_site)))
    as [H _].
  destruct (H eq_refl) as [_ H2].
  exact (proj1 (H2 (page_of about []) eq_refl)).
Defined.

End reading_a_page.

(** ** Progress and bounds *)

Lemma standing_step config0 s g l s' :
  standing config0 s -> step s g = Some (l, s') -> standing config0 s'.
Proof.
  intros [Hc Hv Hw Hr Hq] Hs. destruct s as [c lg m t ws p]. simpl in *.
  step_inv Hs; bool_to_prop; constructor; simpl; rewrite ?length_insert;
    rewrite_queue; simpl in *; rewrite ?length_app; simpl; try done; try lia;
    try (intros j [(_ & ? & _)|(_ & Hj)]%list_lookup_insert_Some;
         [done|by eapply Hr]).
  all: try (subst config0; lia).
Qed.

Lemma standing_start (root0 : url.URL) (config0 : Config) (dc : DomainCrawler) :
  NewDomainCrawler root0 config0 = inl dc -> standing config0 (Crawl_start dc).
Proof.
  intros (v & Hv & _ & ->)%NewDomainCrawler_inv.
  constructor; simpl; try done.
  - by rewrite length_replicate.
  - by intros i [? _]%lookup_replicate.
  - apply Validate_None in Hv. lia.
Qed.

Lemma standing_run (root0 : url.URL) (config0 : Config) (dc : DomainCrawler)
    (sch : list Gid) (h : list Label) (s : State) :
  NewDomainCrawler root0 config0 = inl dc -> Crawl sch dc = Some (h, s) ->
  standing config0 s.
Proof.
  intros Hn Hr.
  apply (run_invariant (fun _ s => standing config0 s)) with (sch := sch) (h := [])
    (s := Crawl_start dc) (h' := h); [|by eapply standing_start|done].
  intros. by eapply standing_step.
Qed.

(** A goroutine that cannot move has returned or waits at the receive on
    the empty, open channel. *)
Lemma worker_step_None (c : DomainCrawler) (g : Goroutine) :
  worker_step c g = None ->
  g = Returned
  \/ (g = Receiving /\ pendingURLS c = [] /\ pendingURLS_closed c = false).
Proof.
  unfold worker_step, proceed, panic. intros H.
  repeat case_in H; simplify_eq/=; auto.
Qed.

Lemma total_busy_le (ws : list Goroutine) : total busy ws <= Z.of_nat (length ws).
Proof. induction ws as [|[] ws IH]; simpl; lia. Qed.

(** X7. A crawl cannot get stuck. In every state a run reaches, unless a
    goroutine has panicked or the crawl is over ([Crawl] has returned and
    every goroutine has left its loop), [Crawl] itself or one of the
    goroutines of [drainURLS] can take its next step: the goroutines wait
    only at the receive, never at the send, and when all of them wait at
    the receive on the empty channel the counter is zero, so that [Wait]
    returns. *)
Theorem Crawl_never_deadlocks (root0 : url.URL) (config0 : Config)
    (dc : DomainCrawler) (sch : list Gid) (h : list Label) (s : State) :
  NewDomainCrawler root0 config0 = inl dc ->
  Crawl sch dc = Some (h, s) ->
  panicked s = None ->
  finished s = false ->
  exists g l s', g <> GTimer /\ step s g = Some (l, s').
Proof.
  intros Hn Hr Hp Hfin.
  destruct (accounting_run _ _ _ _ _ _ Hn Hr) as [Ha _].
  pose proof (standing_run _ _ _ _ _ _ Hn Hr) as Hst.
  destruct (decide (Exists (fun w => is_Some (worker_step (crawler s) w)) (workers s)))
    as [Hex|Hno].
  - apply Exists_exists in Hex as (w & Hin & [o Ho]).
    apply list_elem_of_lookup in Hin as [i Hi].
    exists (GWorker i). eexists _, _. split; [done|].
    unfold step. by rewrite Hp, Hi, Ho.
  - apply not_Exists_Forall in Hno; [|intros w; apply _].
    assert (Forall (fun g => g = Returned
                             \/ (g = Receiving /\ pendingURLS (crawler s) = []
                                 /\ pendingURLS_closed (crawler s) = false))
              (workers s)) as Hblocked.
    { eapply Forall_impl; [exact Hno|]. intros w Hw. simpl in Hw.
      apply worker_step_None. destruct (worker_step (crawler s) w); [|done].
      exfalso. apply Hw. by eexists. }
    assert (quiescent s) as Hq.
    { eapply Forall_impl; [exact Hblocked|]. intros w [->|(-> & _)]; auto. }
    destruct (total_quiescent _ Hq) as [Hb Ho].
    pose proof (acc_queue _ _ Ha) as Hcount. rewrite Hb, Ho in Hcount.
    pose proof (acc_main _ _ Ha) as Hm.
    exists GMain. unfold step, main_step. rewrite Hp.
    destruct (main s) as [| | |err] eqn:Hmain.
    + destruct Hm as (_ & _ & Hopen).
      destruct (workers s) as [|w ws] eqn:Hws.
      { pose proof (st_workers _ _ Hst) as Hl. rewrite Hws in Hl. simpl in Hl.
        pose proof (st_valid _ _ Hst) as Hv. apply Validate_None in Hv. lia. }
      apply Forall_cons in Hblocked as [[->|(_ & Hempty & _)] _].
      { pose proof (st_returned _ _ Hst 0%nat) as Hret. rewrite Hws in Hret.
        specialize (Hret eq_refl). congruence. }
      rewrite Hempty in Hcount. simpl in Hcount.
      rewrite (proj2 (Z.eqb_eq _ _)) by lia. by eexists _, _.
    + destruct (pendingURLS_closed (crawler s)); by eexists _, _.
    + by eexists _, _.
    + exfalso. destruct Hm as (_ & _ & Hclosed).
      unfold finished in Hfin. rewrite Hmain in Hfin.
      apply not_true_iff_false in Hfin. apply Hfin.
      apply forallb_forall. intros w Hin%list_elem_of_In.
      destruct (proj1 (Forall_forall _ _) Hblocked w Hin) as [->|(_ & _ & Hopen)];
        [done|congruence].
Qed.

(** X8. The backlog and the outstanding work are bounded. In every run the
    configuration stays the one [NewDomainCrawler] was given, the channel
    never holds more than [MaxPendingURLS] URLs, and the counter of the
    wait group is at most [MaxPendingURLS] plus [MaxConcurrency]: what is
    in the channel and what the goroutines hold. *)
Theorem outstanding_work_bounded (root0 : url.URL) (config0 : Config)
    (dc : DomainCrawler) (sch : list Gid) (h : list Label) (s : State) :
  NewDomainCrawler root0 config0 = inl dc ->
  Crawl sch dc = Some (h, s) ->
  config (crawler s) = config0
  /\ length (workers s) = Z.to_nat (MaxConcurrency config0)
  /\ Z.of_nat (length (pendingURLS (crawler s))) <= MaxPendingURLS config0
  /\ pendingURLSRemaining (crawler s)
     <= MaxPendingURLS config0 + MaxConcurrency config0.
Proof.
  intros Hn Hr.
  destruct (accounting_run _ _ _ _ _ _ Hn Hr) as [Ha _].
  destruct (standing_run _ _ _ _ _ _ Hn Hr) as [Hc Hv Hw _ Hq].
  repeat split; try done.
  rewrite (acc_queue _ _ Ha).
  pose proof (total_busy_le (workers s)). pose proof (total_owes_busy (workers s)).
  apply Validate_None in Hv. lia.
Qed.

(** ** The crawl timeout *)

Lemma occ_zero_elem (p : Label -> bool) (h : list Label) (l : Label) :
  occ p h = 0 -> l ∈ h -> p l = false.
Proof.
  induction h as [|l' h IH]; [by intros _ ?%elem_of_nil|].
  simpl. pose proof (occ_nonneg p h) as Hn. intros H0 [->|Hin]%elem_of_cons.
  - destruct (p l'); [lia|done].
  - apply IH; [|done]. destruct (p l'); lia.
Qed.

Lemma occ_elem_pos (p : Label -> bool) (h : list Label) (l : Label) :
  l ∈ h -> p l = true -> 0 < occ p h.
Proof.
  intros Hin Hp. destruct (decide (occ p h = 0)) as [H0|H0].
  - by rewrite (occ_zero_elem p h l H0 Hin) in Hp.
  - pose proof (occ_nonneg p h). lia.
Qed.

Lemma timing_step crawlTimeout h s g l s' :
  timing crawlTimeout h s -> step s g = Some (l, s') -> timing crawlTimeout (l :: h) s'.
Proof.
  intros [Ht Ho Hk] Hs.
  assert (timedOut (crawler s) = true -> LTimeout ∈ h) as Hfired.
  { intros Hto. destruct (timer s); destruct_and?; try congruence.
    destruct (occ_pos_elem is_timeout h) as ([] & Hin & Hl); try done. lia. }
  assert (is_open l = true -> timedOut (crawler s) = false) as Hopen.
  { destruct s as [c lg m t ws p]. simpl in *. intros Hl.
    step_inv Hs; simpl in *; done. }
  assert (forall p, l = LSkip p -> timedOut (crawler s) = true) as Hskip.
  { destruct s as [c lg m t ws p]. simpl in *. intros p0 Hl.
    step_inv Hs; simpl in *; done. }
  constructor.
  - destruct s as [c lg m t ws p]. simpl in *. clear Ho Hk Hfired Hopen Hskip.
    step_inv Hs; simpl in *; destruct_and?; repeat split; try done; try lia;
      try (destruct t; destruct_and?; repeat split; try done; congruence).
  - intros [|l' h2] h1 Heq; simplify_eq/=; [by intros l0 ?%elem_of_nil|].
    intros l0 [Heq0|Hin0]%elem_of_cons; [subst l0|by eapply Ho].
    match goal with
    | |- is_open ?x = false => destruct (is_open x) eqn:Hl; [|done]
    end.
    assert (LTimeout ∈ h2 ++ LTimeout :: h1) as Hin
      by (apply elem_of_app; right; left).
    specialize (Hopen eq_refl).
    destruct (timer s); destruct_and?; try congruence;
      by pose proof (occ_zero_elem is_timeout _ _ ltac:(eassumption) Hin).
  - intros [|l' h2] p0 h1 Heq; simplify_eq/=; [|by eapply Hk].
    apply Hfired. by eapply Hskip.
Qed.

Lemma timing_run (root0 : url.URL) (config0 : Config) (dc : DomainCrawler)
    (sch : list Gid) (h : list Label) (s : State) :
  NewDomainCrawler root0 config0 = inl dc -> Crawl sch dc = Some (h, s) ->
  timing (CrawlTimeout config0) h s.
Proof.
  intros Hn Hr.
  apply (run_invariant (timing (CrawlTimeout config0))) with (sch := sch) (h := [])
    (s := Crawl_start dc); [| |done].
  - intros. by eapply timing_step.
  - apply NewDomainCrawler_inv in Hn as (v & _ & _ & ->).
    constructor; simpl.
    + destruct (Z.ltb_spec 0 (CrawlTimeout config0)); repeat split; try done; lia.
    + by intros [|] ? ?.
    + by intros [|] ? ? ?.
Qed.

(** X9. The crawl timeout. The timer fires at most once, and only when
    [CrawlTimeout] is positive; with a zero or negative timeout no URL is
    ever skipped. [timedOut] is set exactly when the timer has fired. Once
    it has fired no goroutine opens a page any more, so every URL received
    from then on is skipped, and a URL is skipped only after the timer has
    fired. Pages opened before are still read to their end. *)
Theorem timeout_stops_opening_pages (root0 : url.URL) (config0 : Config)
    (dc : DomainCrawler) (sch : list Gid) (h : list Label) (s : State) :
  NewDomainCrawler root0 config0 = inl dc ->
  Crawl sch dc = Some (h, s) ->
  (CrawlTimeout config0 <= 0 ->
     timedOut (crawler s) = false /\ (LTimeout ∉ h) /\ (forall p, LSkip p ∉ h))
  /\ occ is_timeout h <= 1
  /\ (timedOut (crawler s) = true <-> LTimeout ∈ h)
  /\ (forall h2 h1, h = h2 ++ LTimeout :: h1 -> forall p, LOpen p ∉ h2)
  /\ (forall h2 p h1, h = h2 ++ LSkip p :: h1 -> LTimeout ∈ h1).
Proof.
  intros Hn Hr. destruct (timing_run _ _ _ _ _ _ Hn Hr) as [Ht Ho Hk].
  split; [|split; [|split; [|split]]].
  - intros Hle. destruct (timer s); destruct_and?; try lia.
    split; [done|]. split.
    + intros Hin. by pose proof (occ_zero_elem is_timeout h _ ltac:(eassumption) Hin).
    + intros p Hin. by pose proof (occ_zero_elem is_skip h _ ltac:(eassumption) Hin).
  - destruct (timer s); destruct_and?; lia.
  - split.
    + intros Hto. destruct (timer s); destruct_and?; try congruence.
      destruct (occ_pos_elem is_timeout h) as ([] & Hin & Hl); try done. lia.
    + intros Hin. pose proof (occ_elem_pos is_timeout h _ Hin eq_refl).
      destruct (timer s); destruct_and?; try done; lia.
  - intros h2 h1 Heq p Hin. by pose proof (Ho h2 h1 Heq _ Hin).
  - done.
Qed.

(** ** Readers are closed *)

Lemma readers_step h s g l s' :
  readers h s -> step s g = Some (l, s') -> readers (l :: h) s'.
Proof.
  intros [H1 H2 H3] Hs. destruct s as [c lg m t ws p]. simpl in *.
  step_inv Hs; constructor; simpl; use_total; simpl; lia.
Qed.

Lemma readers_run (root0 : url.URL) (config0 : Config) (dc : DomainCrawler)
    (sch : list Gid) (h : list Label) (s : State) :
  NewDomainCrawler root0 config0 = inl dc -> Crawl sch dc = Some (h, s) ->
  readers h s.
Proof.
  intros Hn Hr.
  apply (run_invariant readers) with (sch := sch) (h := [])
    (s := Crawl_start dc); [| |done].
  - intros. by eapply readers_step.
  - constructor; simpl; by rewrite total_replicate.
Qed.

Lemma total_quiescent_zero (f : Goroutine -> Z) (ws : list Goroutine) :
  f Receiving = 0 -> f Returned = 0 ->
  Forall (fun g => g = Receiving \/ g = Returned) ws -> total f ws = 0.
Proof. intros H1 H2. induction 1 as [|g ws [-> | ->] _ IH]; simpl; lia. Qed.

(** X10. Every reader is closed. In every run, each URL received is either
    skipped or has a reader opened for it; the readers opened are those
    closed plus those a goroutine still holds, and each [Done] follows the
    close of the reader or the skip, whether the page was read to its end
    or given up on an error. So when no goroutine holds a URL, every reader
    that was opened has been closed. *)
Theorem every_reader_closed (root0 : url.URL) (config0 : Config)
    (dc : DomainCrawler) (sch : list Gid) (h : list Label) (s : State) :
  NewDomainCrawler root0 config0 = inl dc ->
  Crawl sch dc = Some (h, s) ->
  occ is_open h = occ is_closeReader h + total holding (workers s)
  /\ occ is_closeReader h + occ is_skip h
     = occ is_done h + total finishing (workers s)
  /\ (quiescent s ->
        occ is_open h = occ is_closeReader h
        /\ occ is_recv h = occ is_open h + occ is_skip h
        /\ occ is_done h = occ is_closeReader h + occ is_skip h).
Proof.
  intros Hn Hr. destruct (readers_run _ _ _ _ _ _ Hn Hr) as [H1 H2 H3].
  split; [done|]. split; [done|]. intros Hq.
  rewrite (total_quiescent_zero holding) in H1 by done.
  rewrite (total_quiescent_zero finishing) in H2 by done.
  rewrite (total_quiescent_zero _ (workers s)) in H3 by done. lia.
Qed.

(** ** Each page is requested once *)

Lemma Read_link_not_fresh (r : LinkReader) (href : string) (r' : LinkReader) :
  Read r = ((href, None), r') -> unfetched r' = false.
Proof.
  unfold Read, Read_tokens, unfetched. intros H.
  repeat case_in H; simplify_eq/=; try done; by rewrite ?andb_false_r.
Qed.

Lemma total_nonneg (f : Goroutine -> Z) (ws : list Goroutine) :
  (forall g, 0 <= f g) -> 0 <= total f ws.
Proof. intros Hf. induction ws as [|g ws IH]; simpl; [done|]. specialize (Hf g). lia. Qed.

Lemma total_checking_nonneg (k : string) (ws : list Goroutine) :
  0 <= total (checking k) ws.
Proof. apply total_nonneg. intros []; simpl; try lia. case_bool_decide; lia. Qed.

Lemma total_unread_nonneg (k : string) (ws : list Goroutine) :
  0 <= total (unread k) ws.
Proof. apply total_nonneg. intros []; simpl; try lia. destruct (_ && _); lia. Qed.

Ltac use_read :=
  repeat match goal with
    | H : Read ?r = (_, None, ?r') |- _ =>
        lazymatch goal with
        | _ : unfetched r' = false |- _ => fail
        | _ => pose proof (Read_link_not_fresh _ _ _ H)
        end
    end.

Ltac use_reader H4 :=
  repeat match goal with
    | H : ?ws !! ?i = Some ?g |- _ =>
        lazymatch eval cbn in (reader_of g) with
        | Some ?r =>
            lazymatch goal with
            | _ : unfetched r = false |- _ => fail
            | _ => pose proof (H4 i g r H eq_refl)
            end
        end
    end.

Lemma visiting_step root0 k h s g l s' :
  visiting root0 k h s -> step s g = Some (l, s') -> visiting root0 k (l :: h) s'.
Proof.
  intros [H1 H2 H3 H4] Hs. revert H1. unfold pending.
  destruct s as [c lg m t ws p]. simpl in *. intros H1.
  step_inv Hs; use_read; use_reader H4; constructor; unfold pending; simpl;
    use_total; simpl; rewrite ?queued_app; simpl; rewrite_queue; simpl in *.
  all: try (intros jx gx rx [(_ & ? & _)|(_ & Hjx)]%list_lookup_insert_Some Hrx;
            [by simplify_eq/=|by eapply H4]).
  all: try done.
  all: repeat match goal with
         | |- context [negb (done ?r) && negb (bool_decide (is_Some (response ?r)))] =>
             change (negb (done r) && negb (bool_decide (is_Some (response r))))
               with (unfetched r)
         end.
  all: repeat match goal with
         | H : unfetched ?r = false |- _ => rewrite ?H in *; clear H
         end.
  all: try (repeat case_bool_decide; simpl; lia).
  all: try (destruct (unfetched _); simpl; repeat case_bool_decide; simpl; lia).
Qed.

Lemma visiting_run (root0 : url.URL) (config0 : Config) (dc : DomainCrawler)
    (sch : list Gid) (h : list Label) (s : State) (k : string) :
  NewDomainCrawler root0 config0 = inl dc -> Crawl sch dc = Some (h, s) ->
  visiting root0 k h s.
Proof.
  intros Hn Hr.
  apply (run_invariant (visiting root0 k)) with (sch := sch) (h := [])
    (s := Crawl_start dc); [| |done].
  - intros. by eapply visiting_step.
  - apply NewDomainCrawler_inv in Hn as (v & _ & _ & ->).
    constructor; unfold pending; simpl; rewrite ?total_replicate by done.
    + case_bool_decide; lia.
    + done.
    + done.
    + by intros i g r [-> _]%lookup_replicate.
Qed.

(** X11. No page is requested twice. In every run and for every URL string:
    the requests sent for it are at most the readers opened for it, which
    are at most the URLs of that string received from the channel; and
    these are at most one if the string is in the site map, plus one for
    the root, which is seeded without being admitted. So a URL string is
    requested at most once, and the root's at most twice (once as the seed
    and once more if a link resolves to its string). *)
Theorem no_page_requested_twice (root0 : url.URL) (config0 : Config)
    (dc : DomainCrawler) (sch : list Gid) (h : list Label) (s : State)
    (k : string) :
  NewDomainCrawler root0 config0 = inl dc ->
  Crawl sch dc = Some (h, s) ->
  occ (requests k) h <= occ (opens k) h
  /\ occ (opens k) h <= occ (receives k) h
  /\ occ (receives k) h
     <= (if bool_decide (url.String root0 = k) then 1 else 0)
        + (if siteURLS_get (siteURLS (siteMap (crawler s))) k then 1 else 0)
  /\ (k <> url.String root0 -> occ (requests k) h <= 1)
  /\ occ (requests k) h <= 2.
Proof.
  intros Hn Hr. destruct (visiting_run _ _ _ _ _ _ k Hn Hr) as [H1 H2 H3 _].
  destruct (NewDomainCrawler_inv _ _ _ Hn) as (v & _ & Hv & _).
  pose proof (fr_admits _ _ _ _ (frontier_run _ _ _ _ _ _ _ Hn Hv Hr) k) as Ha.
  pose proof (pending_nonneg s k).
  pose proof (occ_nonneg (drops k) h). pose proof (occ_nonneg (skips k) h).
  pose proof (total_checking_nonneg k (workers s)).
  pose proof (total_unread_nonneg k (workers s)).
  rewrite Ha in H1.
  split; [lia|]. split; [lia|]. split; [lia|].
  split; [intros Hne|];
    destruct (siteURLS_get _ _); case_bool_decide; simpl in *; first [lia | congruence].
Qed.

(** ** Every link read is admitted *)

Lemma worker_step_admitted (c : DomainCrawler) (g : Goroutine) (o : Outcome)
    (k : string) :
  worker_step c g = Some o ->
  siteURLS_get (siteURLS (siteMap c)) k = true ->
  siteURLS_get (siteURLS (siteMap (out_crawler o))) k = true.
Proof.
  intros Hw. unfold worker_step, proceed, panic in Hw.
  repeat case_in Hw; simplify_eq/=; try done;
    unfold appendURL_locked in *; simplify_eq;
    rewrite siteURLS_get_insert; intros ->; by rewrite orb_true_r.
Qed.

Lemma worker_step_admitting (c : DomainCrawler) (g : Goroutine) (o : Outcome)
    (u : url.URL) :
  worker_step c g = Some o ->
  admitting u g ->
  admitting u (out_next o)
  \/ siteURLS_get (siteURLS (siteMap (out_crawler o))) (url.String u) = true.
Proof.
  intros Hw [r [-> | ->]]; unfold worker_step, proceed, panic in Hw;
    unfold appendURL_rlocked, appendURL_locked in *;
    repeat case_in Hw; simplify_eq/=.
  - left. exists r. by right.
  - right. by apply negb_false_iff.
  - right. rewrite siteURLS_get_insert. by rewrite bool_decide_eq_true_2.
  - right. rewrite siteURLS_get_insert. by rewrite bool_decide_eq_true_2.
Qed.

Lemma worker_step_read (c : DomainCrawler) (g : Goroutine) (o : Outcome)
    (page : url.URL) (get : bool) (href : string) (ref : url.URL) :
  worker_step c g = Some o ->
  out_label o = LRead page get href None ->
  url.Parse href = inl ref ->
  validator (siteMap c) (url (siteMap c)) (url.ResolveReference page ref) = true ->
  admitting (url.ResolveReference page ref) (out_next o).
Proof.
  intros Hw. unfold worker_step, proceed, panic in Hw.
  repeat case_in Hw; simplify_eq/=; try done;
    match goal with
    | H : Read ?r = (_, ?r') |- _ =>
        pose proof (Read_pageURL r) as Hp; rewrite H in Hp; simpl in Hp
    end;
    intros; simplify_eq/=; try congruence;
    match goal with
    | H1 : url.Parse ?x = inl ?a, H2 : url.Parse ?x = inl ?b |- _ =>
        assert (a = b) by congruence; subst a
    end;
    rewrite Hp in *.
  - match goal with
    | H : negb ?b = true, H' : ?b = true |- _ => by rewrite H' in H
    end.
  - eexists. by left.
Qed.

Lemma settled_step root0 v h s g l s' :
  frontier root0 v h s ->
  (forall u, read_link h u -> v root0 u = true -> settled s u) ->
  step s g = Some (l, s') ->
  forall u, read_link (l :: h) u -> v root0 u = true -> settled s' u.
Proof.
  intros Hf Hall Hs u (page & get & href & ref & Hin & Hparse & ->) Hv.
  destruct (fr_site _ _ _ _ Hf) as [Hu0 Hv0].
  assert (settled s (url.ResolveReference page ref) ->
          settled s' (url.ResolveReference page ref)) as Hkeep.
  { intros [Hm|(i & w & Hi & Ha)].
    - left. destruct (step_cases _ _ _ _ Hs)
        as [(_ & Hsm & _)|(j & w & o & Hj & Hstep & _ & _ & Hc)].
      + by rewrite Hsm.
      + rewrite Hc. by eapply worker_step_admitted.
    - destruct (step_cases _ _ _ _ Hs)
        as [(Hws & _ & _)|(j & w' & o & Hj & Hstep & _ & Hws & Hc)].
      + right. exists i, w. by rewrite Hws.
      + destruct (decide (i = j)) as [->|Hne].
        * simplify_eq.
          destruct (worker_step_admitting _ _ _ _ Hstep Ha) as [Ha'|Hm].
          { right. exists j, (out_next o). split; [|done]. rewrite Hws.
            apply list_lookup_insert_eq. by eapply lookup_lt_Some. }
          { left. by rewrite Hc. }
        * right. exists i, w. split; [|done]. rewrite Hws.
          by rewrite list_lookup_insert_ne. }
  apply elem_of_cons in Hin as [Hl|Hin].
  - destruct (step_cases _ _ _ _ Hs)
      as [(_ & _ & Hml)|(j & w & o & Hj & Hstep & Hlab & Hws & Hc)].
    { by rewrite <- Hl in Hml. }
    right. exists j, (out_next o). split.
    + rewrite Hws. apply list_lookup_insert_eq. by eapply lookup_lt_Some.
    + eapply worker_step_read; [done|by rewrite <- Hlab|done|].
      by rewrite Hu0, Hv0.
  - apply Hkeep, Hall; [|done]. by exists page, get, href, ref.
Qed.

(** X12. Every link read is admitted. In every run, the resolution of each
    link that a [Read] returned, whose href parses and which the validator
    accepts for the root, is in the site map, or a goroutine is inside
    [appendURL] for it; so when no goroutine holds a URL, every such link
    is in the site map and on a line of what [WriteMap] writes, whether it
    was sent to the channel or dropped. *)
Theorem every_link_read_is_admitted (root0 : url.URL) (config0 : Config)
    (dc : DomainCrawler) (sch : list Gid) (h : list Label) (s : State)
    (u : url.URL) :
  NewDomainCrawler root0 config0 = inl dc ->
  Crawl sch dc = Some (h, s) ->
  read_link h u ->
  validator (siteMap dc) root0 u = true ->
  settled s u
  /\ (quiescent s ->
        siteURLS (siteMap (crawler s)) !! url.String u = Some true
        /\ url.String u ∈ rendered (siteMap (crawler s))).
Proof.
  intros Hn Hr Hu Hv.
  destruct (NewDomainCrawler_inv _ _ _ Hn) as (v & _ & Hv0 & Hdc).
  assert (validator (siteMap dc) = v) as Hvd by (by subst dc). rewrite Hvd in Hv.
  assert (frontier root0 v h s
          /\ forall u, read_link h u -> v root0 u = true -> settled s u) as [Hf Hall].
  { apply (run_invariant (fun h s => frontier root0 v h s
             /\ forall u, read_link h u -> v root0 u = true -> settled s u))
      with (sch := sch) (h := []) (s := Crawl_start dc); [| |done].
    - intros h0 s0 g l s1 [Hf0 Ha0] Hs. split; [by eapply frontier_step|].
      by eapply settled_step.
    - split; [by eapply frontier_start|].
      intros u0 (? & ? & ? & ? & Hin & _). by apply elem_of_nil in Hin. }
  specialize (Hall u Hu Hv). split; [done|]. intros Hq.
  assert (siteURLS_get (siteURLS (siteMap (crawler s))) (url.String u) = true) as Hg.
  { destruct Hall as [Hg|(i & g & Hi & r & [-> | ->])]; [done| |];
      by destruct (quiescent_lookup _ _ _ Hq Hi). }
  unfold siteURLS_get in Hg.
  destruct (siteURLS (siteMap (crawler s)) !! url.String u) as [b|] eqn:Hl; [|done].
  simpl in Hg. subst b. split; [done|]. apply elem_of_rendered. by eexists.
Qed.

(** ** One goroutine *)

Lemma alone_step config0 h s g l s' :
  accounting h s -> standing config0 s -> alone s ->
  step s g = Some (l, s') ->
  alone s' /\ (main s <> Waiting -> siteMap (crawler s') = siteMap (crawler s)
                                     /\ main s' <> Waiting).
Proof.
  intros Ha Hst [(w & Hws & Hadd & Hpast) Hp] Hs.
  pose proof (accounting_step _ _ _ _ _ Ha Hs) as [_ _ _ _ _ [Hp1 Hp2]].
  pose proof (acc_queue _ _ Ha) as Hcount. pose proof (acc_main _ _ Ha) as Hmain.
  pose proof (st_valid _ _ Hst) as Hvalid. apply Validate_None in Hvalid.
  destruct Hvalid as (_ & _ & _ & _ & [cl Hcl] & _).
  pose proof (st_config _ _ Hst) as Hconf.
  destruct s as [c lg m t ws p]. simpl in *. subst ws p.
  step_inv Hs; bool_to_prop;
    repeat match goal with
      | H : [w] !! ?i = Some _ |- _ => destruct i as [|[|?]]; simplify_eq/=
      end.
  all: try (exfalso; congruence).
  all: try (exfalso; destruct m; destruct_and?; try congruence;
            destruct Hpast as [[?|?] _]; congruence).
  all: (split; [constructor; [eexists; split; [reflexivity|split]|]|]; simpl).
  all: try done.
  all: try (intros _; rewrite_queue; by destruct (pendingURLS c)).
  all: try (intros Hm0; destruct (Hpast Hm0) as [[?|?] Hq0]; simplify_eq/=;
            rewrite ?Hq0 in *; by auto).
  all: try (intros _; apply Hpast; done).
  intros _. pose proof (Nat2Z.is_nonneg (length (pendingURLS c))) as Hlen.
  destruct w; simpl in *; try lia;
    try (split; [by auto|]; destruct (pendingURLS c); [done|simpl in *; lia]).
  destruct (pendingURLS c); [by destruct Hadd|simpl in *; lia].
Qed.

Lemma alone_run (root0 : url.URL) (config0 : Config) (dc : DomainCrawler)
    (sch : list Gid) (h : list Label) (s : State) :
  NewDomainCrawler root0 config0 = inl dc -> MaxConcurrency config0 = 1 ->
  Crawl sch dc = Some (h, s) ->
  accounting h s /\ standing config0 s /\ alone s.
Proof.
  intros Hn Hone Hr.
  apply (run_invariant (fun h s => accounting h s /\ standing config0 s /\ alone s))
    with (sch := sch) (h := []) (s := Crawl_start dc); [| |done].
  - intros h0 s0 g l s1 (Ha & Hst & Hal) Hs.
    split; [by eapply accounting_step|]. split; [by eapply standing_step|].
    by eapply alone_step.
  - split; [by eapply accounting_start|]. split; [by eapply standing_start|].
    apply NewDomainCrawler_inv in Hn as (v & _ & _ & ->).
    constructor; simpl; [|done]. rewrite Hone. simpl.
    exists Receiving. by repeat split.
Qed.

(** X13. With one goroutine ([MaxConcurrency] 1) a crawl never panics, and
    [Wait] returns only when the crawl is complete: from then on the
    goroutine holds no URL, the channel is empty and the counter is zero,
    and whatever steps follow, the site map stays as it is, so the site map
    [Crawl] returns is final. (With two goroutines neither holds: the
    counter can reach zero between a send and its [Add].) *)
Theorem single_worker_never_panics (root0 : url.URL) (config0 : Config)
    (dc : DomainCrawler) (sch : list Gid) (h : list Label) (s : State) :
  NewDomainCrawler root0 config0 = inl dc ->
  MaxConcurrency config0 = 1 ->
  Crawl sch dc = Some (h, s) ->
  panicked s = None
  /\ (main s <> Waiting ->
        quiescent s /\ pendingURLS (crawler s) = []
        /\ pendingURLSRemaining (crawler s) = 0
        /\ forall sch' h' s', run sch' h s = Some (h', s') ->
             siteMap (crawler s') = siteMap (crawler s) /\ panicked s' = None).
Proof.
  intros Hn Hone Hr. destruct (alone_run _ _ _ _ _ _ Hn Hone Hr) as (Ha & Hst & Hal).
  split; [apply (al_panic _ Hal)|]. intros Hm.
  destruct (al_worker _ Hal) as (w & Hws & _ & Hpast).
  destruct (Hpast Hm) as [Hw Hq].
  assert (quiescent s) as Hquiet.
  { unfold quiescent. rewrite Hws. by apply Forall_singleton. }
  split; [done|]. split; [done|]. split.
  { rewrite (acc_queue _ _ Ha), Hq. destruct (total_quiescent _ Hquiet) as [-> ->]. done. }
  intros sch' h' s' Hrun.
  assert (accounting h' s' /\ standing config0 s' /\ alone s'
          /\ main s' <> Waiting
          /\ siteMap (crawler s') = siteMap (crawler s)) as (_ & _ & Hal' & _ & Hsm).
  { apply (run_invariant (fun h1 s1 =>
             accounting h1 s1 /\ standing config0 s1 /\ alone s1
             /\ main s1 <> Waiting
             /\ siteMap (crawler s1) = siteMap (crawler s)))
      with (sch := sch') (h := h) (s := s); [| |done].
    - intros h0 s0 g l s1 (Ha0 & Hst0 & Hal0 & Hm0 & Hsm0) Hs.
      destruct (alone_step _ _ _ _ _ _ Ha0 Hst0 Hal0 Hs) as [Hal1 Hkeep].
      destruct (Hkeep Hm0) as [Hsm1 Hm1].
      split; [by eapply accounting_step|]. split; [by eapply standing_step|].
      split; [done|]. split; [done|]. congruence.
    - done. }
  split; [done|apply (al_panic _ Hal')].
Qed.

(** ** A crawler is for one crawl *)

Lemma reused_step h s g l s' :
  reused h s -> step s g = Some (l, s') -> reused (l :: h) s'.
Proof.
  intros [Hc Hm Hcl] Hs. destruct s as [c lg m t ws p]. simpl in *.
  step_inv Hs; constructor; simpl; try done; auto;
    try (destruct Hm; congruence).
Qed.

(** X14. [Crawl] cannot be called a second time on the same crawler. Once a
    crawl has returned and its goroutines have left their loops, a second
    [Crawl] on that crawler never returns and never closes the channel
    again, under any schedule: as soon as its [Wait] has returned, its
    [close] panics with "close of closed channel"; and [Wait] returns at
    once when the first crawl left the counter at zero. *)
Theorem Crawl_again_panics (root0 : url.URL) (config0 : Config)
    (dc : DomainCrawler) (sch : list Gid) (h : list Label) (s : State)
    (sch' : list Gid) (h' : list Label) (s' : State) :
  NewDomainCrawler root0 config0 = inl dc ->
  Crawl sch dc = Some (h, s) ->
  finished s = true ->
  Crawl sch' (crawler s) = Some (h', s') ->
  Crawl_result s' = None
  /\ (LClose ∉ h') /\ (forall e, LReturn e ∉ h')
  /\ (main s' = ClosingChannel -> panicked s' = None ->
        exists s'',
          step s' GMain = Some (LPanic "close of closed channel", s'')
          /\ panicked s'' = Some "close of closed channel")
  /\ (pendingURLSRemaining (crawler s) = 0 ->
        exists h2 s2,
          Crawl [GMain; GMain] (crawler s) = Some (h2, s2)
          /\ panicked s2 = Some "close of closed channel").
Proof.
  intros Hn Hr Hfin Hr'.
  destruct (accounting_run _ _ _ _ _ _ Hn Hr) as [Ha _].
  pose proof (acc_main _ _ Ha) as Hmain. unfold finished in Hfin.
  destruct (main s) as [| | |err]; try done.
  destruct Hmain as (_ & _ & Hclosed).
  assert (reused h' s' /\ forall e, LReturn e ∉ h') as [[Hc Hmn Hcl] Hret].
  { apply (run_invariant (fun h s => reused h s /\ forall e, LReturn e ∉ h))
      with (sch := sch') (h := []) (s := Crawl_start (crawler s)); [| |done].
    - intros h0 s0 g l s1 [Hru Hno] Hs. split; [by eapply reused_step|].
      intros e [Heq|Hin]%elem_of_cons; [|by eapply Hno].
      destruct Hru as [_ Hm0 _]. destruct s0 as [c lg m t ws p]. simpl in *.
      subst l. step_inv Hs; destruct Hm0; congruence.
    - split; [by constructor; simpl; auto|]. intros e Hin. by apply elem_of_nil in Hin. }
  split. { unfold Crawl_result. by destruct Hmn as [-> | ->]. }
  split. { intros Hin. by pose proof (occ_zero_elem is_close h' _ Hcl Hin). }
  split; [done|]. split.
  - intros Hm' Hp'. unfold step, main_step. rewrite Hp', Hm', Hc. by eexists.
  - intros Hzero. unfold Crawl, Crawl_start. simpl. unfold step, main_step. simpl.
    rewrite Hzero. simpl. rewrite Hclosed. by eexists _, _.
Qed.

(** ** What is logged *)

Lemma reported_step h s g l s' :
  reported h s -> step s g = Some (l, s') -> reported (l :: h) s'.
Proof.
  intros [H1 H2 H3] Hs. destruct s as [c lg m t ws p]. simpl in *.
  step_inv Hs; constructor; simpl;
    rewrite ?app_nil_r, ?filter_app, ?length_app; simpl;
    try (case_bool_decide; simpl); try lia.
  all: try (intros e0 Hin Herr;
            first [apply elem_of_app in Hin as [Hin|Hin]
                  |idtac];
            first [destruct (H2 e0 Hin Herr) as (u0 & page0 & ? & ?);
                   exists u0, page0; split; [by right|done]
                  |apply list_elem_of_singleton in Hin; subst e0;
                   first [by (unfold is_error_entry in Herr; simpl in Herr)
                         |eexists _, _; split; [left|reflexivity]]]).
  all: try (intros u0 [Heq|Hin]%elem_of_cons; simplify_eq;
            first [destruct (H3 u0 Hin) as [page0 ?]; exists page0;
                   first [done | apply elem_of_app; by left]
                  |eexists; apply elem_of_app; right; left]).
Qed.

Lemma reported_run (root0 : url.URL) (config0 : Config) (dc : DomainCrawler)
    (sch : list Gid) (h : list Label) (s : State) :
  NewDomainCrawler root0 config0 = inl dc -> Crawl sch dc = Some (h, s) ->
  reported h s.
Proof.
  intros Hn Hr.
  apply (run_invariant reported) with (sch := sch) (h := [])
    (s := Crawl_start dc); [| |done].
  - intros. by eapply reported_step.
  - constructor; simpl; [done| |]; intros ? Hin; by apply elem_of_nil in Hin.
Qed.

(** X15. Every drop is reported. In every run the entries logged at error
    level are exactly the drops: as many as there were drops, each with the
    message "too many pending urls, page will be ignored", the dropped URL
    in its field "page" and the URL of the page it was found on in its
    field "link"; and each drop has its entry. Nothing else is logged as an
    error. *)
Theorem drops_are_logged (root0 : url.URL) (config0 : Config)
    (dc : DomainCrawler) (sch : list Gid) (h : list Label) (s : State) :
  NewDomainCrawler root0 config0 = inl dc ->
  Crawl sch dc = Some (h, s) ->
  Z.of_nat (length (filter is_error_entry (logged s))) = occ is_drop h
  /\ (forall e, e ∈ logged s -> entry_level e = ErrorLevel ->
        exists u page,
          LDrop u ∈ h
          /\ e = Error "too many pending urls, page will be ignored"
                   [("page", url.String u); ("link", page)])
  /\ (forall u, LDrop u ∈ h ->
        exists page,
          Error "too many pending urls, page will be ignored"
            [("page", url.String u); ("link", page)] ∈ logged s).
Proof.
  intros Hn Hr. destruct (reported_run _ _ _ _ _ _ Hn Hr) as [H1 H2 H3].
  split; [done|]. split; [|done].
  intros e Hin Hl. apply (H2 e Hin). unfold is_error_entry.
  by apply bool_decide_eq_true_2.
Qed.

(** ** The site map stays in the domain *)

(** X16. What a crawl renders is in the domain. In every run, each line that
    [WriteMap] writes for the site map is the string of a URL that the
    validator accepted for the root, and that [appendURL] admitted after it
    was read as a link of a page received from the channel; under the
    default validator it is a URL with the host of the root. No URL of
    another host is ever listed. *)
Theorem rendered_in_domain (root0 : url.URL) (config0 : Config)
    (dc : DomainCrawler) (sch : list Gid) (h : list Label) (s : State)
    (k : string) :
  NewDomainCrawler root0 config0 = inl dc ->
  Crawl sch dc = Some (h, s) ->
  k ∈ rendered (siteMap (crawler s)) ->
  exists u,
    url.String u = k
    /\ validator (siteMap dc) root0 u = true
    /\ linked_from h u
    /\ LLock u true ∈ h
    /\ (validator (siteMap dc) = ValidateHosts -> url.Host u = url.Host root0).
Proof.
  intros Hn Hr Hk. destruct (NewDomainCrawler_inv _ _ _ Hn) as (v & _ & Hv & Hdc).
  pose proof (frontier_run _ _ _ _ _ _ _ Hn Hv Hr) as Hf.
  apply elem_of_rendered in Hk.
  destruct (fr_keys _ _ _ _ Hf k Hk) as (u & Hu & Hl & Hacc & Hlock).
  assert (validator (siteMap dc) = v) as Hvd by (by subst dc).
  exists u. rewrite Hvd. repeat split; try done.
  intros ->. unfold ValidateHosts in Hacc.
  by destruct (String.eqb_spec (url.Host root0) (url.Host u)).
Qed.

(** ** The link reader when a redirect cannot be followed *)



(** ** A root that cannot be fetched *)

Lemma rootless_step root0 cl e h s g l s' :
  Get cl (url.String root0) = inr e ->
  rootless root0 cl h s -> step s g = Some (l, s') -> rootless root0 cl (l :: h) s'.
Proof.
  intros Hget [Hroot Hcl Hcount Hmap Hq Hw Hret Hlinks] Hs.
  destruct s as [c lg m t ws p]. simpl in *.
  step_inv Hs;
    repeat match goal with
      | H : ws !! _ = Some _ |- _ => pose proof (Hw _ _ H) as Hg; simpl in Hg; clear H
      end;
    simplify_eq/=; try done.
  all: try match goal with
       | H : Read (NewLinkReader _ _) = _ |- _ =>
           unfold Read in H; simpl in H; rewrite Hget in H; simplify_eq/=
       end.
  all: constructor; simpl; rewrite_queue; try done.
  all: try (by inversion Hq).
  all: try (intros err [= <-]; bool_to_prop; by rewrite ?Hcount in *).
  all: try (intros j gj [(_ & <- & _)|(_ & Hj)]%list_lookup_insert_Some;
            [simpl; try done; by inversion Hq|by eapply Hw]).
Qed.

(** X18. A root that cannot be fetched. If the request for the root fails,
    then in every run no link is ever read, the only request sent is the one
    for the root, nothing is admitted, and when [Crawl] returns it returns
    the error "unable to access url" with the root, not a site map. *)
Theorem unreachable_root_fails (root0 : url.URL) (config0 : Config)
    (dc : DomainCrawler) (cl : Client) (e : error)
    (sch : list Gid) (h : list Label) (s : State) :
  NewDomainCrawler root0 config0 = inl dc ->
  Client_ config0 = Some cl ->
  Get cl (url.String root0) = inr e ->
  Crawl sch dc = Some (h, s) ->
  occ is_link h = 0
  /\ accessedPageCount (crawler s) = 0
  /\ siteURLS (siteMap (crawler s)) = ∅
  /\ (forall page get href err, LRead page get href err ∈ h -> page = root0)
  /\ (forall err, main s = Returning err ->
        err = Some (Errorf ("unable to access url " +:+ url.String root0))
        /\ Crawl_result s
           = Some (inr (Errorf ("unable to access url " +:+ url.String root0)))).
Proof.
  intros Hn Hcl Hget Hr.
  assert (rootless root0 cl h s
          /\ forall page get href err, LRead page get href err ∈ h -> page = root0)
    as [[Hroot _ Hcount Hmap _ _ Hret Hlinks] Hreads].
  { apply (run_invariant (fun h s => rootless root0 cl h s
             /\ forall page get href err, LRead page get href err ∈ h -> page = root0))
      with (sch := sch) (h := []) (s := Crawl_start dc); [| |done].
    - intros h0 s0 g l s1 [Hrl Hrd] Hs. split; [by eapply rootless_step|].
      intros page get href err [Heq|Hin]%elem_of_cons; [|by eapply Hrd].
      destruct Hrl as [_ _ _ _ _ Hw _ _].
      destruct s0 as [c lg m t ws p]. simpl in *. subst l.
      step_inv Hs.
      all: match goal with
           | H : _ !! _ = Some (Reading _) |- _ =>
               pose proof (Hw _ _ H) as Hg; simpl in Hg
           end; by subst.
    - apply NewDomainCrawler_inv in Hn as (v & _ & _ & ->).
      split; [|intros ? ? ? ? Hin; by apply elem_of_nil in Hin].
      constructor; simpl; try done.
      + by repeat constructor.
      + by intros i g [-> _]%lookup_replicate. }
  split; [done|]. split; [done|]. split; [done|]. split; [done|].
  intros err Hm. split; [by apply Hret|].
  unfold Crawl_result. rewrite Hm. by rewrite (Hret _ Hm).
Qed.

(** ** Example runs of the properties above *)

Lemma early_runs :
  Crawl early two_workers
  = Some (history_after early two_workers, state_after early two_workers).
Proof. apply Crawl_after. vm_compute. reflexivity. Qed.

Lemma early_running :
  panicked (state_after early two_workers) = None
  /\ finished (state_after early two_workers) = false.
Proof. split; vm_compute; reflexivity. Qed.

Lemma Crawl_never_deadlocks_witness :
  exists g l s',
    g <> GTimer /\ step (state_after early two_workers) g = Some (l, s').
Proof.
  exact (Crawl_never_deadlocks example_root
           (NewConfig (site_client no_backlink_site) [SetMaxConcurrency 2])
           two_workers early _ _ eq_refl early_runs
           (proj1 early_running) (proj2 early_running)).
Defined.

Lemma outstanding_work_bounded_witness :
  Z.of_nat (length (pendingURLS (crawler (state_after interleaved two_workers))))
  <= MaxPendingURLS (NewConfig (site_client no_backlink_site) [SetMaxConcurrency 2]).
Proof.
  exact (proj1 (proj2 (proj2
    (outstanding_work_bounded example_root
       (NewConfig (site_client no_backlink_site) [SetMaxConcurrency 2])
       two_workers interleaved _ _ eq_refl interleaved_runs)))).
Defined.

Lemma late_runs :
  Crawl late timed = Some (history_after late timed, state_after late timed).
Proof. apply Crawl_after. vm_compute. reflexivity. Qed.

Lemma timeout_stops_opening_pages_witness :
  timedOut (crawler (state_after late timed)) = true
  <-> LTimeout ∈ history_after late timed.
Proof.
  exact (proj1 (proj2 (proj2
    (timeout_stops_opening_pages example_root
       (NewConfig (site_client no_backlink_site)
          [SetMaxConcurrency 1; SetCrawlTimeout Second])
       timed late _ _ eq_refl late_runs)))).
Defined.

(** The root is skipped, nothing is read, and [Crawl] reports the root as
    inaccessible although no request was sent. *)
Lemma timeout_before_the_root :
  LSkip example_root ∈ history_after late timed
  /\ occ is_open (history_after late timed) = 0
  /\ Crawl_result (state_after late timed)
     = Some (inr (Errorf "unable to access url http://example.com")).
Proof.
  split; [apply (bool_decide_unpack _); vm_compute; reflexivity|].
  split; vm_compute; reflexivity.
Qed.

Lemma every_reader_closed_witness :
  occ is_open (history_after interleaved two_workers)
  = occ is_closeReader (history_after interleaved two_workers)
    + total holding (workers (state_after interleaved two_workers)).
Proof.
  exact (proj1
    (every_reader_closed example_root
       (NewConfig (site_client no_backlink_site) [SetMaxConcurrency 2])
       two_workers interleaved _ _ eq_refl interleaved_runs)).
Defined.

Lemma no_page_requested_twice_witness :
  occ (requests "http://example.com/about") (history_after interleaved two_workers)
  <= occ (opens "http://example.com/about") (history_after interleaved two_workers).
Proof.
  exact (proj1
    (no_page_requested_twice example_root
       (NewConfig (site_client no_backlink_site) [SetMaxConcurrency 2])
       two_workers interleaved _ _ "http://example.com/about"
       eq_refl interleaved_runs)).
Defined.

(** The root is requested twice when a page links to it by its own string. *)
Lemma root_requested_twice :
  runs (replicate 13 (GWorker 0)) selfish = true
  /\ occ (requests "http://example.com")
       (history_after (replicate 13 (GWorker 0)) selfish) = 2.
Proof. split; vm_compute; reflexivity. Qed.

Lemma about_is_read :
  read_link (history_after interleaved two_workers) about.
Proof.
  exists example_root, true, "/about",
    (url.mkURL "" "" "" "/about" false false "" "").
  split; [apply (bool_decide_unpack _); vm_compute; reflexivity|].
  split; vm_compute; reflexivity.
Qed.

Lemma every_link_read_is_admitted_witness :
  settled (state_after interleaved two_workers) about.
Proof.
  exact (proj1
    (every_link_read_is_admitted example_root
       (NewConfig (site_client no_backlink_site) [SetMaxConcurrency 2])
       two_workers interleaved _ _ about eq_refl interleaved_runs
       about_is_read eq_refl)).
Defined.

Lemma single_worker_never_panics_witness :
  panicked (state_after through_a narrow) = None.
Proof.
  exact (proj1
    (single_worker_never_panics example_root
       (NewConfig (site_client backlog_site)
          [SetMaxConcurrency 1; SetMaxPendingURLS 2])
       narrow through_a _ _ eq_refl eq_refl through_a_runs)).
Defined.

Lemma to_the_end_runs :
  Crawl to_the_end bare
  = Some (history_after to_the_end bare, state_after to_the_end bare).
Proof. apply Crawl_after. vm_compute. reflexivity. Qed.

Lemma to_the_end_finished : finished (state_after to_the_end bare) = true.
Proof. vm_compute. reflexivity. Qed.

Lemma again_runs :
  Crawl [GMain] (crawler (state_after to_the_end bare))
  = Some (history_after [GMain] (crawler (state_after to_the_end bare)),
          state_after [GMain] (crawler (state_after to_the_end bare))).
Proof. apply Crawl_after. vm_compute. reflexivity. Qed.

Lemma Crawl_again_panics_witness :
  Crawl_result (state_after [GMain] (crawler (state_after to_the_end bare))) = None.
Proof.
  exact (proj1
    (Crawl_again_panics example_root
       (NewConfig (site_client bare_site) [SetMaxConcurrency 1])
       bare to_the_end _ _ [GMain] _ _
       eq_refl to_the_end_runs to_the_end_finished again_runs)).
Defined.

Lemma drops_are_logged_witness :
  Z.of_nat (length (filter is_error_entry (logged (state_after through_a narrow))))
  = occ is_drop (history_after through_a narrow).
Proof.
  exact (proj1
    (drops_are_logged example_root
       (NewConfig (site_client backlog_site)
          [SetMaxConcurrency 1; SetMaxPendingURLS 2])
       narrow through_a _ _ eq_refl through_a_runs)).
Defined.

Lemma about_is_rendered :
  "http://example.com/about"
  ∈ rendered (siteMap (crawler (state_after interleaved two_workers))).
Proof. apply (bool_decide_unpack _). vm_compute. reflexivity. Qed.

Lemma rendered_in_domain_witness :
  exists u,
    url.String u = "http://example.com/about"
    /\ validator (siteMap two_workers) example_root u = true
    /\ linked_from (history_after interleaved two_workers) u
    /\ LLock u true ∈ history_after interleaved two_workers
    /\ (validator (siteMap two_workers) = ValidateHosts ->
        url.Host u = url.Host example_root).
Proof.
  exact (rendered_in_domain example_root
           (NewConfig (site_client no_backlink_site) [SetMaxConcurrency 2])
           two_workers interleaved _ _ "http://example.com/about"
           eq_refl interleaved_runs about_is_rendered).
Defined.

Lemma down_runs :
  Crawl (solo 5) down = Some (history_after (solo 5) down, state_after (solo 5) down).
Proof. apply Crawl_after. vm_compute. reflexivity. Qed.

Lemma unreachable_root_fails_witness :
  occ is_link (history_after (solo 5) down) = 0.
Proof.
  exact (proj1
    (unreachable_root_fails example_root
       (NewConfig (site_client []) [SetMaxConcurrency 1])
       down (site_client []) (ErrTransport "connection refused")
       (solo 5) _ _ eq_refl eq_refl eq_refl down_runs)).
Defined.

(** ** A complete crawl *)

(** X19. A complete crawl accounts for every URL. In a run that has reached
    a state where no goroutine holds a URL and the channel is empty, every
    URL string of the site map, and the root's, was handled exactly once:
    for each string, the requests sent for it, the skips of it after the
    timeout and the drops of it on a full channel add up to one if it is in
    the site map, plus one if it is the root's. So an admitted URL that was
    neither dropped nor skipped was requested, once. *)
Theorem complete_crawl_accounts (root0 : url.URL) (config0 : Config)
    (dc : DomainCrawler) (sch : list Gid) (h : list Label) (s : State)
    (k : string) :
  NewDomainCrawler root0 config0 = inl dc ->
  Crawl sch dc = Some (h, s) ->
  quiescent s ->
  pendingURLS (crawler s) = [] ->
  occ (requests k) h + occ (skips k) h + occ (drops k) h
  = (if bool_decide (url.String root0 = k) then 1 else 0)
    + (if siteURLS_get (siteURLS (siteMap (crawler s))) k then 1 else 0).
Proof.
  intros Hn Hr Hq Hempty.
  destruct (visiting_run _ _ _ _ _ _ k Hn Hr) as [H1 H2 H3 _].
  destruct (NewDomainCrawler_inv _ _ _ Hn) as (v & _ & Hv & _).
  pose proof (fr_admits _ _ _ _ (frontier_run _ _ _ _ _ _ _ Hn Hv Hr) k) as Ha.
  unfold pending in H1. rewrite Hempty in H1. simpl in H1.
  rewrite (total_sending_quiescent k _ Hq) in H1.
  rewrite (total_quiescent_zero (checking k)) in H2 by done.
  rewrite (total_quiescent_zero (unread k)) in H3 by done.
  rewrite Ha in H1. lia.
Qed.

Lemma to_the_end_quiet :
  quiescent (state_after to_the_end bare)
  /\ pendingURLS (crawler (state_after to_the_end bare)) = [].
Proof.
  split; [|vm_compute; reflexivity].
  unfold quiescent.
  assert (workers (state_after to_the_end bare) = [Returned]) as ->
    by (vm_compute; reflexivity).
  apply Forall_singleton. by right.
Qed.

Lemma complete_crawl_accounts_witness :
  occ (requests "http://example.com") (history_after to_the_end bare)
  + occ (skips "http://example.com") (history_after to_the_end bare)
  + occ (drops "http://example.com") (history_after to_the_end bare)
  = (if bool_decide (url.String example_root = "http://example.com") then 1 else 0)
    + (if siteURLS_get (siteURLS (siteMap (crawler (state_after to_the_end bare))))
            "http://example.com"
       then 1 else 0).
Proof.
  exact (complete_crawl_accounts example_root
           (NewConfig (site_client bare_site) [SetMaxConcurrency 1])
           bare to_the_end _ _ "http://example.com" eq_refl to_the_end_runs
           (proj1 to_the_end_quiet) (proj2 to_the_end_quiet)).
Defined.

(** ** Crawls that go wrong *)

Lemma uncounted_send_runs :
  Crawl uncounted_send three_workers
  = Some (history_after uncounted_send three_workers,
          state_after uncounted_send three_workers).
Proof. apply Crawl_after. vm_compute. reflexivity. Qed.

(** C2. [Crawl] closes the channel when [Wait] returns, which is safe only
    if every URL queued has been counted by then, and the code misses
    that: [realAllLinks] calls [Add] after the send, not before it, so the
    counter can reach zero while URLs that were queued are not counted yet. In this run of
    three workers, [Wait] returns when two URLs have been sent and none of
    them counted, three were received and one is done, so two goroutines
    still hold a URL; [Crawl] closes the channel and returns the site map;
    the second worker then counts its send and goes on to the next link,
    whose send panics on the closed channel. At the end two URLs have been
    queued and one counted, and the counter is not zero. *)
Theorem Add_after_send_race :
  let h := history_after uncounted_send three_workers in
  let s := state_after uncounted_send three_workers in
  Crawl uncounted_send three_workers = Some (h, s)
  /\ (exists h2 h1,
        h = h2 ++ LWait :: h1
        /\ counter_after h1 = 0
        /\ occ is_send h1 = 2 /\ occ is_add h1 = 0
        /\ occ is_recv h1 = 3 /\ occ is_done h1 = 1)
  /\ LClose ∈ h
  /\ LReturn None ∈ h
  /\ head h = Some (LPanic "send on closed channel")
  /\ panicked s = Some "send on closed channel"
  /\ occ is_send h = 2 /\ occ is_add h = 1
  /\ total owes (workers s) = 1 /\ total busy (workers s) = 2
  /\ pendingURLSRemaining (crawler s) = 1.
Proof.
  split; [exact uncounted_send_runs|].
  split.
  { exists (take 7 (history_after uncounted_send three_workers)),
           (drop 8 (history_after uncounted_send three_workers)).
    repeat (split; [vm_compute; reflexivity|]). vm_compute; reflexivity. }
  split; [apply (bool_decide_unpack _); vm_compute; reflexivity|].
  split; [apply (bool_decide_unpack _); vm_compute; reflexivity|].
  repeat (split; [vm_compute; reflexivity|]). vm_compute; reflexivity.
Qed.

(** ** A dropped URL *)

Lemma worker_step_reading (c : DomainCrawler) (g : Goroutine) (o : Outcome)
    (page : url.URL) (get : bool) (href : string) (err : option error) :
  worker_step c g = Some o ->
  out_label o = LRead page get href err ->
  exists r, g = Reading r /\ pageURL r = page.
Proof.
  intros Hw. unfold worker_step, proceed, panic in Hw.
  repeat case_in Hw; simplify_eq/=; intros ?; simplify_eq; eauto.
Qed.

Lemma reads_received_step root0 v h s g l s' :
  frontier root0 v h s -> reads_received h -> step s g = Some (l, s') ->
  reads_received (l :: h).
Proof.
  intros Hf Ha Hs page get href err [Heq|Hin]%elem_of_cons;
    [|right; by eapply Ha].
  subst l. right.
  destruct (step_cases _ _ _ _ Hs)
    as [(_ & _ & Hm)|(i & w & o & Hwi & Hstep & Hl & _)]; [done|].
  destruct (worker_step_reading _ _ _ _ _ _ _ Hstep (eq_sym Hl)) as (r & -> & <-).
  by eapply (fr_pages _ _ _ _ Hf i (Reading r)).
Qed.

Lemma reads_received_run (root0 : url.URL) (config0 : Config) (dc : DomainCrawler)
    (sch : list Gid) (h : list Label) (s : State) :
  NewDomainCrawler root0 config0 = inl dc -> Crawl sch dc = Some (h, s) ->
  reads_received h.
Proof.
  intros Hn Hr. destruct (NewDomainCrawler_inv _ _ _ Hn) as (v & _ & Hv & _).
  cut (frontier root0 v h s /\ reads_received h); [by intros [_ ?]|].
  apply (run_invariant (fun h s => frontier root0 v h s /\ reads_received h))
    with (sch := sch) (h := []) (s := Crawl_start dc); [| |done].
  - intros h0 s0 g l s1 [Hf Ha] Hs.
    eauto using frontier_step, reads_received_step.
  - split; [by eapply frontier_start|]. by intros ? ? ? ? ?%elem_of_nil.
Qed.

(** C9, as the code has it. A URL whose send the full channel refused was
    admitted before the attempt; from then on it stays in the site map, so
    [WriteMap] writes it, while it is neither in the channel nor about to
    be sent, and no later step sends, drops or receives a URL with its
    string. Over the whole run a URL with its string is received from the
    channel at most once, and only if the string is the root's, which is
    seeded without being admitted; the requests for it are no more than
    its receives. A dropped URL whose string is not the root's is never
    received and no page with its string is ever read. *)
Theorem dropped_url_stays_in_site_map (root0 : url.URL) (config0 : Config)
    (dc : DomainCrawler) (sch : list Gid) (h : list Label) (s : State)
    (u : url.URL) (out : string) :
  NewDomainCrawler root0 config0 = inl dc ->
  Crawl sch dc = Some (h, s) ->
  LDrop u ∈ h ->
  siteURLS (siteMap (crawler s)) !! url.String u = Some true
  /\ WriteMap (siteMap (crawler s)) out
     = (siteMap (crawler s), out +:+ lines (rendered (siteMap (crawler s))))
  /\ url.String u ∈ rendered (siteMap (crawler s))
  /\ pending s (url.String u) = 0
  /\ (forall h2 h1, h = h2 ++ LDrop u :: h1 ->
        LLock u true ∈ h1
        /\ forall l, l ∈ h2 -> handles (url.String u) l = false)
  /\ occ (receives (url.String u)) h
     <= (if bool_decide (url.String root0 = url.String u) then 1 else 0)
  /\ occ (requests (url.String u)) h <= occ (receives (url.String u)) h
  /\ (url.String u <> url.String root0 ->
      forall page,
        (LRecv page ∈ h \/ exists get href err, LRead page get href err ∈ h) ->
        url.String page <> url.String u).
Proof.
  intros Hn Hr Hin.
  destruct (dropped_url_kept _ _ _ _ _ _ u out Hn Hr Hin)
    as (Hm & Hw & Hrd & Hp & Hafter).
  do 5 (split; [done|]).
  destruct (visiting_run _ _ _ _ _ _ (url.String u) Hn Hr) as [H1 H2 H3 _].
  destruct (NewDomainCrawler_inv _ _ _ Hn) as (v & _ & Hv & _).
  pose proof (fr_admits _ _ _ _ (frontier_run _ _ _ _ _ _ _ Hn Hv Hr)
                (url.String u)) as Ha.
  unfold siteURLS_get in Ha. rewrite Hm in Ha. simpl in Ha. rewrite Hp in H1.
  pose proof (occ_elem_pos (drops (url.String u)) h (LDrop u) Hin) as Hd.
  simpl in Hd. rewrite bool_decide_eq_true_2 in Hd by done.
  specialize (Hd eq_refl).
  pose proof (occ_nonneg (skips (url.String u)) h).
  pose proof (occ_nonneg (receives (url.String u)) h).
  pose proof (total_checking_nonneg (url.String u) (workers s)).
  pose proof (total_unread_nonneg (url.String u) (workers s)).
  assert (occ (receives (url.String u)) h
          <= (if bool_decide (url.String root0 = url.String u) then 1 else 0))
    as Hrecv by lia.
  split; [done|]. split; [lia|].
  intros Hne page Hpage Heq.
  rewrite bool_decide_eq_false_2 in Hrecv by congruence.
  assert (LRecv page ∈ h) as Hrp.
  { destruct Hpage as [?|(get & href & err & Hread)]; [done|].
    by eapply (reads_received_run _ _ _ _ _ _ Hn Hr). }
  pose proof (occ_elem_pos (receives (url.String u)) h (LRecv page) Hrp) as Hpos.
  simpl in Hpos. rewrite bool_decide_eq_true_2 in Hpos by done.
  specialize (Hpos eq_refl). lia.
Qed.

Lemma back_to_root_runs :
  Crawl back_to_root looping
  = Some (history_after back_to_root looping, state_after back_to_root looping).
Proof. apply Crawl_after. vm_compute. reflexivity. Qed.

Lemma back_to_root_drops_root : LDrop example_root ∈ history_after back_to_root looping.
Proof. apply (bool_decide_unpack _). vm_compute. reflexivity. Qed.

(** The link back to the root finds the channel of one full: the root's
    string stays in the site map and the rendering. *)
Lemma dropped_url_stays_in_site_map_witness :
  siteURLS (siteMap (crawler (state_after back_to_root looping)))
    !! url.String example_root = Some true
  /\ url.String example_root
     ∈ rendered (siteMap (crawler (state_after back_to_root looping)))
  /\ occ (receives (url.String example_root)) (history_after back_to_root looping)
     <= (if bool_decide (url.String example_root = url.String example_root)
         then 1 else 0).
Proof.
  pose proof (dropped_url_stays_in_site_map example_root
                (NewConfig (site_client loop_site)
                   [SetMaxConcurrency 1; SetMaxPendingURLS 1])
                looping back_to_root _ _ example_root ""
                eq_refl back_to_root_runs back_to_root_drops_root) as H.
  exact (conj (proj1 H) (conj (proj1 (proj2 (proj2 H)))
           (proj1 (proj2 (proj2 (proj2 (proj2 (proj2 H)))))))).
Defined.

(** C9 as stated fails for a link back to the root: the root was received
    as the seed and its page requested and read; the link to it that the
    page holds is then admitted, and dropped by the full channel. *)
Lemma seed_crawled_then_dropped : ~ dropped_never_crawled_as_stated.
Proof.
  intros H.
  destruct (H example_root
              (NewConfig (site_client loop_site)
                 [SetMaxConcurrency 1; SetMaxPendingURLS 1])
              looping back_to_root _ _ example_root
              eq_refl back_to_root_runs back_to_root_drops_root) as [_ Hnever].
  apply (Hnever example_root true "/a" None); [|done].
  apply (bool_decide_unpack _). vm_compute. reflexivity.
Qed.

(** ** The library functions on some inputs *)

(** [strconv.Quote] puts a backslash before a double quote and before a
    backslash, and writes a newline as its escape. *)
Lemma quote_escapes :
  quote (String url.doublequote (String "\" (String (ascii_of_nat 10) "a")))
  = String url.doublequote
      (String "\" (String url.doublequote ("\\\n" +:+
         String "a" (String url.doublequote EmptyString)))).
Proof. reflexivity. Qed.

(** [url.Parse] refuses an escape that is not well formed, a port that is
    not a number, a bracket left open and a space in the host. *)
Lemma Parse_refuses :
  url.Parse "%" = inr (url.Error "parse" "%" (url.EscapeError "%"))
  /\ url.Parse "/100%" = inr (url.Error "parse" "/100%" (url.EscapeError "%"))
  /\ url.Parse "http://a:b/" = inr (url.Error "parse" "http://a:b/" (url.invalidPort ":b"))
  /\ url.Parse "http://[::1/" = inr (url.Error "parse" "http://[::1/" "missing ']' in host")
  /\ url.Parse "http://a b/"
     = inr (url.Error "parse" "http://a b/" (url.InvalidHostError " ")).
Proof. repeat split; vm_compute; reflexivity. Qed.

(** The user information is no part of the host, and [String] writes the
    path with its escapes, so that one page has one URL string. *)
Lemma Parse_String_examples :
  (exists u, url.Parse "http://user:pw@example.com/x" = inl u
             /\ url.Host u = "example.com")
  /\ written_back "http://user:pw@example.com/x" = Some "http://user:pw@example.com/x"
  /\ written_back "/a b" = Some "/a%20b"
  /\ written_back "/a%20b" = Some "/a%20b"
  /\ written_back "http://example.com/%7Efoo" = Some "http://example.com/%7Efoo".
Proof.
  split; [eexists; split; vm_compute; reflexivity|].
  repeat split; vm_compute; reflexivity.
Qed.

(** The root [%] of the repository's test of an invalid root: [CrawlDomain]
    returns the error of [url.Parse] and starts no crawl. *)
Lemma CrawlDomain_invalid_root (transport : Client) (sch : list Gid)
    (opts : list Option) :
  exists rootErr,
    url.Parse "%" = inr rootErr
    /\ CrawlDomain transport sch "%" opts = inl rootErr.
Proof. eexists. split; reflexivity. Qed.
